(** * EmbeddableWebServer.h: a shallow embedding and its checked properties

    The development follows the C source file by file section: the C
    string helpers, the document-root check, the [HeapString] buffer, the
    header string pool, the incremental request parser, the response
    constructors and the in-memory response transmission.

    Conventions.
    - A [char] is an [ascii]; a C string argument is the list of its bytes,
      read up to (not including) the first NUL, as [strlen] and every
      [while ('\0' != *p)] loop of the source do.
    - [size_t] is the 64 bit unsigned type of the LP64 platforms the server
      runs on; its values are [Z] and the wrap-around is written out with
      [wrap].
    - A pointer is an [option]: [None] is [NULL].  A pointer into
      [headersStringPool] is the index of the byte it points at.
    - A store through [NULL] or outside an array, which is undefined
      behaviour in C, is a [Crash] carrying the kind of the fault. *)

From Stdlib Require Import ZArith List Ascii String Bool Lia.
From Stdlib Require Import DecimalString DecimalPos.
Import ListNotations.
Open Scope string_scope.
Open Scope list_scope.
Open Scope Z_scope.

(** ** Characters and C strings *)

Definition NUL : ascii := "000"%char.
Definition CR : ascii := "013"%char.
Definition LF : ascii := "010"%char.
Definition DQUOTE : ascii := "034"%char.

Definition bytes (s : string) : list ascii := list_ascii_of_string s.

Definition ord (c : ascii) : Z := Z.of_N (N_of_ascii c).

(** The bytes of the C string starting at the head of [l]. *)
Fixpoint cstring (l : list ascii) : list ascii :=
  match l with
  | [] => []
  | c :: rest => if Ascii.eqb c NUL then [] else c :: cstring rest
  end.

Definition len {A} (l : list A) : Z := Z.of_nat (List.length l).

Definition strlen (l : list ascii) : Z := len (cstring l).

(** [size_t] arithmetic. *)
Definition SIZE_MAX_plus_1 : Z := 2 ^ 64.
Definition wrap (z : Z) : Z := z mod SIZE_MAX_plus_1.

(** ** pathEscapesDocumentRoot *)

Module Path.

Inductive PathState := PathStateNormal | PathStateSep | PathStateDot.

(** [int]: a sum or a difference is kept as the 32-bit two's complement
    number, as the usual compilers do; the overflow itself is undefined in
    C.  The counter moves by at most one for each byte of the path, so that
    a path of less than [2 ^ 31] bytes never gets there. *)
Definition INT_MAX : Z := 2 ^ 31 - 1.
Definition INT_MIN : Z := - 2 ^ 31.
Definition int (z : Z) : Z := (z + 2 ^ 31) mod 2 ^ 32 - 2 ^ 31.

(** The three locals of the function. *)
Record locals := {
  subdirDepth : Z;                (* int subdirDepth *)
  state : PathState;
  isFirstChar : bool
}.

Definition initial : locals :=
  {| subdirDepth := 0; state := PathStateNormal; isFirstChar := true |}.

Definition chr_is (c : ascii) (s : string) : bool :=
  match s with
  | String d EmptyString => Ascii.eqb c d
  | _ => false
  end.

(** One turn of the [switch] in the body of the [while] loop. *)
Definition step (l : locals) (c : ascii) : locals :=
  match state l with
  | PathStateNormal =>
      if chr_is c "/" || chr_is c "\" then
        {| subdirDepth := subdirDepth l; state := PathStateSep; isFirstChar := false |}
      else if isFirstChar l && chr_is c "." then
        {| subdirDepth := subdirDepth l; state := PathStateDot; isFirstChar := false |}
      else if isFirstChar l then
        {| subdirDepth := int (subdirDepth l + 1); state := PathStateNormal; isFirstChar := false |}
      else
        {| subdirDepth := subdirDepth l; state := PathStateNormal; isFirstChar := false |}
  | PathStateSep =>
      if chr_is c "." then
        {| subdirDepth := subdirDepth l; state := PathStateDot; isFirstChar := isFirstChar l |}
      else if negb (chr_is c "/") && negb (chr_is c "\") then
        {| subdirDepth := int (subdirDepth l + 1); state := PathStateNormal; isFirstChar := isFirstChar l |}
      else l
  | PathStateDot =>
      if chr_is c "/" then
        {| subdirDepth := subdirDepth l; state := PathStateSep; isFirstChar := isFirstChar l |}
      else if chr_is c "." then
        {| subdirDepth := int (subdirDepth l - 1); state := PathStateNormal; isFirstChar := isFirstChar l |}
      else
        {| subdirDepth := subdirDepth l; state := PathStateNormal; isFirstChar := isFirstChar l |}
  end.

(** The [while ('\0' != *path)] loop. *)
Fixpoint scan (path : list ascii) (l : locals) : locals :=
  match path with
  | [] => l
  | c :: rest => if Ascii.eqb c NUL then l else scan rest (step l c)
  end.

Definition pathEscapesDocumentRoot (path : list ascii) : bool :=
  subdirDepth (scan path initial) <? 0.

(** The depth counter as the specification words it: the path is cut into
    segments at the separators, an empty segment (duplicate separator) and
    a [.] segment leave the depth alone, a [..] segment lowers it by one and
    any other segment raises it by one. *)
Fixpoint segments (path : list ascii) (cur : list ascii) : list (list ascii) :=
  match path with
  | [] => [rev cur]
  | c :: rest =>
      if chr_is c "/" || chr_is c "\" then rev cur :: segments rest []
      else segments rest (c :: cur)
  end.

Definition segment_delta (seg : list ascii) : Z :=
  match seg with
  | [] => 0
  | [c] => if chr_is c "." then 0 else 1
  | [c; d] => if chr_is c "." && chr_is d "." then -1 else 1
  | _ => 1
  end.

(** Does the running depth go below zero at some segment? *)
Fixpoint dips (segs : list (list ascii)) (depth : Z) : bool :=
  match segs with
  | [] => false
  | seg :: rest =>
      let depth' := depth + segment_delta seg in
      (depth' <? 0) || dips rest depth'
  end.

Definition depth_goes_negative (path : list ascii) : bool :=
  dips (segments (cstring path) []) 0.

(** Are there two dots in a row in the path? *)
Fixpoint has_dotdot (path : list ascii) : bool :=
  match path with
  | c :: rest =>
      match rest with
      | d :: _ => (chr_is c "." && chr_is d ".") || has_dotdot rest
      | [] => false
      end
  | [] => false
  end.

End Path.

(** ** Outcomes of a call

    A call either returns or stops the process.  [Hang] is a loop that
    never exits, [Abort] a failed [assert]; the others are memory faults
    named after the object that is accessed. *)

Inductive fault :=
| Hang
| Abort
| HeapNull
| HeapOutOfBounds
| FieldOutOfBounds
| HeadersOutOfBounds
| PoolNull
| PoolOutOfBounds
| HeaderNameNull
| HeaderValueNull
| BodyNull
| BodyOutOfBounds
| FormatNull
| SendOutOfBounds.

Inductive outcome (A : Type) :=
| Ok (a : A)
| Crash (f : fault).
Arguments Ok {A} a.
Arguments Crash {A} f.

Definition bind {A B} (o : outcome A) (k : A -> outcome B) : outcome B :=
  match o with
  | Ok a => k a
  | Crash f => Crash f
  end.

Notation "x <- e ;; k" := (bind e (fun x => k))
  (at level 61, e at next level, right associativity).
Notation "' p <- e ;; k" := (bind e (fun x => let p := x in k))
  (at level 61, p pattern, e at next level, right associativity).

(** ** Arrays *)

(** [a[i] = x]; [None] when [i] is not an index of [a]. *)
Definition store {A} (a : list A) (i : Z) (x : A) : option (list A) :=
  if (0 <=? i) && (i <? len a)
  then Some (firstn (Z.to_nat i) a ++ x :: skipn (S (Z.to_nat i)) a)
  else None.

(** [memcpy(&a[i], src, length src)]. *)
Definition blit {A} (a : list A) (i : Z) (src : list A) : option (list A) :=
  if (0 <=? i) && (i + len src <=? len a)
  then Some (firstn (Z.to_nat i) a ++ src ++ skipn (Z.to_nat i + List.length src) a)
  else None.

Definition load (a : list ascii) (i : Z) : ascii :=
  nth (Z.to_nat i) a NUL.

(** [n] bytes as [calloc] returns them. *)
Definition zeros (n : Z) : list ascii := repeat NUL (Z.to_nat n).

Definition from_option {A} (f : fault) (o : option A) : outcome A :=
  match o with
  | Some a => Ok a
  | None => Crash f
  end.

(** ** HeapString *)

Module HeapStr.

(** [contents] is the allocation itself: the list is as long as the block
    that [realloc] or [calloc] returned. *)
Record HeapString := {
  contents : option (list ascii);
  length : Z;
  capacity : Z
}.

Definition heapStringInit (string : HeapString) : HeapString :=
  {| contents := None; length := 0; capacity := 0 |}.

(** [while (powerOf2 < required) powerOf2 *= 2;] on [size_t].  Once the
    product has wrapped to 0 the loop cannot exit any more; this happens at
    the 56th doubling, so 64 turns decide whether the loop exits. *)
Fixpoint doubling (fuel : nat) (powerOf2 required : Z) : outcome Z :=
  if powerOf2 <? required then
    match fuel with
    | O => Crash Hang
    | S fuel' => doubling fuel' (wrap (powerOf2 * 2)) required
    end
  else Ok powerOf2.

Definition heapStringNextAllocationSize (required : Z) : outcome Z :=
  doubling 64 256 required.

(** [realloc(old, size)]: a block of [size] bytes that starts with the
    bytes of the old block.  The allocator is assumed not to fail; the
    bytes past the old block are indeterminate in C and NUL here. *)
Definition realloc (old : option (list ascii)) (size : Z) : list ascii :=
  let o := match old with Some l => l | None => [] end in
  firstn (Z.to_nat size) (o ++ repeat NUL (Z.to_nat size)).

(** [memset(&a[from], 0, wrap (size - from))] on a block of [size] bytes. *)
Definition memset0 (a : list ascii) (from size : Z) : outcome (list ascii) :=
  from_option HeapOutOfBounds
    (blit a from (repeat NUL (Z.to_nat (wrap (size - from))))).

Definition heapStringReallocIfNeeded (string : HeapString) (minimumCapacity : Z)
  : outcome HeapString :=
  if minimumCapacity <=? capacity string then Ok string
  else
    newCapacity <- heapStringNextAllocationSize minimumCapacity ;;
    if newCapacity <=? 0 then Crash Abort
    else
      cleared <- memset0 (realloc (contents string) newCapacity)
                         (length string) newCapacity ;;
      Ok {| contents := Some cleared;
            length := length string;
            capacity := newCapacity |}.

(** [string->contents[i] = c]. *)
Definition poke (string : HeapString) (i : Z) (c : ascii) : outcome HeapString :=
  match contents string with
  | None => Crash HeapNull
  | Some a =>
      a' <- from_option HeapOutOfBounds (store a i c) ;;
      Ok {| contents := Some a'; length := length string; capacity := capacity string |}
  end.

(** [memcpy(&string->contents[i], src, n)]. *)
Definition copy_in (string : HeapString) (i : Z) (src : list ascii) : outcome HeapString :=
  match contents string with
  | None => Crash HeapNull
  | Some a =>
      a' <- from_option HeapOutOfBounds (blit a i src) ;;
      Ok {| contents := Some a'; length := length string; capacity := capacity string |}
  end.

Definition set_length (string : HeapString) (n : Z) : HeapString :=
  {| contents := contents string; length := n; capacity := capacity string |}.

Definition heapStringAppendChar (string : HeapString) (c : ascii) : outcome HeapString :=
  string <- heapStringReallocIfNeeded string (wrap (length string + 2)) ;;
  string <- poke string (length string) c ;;
  let string := set_length string (wrap (length string + 1)) in
  poke string (length string) NUL.

Definition heapStringSetToCString (heapString : HeapString) (cString : list ascii)
  : outcome HeapString :=
  let cStringLength := strlen cString in
  heapString <- heapStringReallocIfNeeded heapString (wrap (cStringLength + 1)) ;;
  heapString <- copy_in heapString 0 (cstring cString) ;;
  let heapString := set_length heapString cStringLength in
  poke heapString (length heapString) NUL.

Definition heapStringAppendString (string : HeapString) (stringToAppend : list ascii)
  : outcome HeapString :=
  let stringToAppendLength := strlen stringToAppend in
  if stringToAppendLength =? 0 then Ok string
  else
    let requiredCapacity := wrap (wrap (stringToAppendLength + length string) + 1) in
    string <- heapStringReallocIfNeeded string requiredCapacity ;;
    string <- copy_in string (length string) (cstring stringToAppend) ;;
    let string := set_length string (wrap (length string + stringToAppendLength)) in
    poke string (length string) NUL.

(** The first [n] bytes behind a source pointer; copying no byte reads
    nothing, also through [NULL]. *)
Definition read_bytes (source : option (list ascii)) (n : Z) : outcome (list ascii) :=
  if n =? 0 then Ok []
  else match source with
       | None => Crash HeapNull
       | Some a => if n <=? len a then Ok (firstn (Z.to_nat n) a)
                   else Crash HeapOutOfBounds
       end.

Definition heapStringAppendHeapString (target source : HeapString) : outcome HeapString :=
  target <- heapStringReallocIfNeeded target
              (wrap (wrap (length target + length source) + 1)) ;;
  src <- read_bytes (contents source) (length source) ;;
  target <- copy_in target (length target) src ;;
  let target := set_length target (wrap (length target + length source)) in
  poke target (length target) NUL.

(** [heapStringAppendFormatV]: [rendered] is the text that [vsnprintf]
    produces from the format and its arguments, so that [appendLength] is
    its length; the second [vsnprintf] writes at most [capacity - length - 1]
    of these bytes and a NUL, and returns [appendLength] again, so that the
    second [assert] never fails. *)
Definition heapStringAppendFormatV (string : HeapString) (rendered : list ascii)
  : outcome HeapString :=
  let appendLength := len rendered in
  let requiredCapacity := wrap (wrap (length string + appendLength) + 1) in
  string <- heapStringReallocIfNeeded string requiredCapacity ;;
  if capacity string <? wrap (wrap (length string + appendLength) + 1) then Crash Abort
  else
    let room := wrap (capacity string - length string) in
    let written := firstn (Z.to_nat (room - 1)) rendered in
    string <- copy_in string (length string) (written ++ [NUL]) ;;
    let string := set_length string (wrap (length string + appendLength)) in
    poke string (length string) NUL.

Definition heapStringAppendFormat := heapStringAppendFormatV.

Definition heapStringFreeContents (string : HeapString) : outcome HeapString :=
  match contents string with
  | Some _ =>
      if capacity string <=? 0 then Crash Abort
      else Ok {| contents := None; length := 0; capacity := 0 |}
  | None =>
      if capacity string =? 0 then Ok string else Crash Abort
  end.

(** What every append is to establish: the capacity exceeds the length and
    [contents[length]] is a NUL inside the allocated block. *)
Definition terminated (string : HeapString) : Prop :=
  length string < capacity string /\
  exists a, contents string = Some a /\
            0 <= length string < len a /\
            capacity string <= len a /\
            load a (length string) = NUL.

(** The length and the capacity are [size_t] values, a block is behind the
    pointer exactly when the capacity is not 0, and it is at least as long
    as the capacity says. *)
Definition allocated_ok (string : HeapString) : Prop :=
  0 <= length string /\
  capacity string < 2 ^ 64 /\
  match contents string with
  | None => capacity string = 0
  | Some a => 0 < capacity string <= len a
  end.

(** The length is in the capacity of a string that has storage. *)
Definition fits (string : HeapString) : Prop :=
  allocated_ok string /\ length string <= capacity string.

(** The text in a string: the first [length] bytes of its block. *)
Definition text (string : HeapString) : list ascii :=
  match contents string with
  | Some a => firstn (Z.to_nat (length string)) a
  | None => []
  end.

(** A string right after [heapStringInit]. *)
Definition empty_string : HeapString :=
  heapStringInit {| contents := None; length := 0; capacity := 0 |}.

End HeapStr.

(** ** The request and its header string pool *)

Module PoolStr.

(** [contents] points into [headersStringPool]: it is the index of the
    first byte of the string in the pool. *)
Record PoolString := {
  contents : option Z;
  length : Z
}.

End PoolStr.

Module Parser.

Definition REQUEST_MAX_HEADERS : Z := 64.
Definition REQUEST_HEADERS_MAX_MEMORY : Z := 8 * 1024.
Definition REQUEST_MAX_BODY_LENGTH : Z := 128 * 1024 * 1024.

(** [sizeof('\0')]: a character constant of C has type [int]. *)
Definition sizeof_NUL_constant : Z := 4.

Inductive RequestParseState :=
| RequestParseStateMethod
| RequestParseStatePath
| RequestParseStateVersion
| RequestParseStateHeaderName
| RequestParseStateHeaderValue
| RequestParseStateCR
| RequestParseStateCRLF
| RequestParseStateCRLFCR
| RequestParseStateBody
| RequestParseStateDone.

Definition state_eqb (a b : RequestParseState) : bool :=
  match a, b with
  | RequestParseStateMethod, RequestParseStateMethod
  | RequestParseStatePath, RequestParseStatePath
  | RequestParseStateVersion, RequestParseStateVersion
  | RequestParseStateHeaderName, RequestParseStateHeaderName
  | RequestParseStateHeaderValue, RequestParseStateHeaderValue
  | RequestParseStateCR, RequestParseStateCR
  | RequestParseStateCRLF, RequestParseStateCRLF
  | RequestParseStateCRLFCR, RequestParseStateCRLFCR
  | RequestParseStateBody, RequestParseStateBody
  | RequestParseStateDone, RequestParseStateDone => true
  | _, _ => false
  end.

Record Header := {
  name : PoolStr.PoolString;
  value : PoolStr.PoolString
}.

Record Warnings := {
  headersStringPoolExhausted : bool;
  headersTooManyDropped : bool;
  methodTruncated : bool;
  versionTruncated : bool;
  pathTruncated : bool;
  bodyTruncated : bool
}.

Record Request := {
  method : list ascii;            (* char method[64] *)
  methodLength : Z;
  version : list ascii;           (* char version[16] *)
  versionLength : Z;
  path : list ascii;              (* char path[1024] *)
  pathLength : Z;
  pathDecoded : list ascii;       (* char pathDecoded[1024] *)
  pathDecodedLength : Z;
  body : HeapStr.HeapString;
  headers : list Header;          (* struct Header headers[REQUEST_MAX_HEADERS] *)
  headersCount : Z;
  headersStringPool : list ascii; (* char headersStringPool[REQUEST_HEADERS_MAX_MEMORY] *)
  headersStringPoolOffset : Z;
  warnings : Warnings;
  state : RequestParseState
}.

Definition zeroPoolString : PoolStr.PoolString :=
  {| PoolStr.contents := None; PoolStr.length := 0 |}.

Definition zeroHeader : Header :=
  {| name := zeroPoolString; value := zeroPoolString |}.

Definition zeroWarnings : Warnings :=
  {| headersStringPoolExhausted := false; headersTooManyDropped := false;
     methodTruncated := false; versionTruncated := false;
     pathTruncated := false; bodyTruncated := false |}.

(** The request of a fresh connection: [connectionAlloc] gets it from
    [calloc], all bytes 0. *)
Definition zeroRequest : Request :=
  {| method := zeros 64; methodLength := 0;
     version := zeros 16; versionLength := 0;
     path := zeros 1024; pathLength := 0;
     pathDecoded := zeros 1024; pathDecodedLength := 0;
     body := {| HeapStr.contents := None; HeapStr.length := 0; HeapStr.capacity := 0 |};
     headers := repeat zeroHeader (Z.to_nat REQUEST_MAX_HEADERS); headersCount := 0;
     headersStringPool := zeros REQUEST_HEADERS_MAX_MEMORY;
     headersStringPoolOffset := 0;
     warnings := zeroWarnings;
     state := RequestParseStateMethod |}.

(** *** Assignments to the fields *)

Definition set_state (r : Request) (s : RequestParseState) : Request :=
  {| method := method r; methodLength := methodLength r;
     version := version r; versionLength := versionLength r;
     path := path r; pathLength := pathLength r;
     pathDecoded := pathDecoded r; pathDecodedLength := pathDecodedLength r;
     body := body r; headers := headers r; headersCount := headersCount r;
     headersStringPool := headersStringPool r;
     headersStringPoolOffset := headersStringPoolOffset r;
     warnings := warnings r; state := s |}.

Definition set_method (r : Request) (a : list ascii) (n : Z) : Request :=
  {| method := a; methodLength := n;
     version := version r; versionLength := versionLength r;
     path := path r; pathLength := pathLength r;
     pathDecoded := pathDecoded r; pathDecodedLength := pathDecodedLength r;
     body := body r; headers := headers r; headersCount := headersCount r;
     headersStringPool := headersStringPool r;
     headersStringPoolOffset := headersStringPoolOffset r;
     warnings := warnings r; state := state r |}.

Definition set_version (r : Request) (a : list ascii) (n : Z) : Request :=
  {| method := method r; methodLength := methodLength r;
     version := a; versionLength := n;
     path := path r; pathLength := pathLength r;
     pathDecoded := pathDecoded r; pathDecodedLength := pathDecodedLength r;
     body := body r; headers := headers r; headersCount := headersCount r;
     headersStringPool := headersStringPool r;
     headersStringPoolOffset := headersStringPoolOffset r;
     warnings := warnings r; state := state r |}.

Definition set_path (r : Request) (a : list ascii) (n : Z) : Request :=
  {| method := method r; methodLength := methodLength r;
     version := version r; versionLength := versionLength r;
     path := a; pathLength := n;
     pathDecoded := pathDecoded r; pathDecodedLength := pathDecodedLength r;
     body := body r; headers := headers r; headersCount := headersCount r;
     headersStringPool := headersStringPool r;
     headersStringPoolOffset := headersStringPoolOffset r;
     warnings := warnings r; state := state r |}.

Definition set_pathDecoded (r : Request) (a : list ascii) : Request :=
  {| method := method r; methodLength := methodLength r;
     version := version r; versionLength := versionLength r;
     path := path r; pathLength := pathLength r;
     pathDecoded := a; pathDecodedLength := pathDecodedLength r;
     body := body r; headers := headers r; headersCount := headersCount r;
     headersStringPool := headersStringPool r;
     headersStringPoolOffset := headersStringPoolOffset r;
     warnings := warnings r; state := state r |}.

Definition set_body (r : Request) (b : HeapStr.HeapString) : Request :=
  {| method := method r; methodLength := methodLength r;
     version := version r; versionLength := versionLength r;
     path := path r; pathLength := pathLength r;
     pathDecoded := pathDecoded r; pathDecodedLength := pathDecodedLength r;
     body := b; headers := headers r; headersCount := headersCount r;
     headersStringPool := headersStringPool r;
     headersStringPoolOffset := headersStringPoolOffset r;
     warnings := warnings r; state := state r |}.

Definition set_headers (r : Request) (h : list Header) : Request :=
  {| method := method r; methodLength := methodLength r;
     version := version r; versionLength := versionLength r;
     path := path r; pathLength := pathLength r;
     pathDecoded := pathDecoded r; pathDecodedLength := pathDecodedLength r;
     body := body r; headers := h; headersCount := headersCount r;
     headersStringPool := headersStringPool r;
     headersStringPoolOffset := headersStringPoolOffset r;
     warnings := warnings r; state := state r |}.

Definition set_headersCount (r : Request) (n : Z) : Request :=
  {| method := method r; methodLength := methodLength r;
     version := version r; versionLength := versionLength r;
     path := path r; pathLength := pathLength r;
     pathDecoded := pathDecoded r; pathDecodedLength := pathDecodedLength r;
     body := body r; headers := headers r; headersCount := n;
     headersStringPool := headersStringPool r;
     headersStringPoolOffset := headersStringPoolOffset r;
     warnings := warnings r; state := state r |}.

Definition set_headersStringPool (r : Request) (a : list ascii) : Request :=
  {| method := method r; methodLength := methodLength r;
     version := version r; versionLength := versionLength r;
     path := path r; pathLength := pathLength r;
     pathDecoded := pathDecoded r; pathDecodedLength := pathDecodedLength r;
     body := body r; headers := headers r; headersCount := headersCount r;
     headersStringPool := a;
     headersStringPoolOffset := headersStringPoolOffset r;
     warnings := warnings r; state := state r |}.

Definition set_headersStringPoolOffset (r : Request) (n : Z) : Request :=
  {| method := method r; methodLength := methodLength r;
     version := version r; versionLength := versionLength r;
     path := path r; pathLength := pathLength r;
     pathDecoded := pathDecoded r; pathDecodedLength := pathDecodedLength r;
     body := body r; headers := headers r; headersCount := headersCount r;
     headersStringPool := headersStringPool r;
     headersStringPoolOffset := n;
     warnings := warnings r; state := state r |}.

Definition set_warnings (r : Request) (w : Warnings) : Request :=
  {| method := method r; methodLength := methodLength r;
     version := version r; versionLength := versionLength r;
     path := path r; pathLength := pathLength r;
     pathDecoded := pathDecoded r; pathDecodedLength := pathDecodedLength r;
     body := body r; headers := headers r; headersCount := headersCount r;
     headersStringPool := headersStringPool r;
     headersStringPoolOffset := headersStringPoolOffset r;
     warnings := w; state := state r |}.

Definition warn_headersStringPoolExhausted (r : Request) : Request :=
  let w := warnings r in
  set_warnings r
    {| headersStringPoolExhausted := true;
       headersTooManyDropped := headersTooManyDropped w;
       methodTruncated := methodTruncated w; versionTruncated := versionTruncated w;
       pathTruncated := pathTruncated w; bodyTruncated := bodyTruncated w |}.

Definition warn_headersTooManyDropped (r : Request) : Request :=
  let w := warnings r in
  set_warnings r
    {| headersStringPoolExhausted := headersStringPoolExhausted w;
       headersTooManyDropped := true;
       methodTruncated := methodTruncated w; versionTruncated := versionTruncated w;
       pathTruncated := pathTruncated w; bodyTruncated := bodyTruncated w |}.

Definition warn_methodTruncated (r : Request) : Request :=
  let w := warnings r in
  set_warnings r
    {| headersStringPoolExhausted := headersStringPoolExhausted w;
       headersTooManyDropped := headersTooManyDropped w;
       methodTruncated := true; versionTruncated := versionTruncated w;
       pathTruncated := pathTruncated w; bodyTruncated := bodyTruncated w |}.

Definition warn_versionTruncated (r : Request) : Request :=
  let w := warnings r in
  set_warnings r
    {| headersStringPoolExhausted := headersStringPoolExhausted w;
       headersTooManyDropped := headersTooManyDropped w;
       methodTruncated := methodTruncated w; versionTruncated := true;
       pathTruncated := pathTruncated w; bodyTruncated := bodyTruncated w |}.

Definition warn_pathTruncated (r : Request) : Request :=
  let w := warnings r in
  set_warnings r
    {| headersStringPoolExhausted := headersStringPoolExhausted w;
       headersTooManyDropped := headersTooManyDropped w;
       methodTruncated := methodTruncated w; versionTruncated := versionTruncated w;
       pathTruncated := true; bodyTruncated := bodyTruncated w |}.

Definition warn_bodyTruncated (r : Request) : Request :=
  let w := warnings r in
  set_warnings r
    {| headersStringPoolExhausted := headersStringPoolExhausted w;
       headersTooManyDropped := headersTooManyDropped w;
       methodTruncated := methodTruncated w; versionTruncated := versionTruncated w;
       pathTruncated := pathTruncated w; bodyTruncated := true |}.

(** *** The C library *)

Definition isspace (c : ascii) : bool :=
  let n := ord c in (n =? 32) || ((9 <=? n) && (n <=? 13)).

Definition isdigit (c : ascii) : bool :=
  let n := ord c in (48 <=? n) && (n <=? 57).

Definition tolower (c : ascii) : ascii :=
  let n := ord c in
  if (65 <=? n) && (n <=? 90) then ascii_of_N (Z.to_N (n + 32)) else c.

(** The value of a hexadecimal digit. *)
Definition xdigit (c : ascii) : option Z :=
  let n := ord c in
  if (48 <=? n) && (n <=? 57) then Some (n - 48)
  else if (97 <=? n) && (n <=? 102) then Some (n - 87)
  else if (65 <=? n) && (n <=? 70) then Some (n - 55)
  else None.

Fixpoint strcasecmp_loop (a b : list ascii) : Z :=
  match a, b with
  | [], [] => 0
  | [], d :: _ => 0 - ord (tolower d)
  | c :: _, [] => ord (tolower c)
  | c :: a', d :: b' =>
      if Ascii.eqb (tolower c) (tolower d) then strcasecmp_loop a' b'
      else ord (tolower c) - ord (tolower d)
  end.

Definition strcasecmp (a b : list ascii) : Z :=
  strcasecmp_loop (cstring a) (cstring b).

Fixpoint skip_spaces (s : list ascii) : list ascii :=
  match s with
  | c :: rest => if isspace c then skip_spaces rest else s
  | [] => []
  end.

(** The decimal digits at the head of [s], read into the accumulator. *)
Fixpoint digits (s : list ascii) (acc : Z) : Z :=
  match s with
  | c :: rest => if isdigit c then digits rest (10 * acc + (ord c - 48)) else acc
  | [] => acc
  end.

Definition LONG_MAX : Z := 2 ^ 63 - 1.
Definition LONG_MIN : Z := - 2 ^ 63.

(** [1 == sscanf(s, "%ld", &n)]: white space is skipped, a sign is
    optional, at least one digit is needed, what follows the digits is not
    looked at, and a number that does not fit a [long] is read as the
    nearest one that does. *)
Definition sscanf_ld (s : list ascii) : option Z :=
  let number (negative : bool) (ds : list ascii) : option Z :=
    match ds with
    | d :: _ =>
        if isdigit d then
          let n := digits ds 0 in
          Some (Z.max LONG_MIN (Z.min LONG_MAX (if negative then - n else n)))
        else None
    | [] => None
    end in
  match skip_spaces (cstring s) with
  | c :: rest =>
      if Ascii.eqb c "-" then number true rest
      else if Ascii.eqb c "+" then number false rest
      else number false (c :: rest)
  | [] => None
  end.

(** [1 == sscanf(hexString, "%02x", &n)] for the three byte string
    [{first, second, 0}]: at most two characters after the white space are
    used; they are an optional sign and hexadecimal digits.  A lone [0x]
    reads as 0. *)
Definition sscanf_02x (first second : ascii) : option Z :=
  if Ascii.eqb first NUL then None
  else if isspace first then
    (if Ascii.eqb second NUL then None else xdigit second)
  else if Ascii.eqb first "-" then option_map Z.opp (xdigit second)
  else if Ascii.eqb first "+" then xdigit second
  else
    match xdigit first with
    | Some a =>
        match xdigit second with
        | Some b => Some (16 * a + b)
        | None => Some a
        end
    | None => None
    end.

(** [(char) n] for an [int]. *)
Definition char_of_int (n : Z) : ascii := ascii_of_N (Z.to_N (n mod 256)).

(** *** URLDecode *)

Inductive URLDecodeType := URLDecodeTypeWholeURL | URLDecodeTypeParameter.

Inductive URLDecodeState :=
| URLDecodeStateNormal
| URLDecodeStatePercentFirstDigit
| URLDecodeStatePercentSecondDigit.

Definition is_parameter (t : URLDecodeType) : bool :=
  match t with URLDecodeTypeParameter => true | URLDecodeTypeWholeURL => false end.

(** The [while (1)] loop; it ends at the latest with the text to decode. *)
Fixpoint URLDecode_loop (encoded decoded : list ascii) (decodedCapacity : Z)
    (type : URLDecodeType) (deci : Z) (state : URLDecodeState) (firstDigit : ascii)
  : outcome (list ascii) :=
  let finish := from_option FieldOutOfBounds (store decoded deci NUL) in
  match encoded with
  | [] => finish
  | c :: rest =>
      if wrap (decodedCapacity - 1) <=? deci then finish
      else if Ascii.eqb c NUL then finish
      else if Ascii.eqb c "&" && is_parameter type then finish
      else
        match state with
        | URLDecodeStateNormal =>
            if Ascii.eqb c "%" then
              URLDecode_loop rest decoded decodedCapacity type deci
                URLDecodeStatePercentFirstDigit firstDigit
            else
              decoded <- from_option FieldOutOfBounds
                           (store decoded deci (if Ascii.eqb c "+" then " "%char else c)) ;;
              URLDecode_loop rest decoded decodedCapacity type (deci + 1)
                URLDecodeStateNormal firstDigit
        | URLDecodeStatePercentFirstDigit =>
            URLDecode_loop rest decoded decodedCapacity type deci
              URLDecodeStatePercentSecondDigit c
        | URLDecodeStatePercentSecondDigit =>
            match sscanf_02x firstDigit c with
            | Some decodedEscape =>
                decoded <- from_option FieldOutOfBounds
                             (store decoded deci (char_of_int decodedEscape)) ;;
                URLDecode_loop rest decoded decodedCapacity type (deci + 1)
                  URLDecodeStateNormal firstDigit
            | None =>
                URLDecode_loop rest decoded decodedCapacity type deci
                  URLDecodeStateNormal firstDigit
            end
        end
  end.

Definition URLDecode (encoded decoded : list ascii) (decodedCapacity : Z)
    (type : URLDecodeType) : outcome (list ascii) :=
  URLDecode_loop encoded decoded decodedCapacity type 0 URLDecodeStateNormal NUL.

(** *** The header string pool *)

Definition poolStringStartNewString (poolString : PoolStr.PoolString) (request : Request)
  : PoolStr.PoolString * Request :=
  if headersStringPoolOffset request =? 0 then
    ({| PoolStr.contents := Some 0; PoolStr.length := 0 |}, request)
  else if REQUEST_HEADERS_MAX_MEMORY - 1 <=? headersStringPoolOffset request then
    ({| PoolStr.contents := None; PoolStr.length := 0 |},
     warn_headersStringPoolExhausted request)
  else
    let offset := wrap (headersStringPoolOffset request + 1) in
    ({| PoolStr.contents := Some offset; PoolStr.length := 0 |},
     set_headersStringPoolOffset request offset).

Definition poolStringAppendChar (request : Request) (string : PoolStr.PoolString)
    (c : ascii) : outcome (Request * PoolStr.PoolString) :=
  if REQUEST_HEADERS_MAX_MEMORY - 1 - sizeof_NUL_constant
       <=? headersStringPoolOffset request
  then Ok (warn_headersStringPoolExhausted request, string)
  else
    match PoolStr.contents string with
    | None => Crash PoolNull
    | Some p =>
        pool <- from_option PoolOutOfBounds
                  (store (headersStringPool request) (p + PoolStr.length string) c) ;;
        Ok (set_headersStringPoolOffset (set_headersStringPool request pool)
              (wrap (headersStringPoolOffset request + 1)),
            {| PoolStr.contents := PoolStr.contents string;
               PoolStr.length := wrap (PoolStr.length string + 1) |})
    end.

(** *** headerInRequest *)

(** [request->headers[i]]. *)
Definition header_at (request : Request) (i : Z) : Header :=
  nth (Z.to_nat i) (headers request) zeroHeader.

(** The C string behind a pointer into the pool. *)
Definition pool_string (request : Request) (p : Z) : list ascii :=
  cstring (skipn (Z.to_nat p) (headersStringPool request)).

(** The [for] loop, with [todo] turns left and the index at [i]. *)
Fixpoint headerInRequest_loop (todo : nat) (i : Z) (headerName : list ascii)
    (request : Request) : outcome (option Header) :=
  match todo with
  | O => Ok None
  | S todo' =>
      match PoolStr.contents (name (header_at request i)) with
      | None => Crash HeaderNameNull
      | Some p =>
          if strcasecmp (pool_string request p) headerName =? 0
          then Ok (Some (header_at request i))
          else headerInRequest_loop todo' (i + 1) headerName request
      end
  end.

Definition headerInRequest (headerName : list ascii) (request : Request)
  : outcome (option Header) :=
  headerInRequest_loop (Z.to_nat (headersCount request)) 0 headerName request.

(** Does the header [j] have a name, and is it the name looked for? *)
Definition name_matches (request : Request) (headerName : list ascii) (j : Z)
  : option bool :=
  option_map (fun p => strcasecmp (pool_string request p) headerName =? 0)
    (PoolStr.contents (name (header_at request j))).

(** *** requestParse *)

(** [request->headers[i].name = string] and the same for [value]. *)
Definition set_header_name (request : Request) (i : Z) (string : PoolStr.PoolString)
  : outcome Request :=
  hs <- from_option HeadersOutOfBounds
          (store (headers request) i
             {| name := string; value := value (header_at request i) |}) ;;
  Ok (set_headers request hs).

Definition set_header_value (request : Request) (i : Z) (string : PoolStr.PoolString)
  : outcome Request :=
  hs <- from_option HeadersOutOfBounds
          (store (headers request) i
             {| name := name (header_at request i); value := string |}) ;;
  Ok (set_headers request hs).

(** The two statements that store a byte of a header name: the string is
    started in the pool when its pointer is still [NULL], and the byte is
    appended.  Both callees get a pointer to the string inside the request,
    so what they do to the string is stored back into the request. *)
Definition store_name_char (request : Request) (c : ascii) : outcome Request :=
  let n := headersCount request in
  request <- match PoolStr.contents (name (header_at request n)) with
             | None =>
                 let '(string, request) :=
                   poolStringStartNewString (name (header_at request n)) request in
                 set_header_name request n string
             | Some _ => Ok request
             end ;;
  '(request, string) <- poolStringAppendChar request (name (header_at request n)) c ;;
  set_header_name request n string.

Definition store_value_char (request : Request) (c : ascii) : outcome Request :=
  let n := headersCount request in
  request <- match PoolStr.contents (value (header_at request n)) with
             | None =>
                 let '(string, request) :=
                   poolStringStartNewString (value (header_at request n)) request in
                 set_header_value request n string
             | Some _ => Ok request
             end ;;
  '(request, string) <- poolStringAppendChar request (value (header_at request n)) c ;;
  set_header_value request n string.

(** The end of the header block: the [case RequestParseStateCRLFCR] for a
    line feed. *)
Definition end_of_headers (request : Request) : outcome Request :=
  let request := set_state request RequestParseStateDone in
  contentLengthHeader <- headerInRequest (bytes "Content-Length") request ;;
  match contentLengthHeader with
  | Some h =>
      match PoolStr.contents (value h) with
      | None => Crash HeaderValueNull
      | Some p =>
          match sscanf_ld (pool_string request p) with
          | Some contentLength =>
              let contentLength :=
                if REQUEST_MAX_BODY_LENGTH <? contentLength
                then REQUEST_MAX_BODY_LENGTH else contentLength in
              let contentLength := if contentLength <? 0 then 0 else contentLength in
              let contents :=
                if 0 <? contentLength then Some (zeros (contentLength + 1))
                else HeapStr.contents (body request) in
              Ok (set_state
                    (set_body request
                       {| HeapStr.contents := contents;
                          HeapStr.length := 0;
                          HeapStr.capacity := contentLength |})
                    RequestParseStateBody)
          | None => Ok request
          end
      end
  | None => Ok request
  end.

(** One turn of the [for] loop: the [switch] on the state for the byte [c]
    at index [i].  The result is the request and the value of [i] at the
    end of the turn, before the [i++] of the loop. *)
Definition requestParse_turn (request : Request) (c : ascii) (i : Z)
  : outcome (Request * Z) :=
  match state request with
  | RequestParseStateMethod =>
      if Ascii.eqb c " " then Ok (set_state request RequestParseStatePath, i)
      else if methodLength request <? 64 - 1 then
        a <- from_option FieldOutOfBounds (store (method request) (methodLength request) c) ;;
        Ok (set_method request a (wrap (methodLength request + 1)), i)
      else Ok (warn_methodTruncated request, i)
  | RequestParseStatePath =>
      if Ascii.eqb c " " then
        decoded <- URLDecode (path request) (pathDecoded request) 1024
                     URLDecodeTypeWholeURL ;;
        Ok (set_state (set_pathDecoded request decoded) RequestParseStateVersion, i)
      else if pathLength request <? 1024 - 1 then
        a <- from_option FieldOutOfBounds (store (path request) (pathLength request) c) ;;
        Ok (set_path request a (wrap (pathLength request + 1)), i)
      else Ok (warn_pathTruncated request, i)
  | RequestParseStateVersion =>
      if Ascii.eqb c CR then Ok (set_state request RequestParseStateCR, i)
      else if versionLength request <? 16 - 1 then
        a <- from_option FieldOutOfBounds (store (version request) (versionLength request) c) ;;
        Ok (set_version request a (wrap (versionLength request + 1)), i)
      else Ok (warn_versionTruncated request, i)
  | RequestParseStateHeaderName =>
      if Ascii.eqb c ":" then Ok (set_state request RequestParseStateHeaderValue, i)
      else if Ascii.eqb c CR then Ok (set_state request RequestParseStateCR, i)
      else if headersCount request <? REQUEST_MAX_HEADERS then
        request <- store_name_char request c ;;
        Ok (request, i)
      else Ok (warn_headersTooManyDropped request, i)
  | RequestParseStateHeaderValue =>
      if Ascii.eqb c " "
         && (headersCount request <? REQUEST_MAX_HEADERS)
         && (PoolStr.length (value (header_at request (headersCount request))) =? 0)
      then Ok (request, i)
      else if Ascii.eqb c CR then
        let request :=
          if (headersCount request <? REQUEST_MAX_HEADERS)
             && (0 <? PoolStr.length (value (header_at request (headersCount request))))
          then set_headersCount request (wrap (headersCount request + 1))
          else request in
        Ok (set_state request RequestParseStateCR, i)
      else if headersCount request <? REQUEST_MAX_HEADERS then
        request <- store_value_char request c ;;
        Ok (request, i)
      else Ok (request, i)
  | RequestParseStateCR =>
      if Ascii.eqb c LF then Ok (set_state request RequestParseStateCRLF, i)
      else Ok (set_state request RequestParseStateHeaderName, i)
  | RequestParseStateCRLF =>
      if Ascii.eqb c CR then Ok (set_state request RequestParseStateCRLFCR, i)
      else Ok (set_state request RequestParseStateHeaderName, wrap (i - 1))
  | RequestParseStateCRLFCR =>
      if Ascii.eqb c LF then
        request <- end_of_headers request ;;
        Ok (request, i)
      else Ok (set_state request RequestParseStateHeaderName, i)
  | RequestParseStateBody =>
      match HeapStr.contents (body request) with
      | None => Crash BodyNull
      | Some a =>
          a <- from_option BodyOutOfBounds (store a (HeapStr.length (body request)) c) ;;
          let b := {| HeapStr.contents := Some a;
                      HeapStr.length := wrap (HeapStr.length (body request) + 1);
                      HeapStr.capacity := HeapStr.capacity (body request) |} in
          let request := set_body request b in
          Ok (if HeapStr.length b =? HeapStr.capacity b
              then set_state request RequestParseStateDone else request, i)
      end
  | RequestParseStateDone =>
      match HeapStr.contents (body request) with
      | Some _ => Ok (warn_bodyTruncated request, i)
      | None => Ok (request, i)
      end
  end.

(** [for (size_t i = 0; i < requestFragmentLength; i++)], entered with the
    index at [i].  [None] is for a loop that is still running when the fuel
    is used up. *)
Fixpoint requestParse_loop (fuel : nat) (request : Request)
    (requestFragment : list ascii) (requestFragmentLength : Z) (i : Z)
  : option (outcome Request) :=
  match fuel with
  | O => None
  | S fuel' =>
      if i <? requestFragmentLength then
        match requestParse_turn request (load requestFragment i) i with
        | Ok (request, i) =>
            requestParse_loop fuel' request requestFragment requestFragmentLength
              (wrap (i + 1))
        | Crash f => Some (Crash f)
        end
      else Some (Ok request)
  end.

(** A turn that steps back is followed by a turn in the state
    [RequestParseStateHeaderName], which does not step back: two turns for
    each byte and one for leaving the loop are enough. *)
Definition requestParse (request : Request) (requestFragment : list ascii)
  : option (outcome Request) :=
  requestParse_loop (2 * List.length requestFragment + 1) request requestFragment
    (len requestFragment) 0.

(** The connection thread calls [requestParse] once for each chunk that
    [recv] delivers, on the request that the previous call left behind. *)
Fixpoint requestParse_chunks (request : Request) (chunks : list (list ascii))
  : option (outcome Request) :=
  match chunks with
  | [] => Some (Ok request)
  | chunk :: rest =>
      match requestParse request chunk with
      | Some (Ok request) => requestParse_chunks request rest
      | other => other
      end
  end.

(** What the loop does with one byte: a turn, and a second turn on the same
    byte when the first one has stepped back. *)
Definition requestParse_byte (request : Request) (c : ascii) : outcome Request :=
  '(request, i) <- requestParse_turn request c 0 ;;
  if i =? 0 then Ok request
  else '(request, _) <- requestParse_turn request c 0 ;; Ok request.

Fixpoint requestParse_bytes (request : Request) (fragment : list ascii)
  : outcome Request :=
  match fragment with
  | [] => Ok request
  | c :: rest =>
      request <- requestParse_byte request c ;;
      requestParse_bytes request rest
  end.

(** [r'] is [r] in every field, except that the warning [bodyTruncated]
    may have been raised. *)
Definition same_but_bodyTruncated (r r' : Request) : Prop :=
  method r' = method r /\ methodLength r' = methodLength r /\
  version r' = version r /\ versionLength r' = versionLength r /\
  path r' = path r /\ pathLength r' = pathLength r /\
  pathDecoded r' = pathDecoded r /\ pathDecodedLength r' = pathDecodedLength r /\
  body r' = body r /\
  headers r' = headers r /\ headersCount r' = headersCount r /\
  headersStringPool r' = headersStringPool r /\
  headersStringPoolOffset r' = headersStringPoolOffset r /\
  state r' = state r /\
  headersStringPoolExhausted (warnings r') = headersStringPoolExhausted (warnings r) /\
  headersTooManyDropped (warnings r') = headersTooManyDropped (warnings r) /\
  methodTruncated (warnings r') = methodTruncated (warnings r) /\
  versionTruncated (warnings r') = versionTruncated (warnings r) /\
  pathTruncated (warnings r') = pathTruncated (warnings r) /\
  (bodyTruncated (warnings r') = bodyTruncated (warnings r) \/
   bodyTruncated (warnings r') = true).

(** A request cut into the chunks of the socket reads. *)
Definition sample_chunks : list (list ascii) :=
  [bytes "POST /a%20b HT"; bytes "TP/1.0"; [CR]; [LF; "H"%char]; bytes "ost: x";
   [CR; LF]; bytes "content-length: 5"; [CR; LF; CR]; [LF]; bytes "hel"; bytes "lo"].

(** The request that [requestParse] leaves when it is run on the request of
    a fresh connection. *)
Definition parsed (fragment : list ascii) : Request :=
  match requestParse_bytes zeroRequest fragment with
  | Ok request => request
  | Crash _ => zeroRequest
  end.

(** A request that announces an empty body, up to the last line feed. *)
Definition sample_content_length_0 : list ascii :=
  bytes "GET / HTTP/1.0" ++ [CR; LF] ++ bytes "Content-Length: 0" ++ [CR; LF; CR].

Definition sample_content_length_5 : list ascii :=
  bytes "PUT /f HTTP/1.0" ++ [CR; LF] ++ bytes "content-LENGTH: 5" ++ [CR; LF; CR].

Definition sample_no_headers : list ascii :=
  bytes "GET /index.html HTTP/1.0" ++ [CR; LF; CR; LF].

(** *** What holds of every request on the way

    The guard of [poolStringAppendChar] is passed only below this offset. *)
Definition append_limit : Z := REQUEST_HEADERS_MAX_MEMORY - 1 - sizeof_NUL_constant.

Definition zeroBody : HeapStr.HeapString :=
  {| HeapStr.contents := None; HeapStr.length := 0; HeapStr.capacity := 0 |}.

(** The string that is being written is the last one of the pool: its end
    is the pool offset.  A value has been started only while the state is
    [RequestParseStateHeaderValue], and has at least one byte. *)
Definition cursor_ok (request : Request) : Prop :=
  let h := header_at request (headersCount request) in
  match PoolStr.contents (value h) with
  | Some q =>
      state request = RequestParseStateHeaderValue /\
      0 <= q /\ 0 < PoolStr.length (value h) /\
      q + PoolStr.length (value h) = headersStringPoolOffset request
  | None =>
      match PoolStr.contents (name h) with
      | Some p =>
          0 <= p /\ 0 <= PoolStr.length (name h) /\
          p + PoolStr.length (name h) = headersStringPoolOffset request
      | None => True
      end
  end.

Record invariant (request : Request) : Prop := {
  inv_headers : len (headers request) = REQUEST_MAX_HEADERS;
  inv_pool : len (headersStringPool request) = REQUEST_HEADERS_MAX_MEMORY;
  inv_count : 0 <= headersCount request <= REQUEST_MAX_HEADERS;
  inv_offset : 0 <= headersStringPoolOffset request <= REQUEST_HEADERS_MAX_MEMORY - 1;
  inv_fresh : forall j, headersCount request < j < REQUEST_MAX_HEADERS ->
                        header_at request j = zeroHeader;
  inv_cursor : headersCount request < REQUEST_MAX_HEADERS ->
               headersStringPoolOffset request < append_limit ->
               cursor_ok request;
  inv_body : state request <> RequestParseStateBody ->
             state request <> RequestParseStateDone ->
             body request = zeroBody
}.

(** The faults of a store into the header string pool. *)
Definition pool_fault (f : fault) : bool :=
  match f with
  | PoolNull | PoolOutOfBounds => true
  | _ => false
  end.

(** Header blocks in which a content length of 0 is not the first
    content length, or comes after a header line without a name; up to the
    last line feed. *)
Definition sample_length_5_then_0 : list ascii :=
  bytes "PUT /f HTTP/1.0" ++ [CR; LF] ++ bytes "Content-Length: 5" ++ [CR; LF]
  ++ bytes "Content-Length: 0" ++ [CR; LF; CR].

Definition sample_length_x_then_0 : list ascii :=
  bytes "PUT /f HTTP/1.0" ++ [CR; LF] ++ bytes "Content-Length: x" ++ [CR; LF]
  ++ bytes "Content-Length: 0" ++ [CR; LF; CR].

Definition sample_no_name_then_0 : list ascii :=
  bytes "PUT /f HTTP/1.0" ++ [CR; LF] ++ bytes ": v" ++ [CR; LF]
  ++ bytes "Content-Length: 0" ++ [CR; LF; CR].

(** A header line whose value comes after two spaces. *)
Definition sample_two_spaces : list ascii :=
  bytes "GET / HTTP/1.0" ++ [CR; LF] ++ bytes "A:  b" ++ [CR; LF; CR; LF].

(** A request with a body of five bytes. *)
Definition sample_body_5 : list ascii :=
  bytes "POST /a%20b HTTP/1.0" ++ [CR; LF] ++ bytes "Host: x" ++ [CR; LF]
  ++ bytes "content-length: 5" ++ [CR; LF; CR; LF] ++ bytes "hello".

(** A header name that is longer than the pool. *)
Definition sample_long_name : list ascii :=
  bytes "GET / HTTP/1.0" ++ [CR; LF] ++ repeat "a"%char (Z.to_nat 9000).

(** The header [i] as a pair of C strings. *)
Definition header_strings (request : Request) (i : Z)
  : option (list ascii) * option (list ascii) :=
  (option_map (pool_string request) (PoolStr.contents (name (header_at request i))),
   option_map (pool_string request) (PoolStr.contents (value (header_at request i)))).

(** [r'] is [r] outside of the headers, the pool and the warnings. *)
Definition same_fields (r r' : Request) : Prop :=
  method r' = method r /\ methodLength r' = methodLength r /\
  version r' = version r /\ versionLength r' = versionLength r /\
  path r' = path r /\ pathLength r' = pathLength r /\
  pathDecoded r' = pathDecoded r /\
  body r' = body r /\ headersCount r' = headersCount r /\ state r' = state r.

(** A string that has bytes has storage. *)
Definition has_storage (string : PoolStr.PoolString) : Prop :=
  PoolStr.contents string = None -> PoolStr.length string = 0.

(** The bytes of a field from its length on are NUL. *)
Definition zero_from (field : list ascii) (n : Z) : Prop :=
  forall k, n <= k < len field -> load field k = NUL.

(** What the fields of the request keep to: the method, the version and
    the path are in their arrays, with NUL from their length on; the
    decoded path has its array; the headers that are counted have a
    value; and a body that is being read has storage for one byte more
    than its capacity, with its length below the capacity. *)
Record bounded (request : Request) : Prop := {
  b_method : len (method request) = 64 /\ 0 <= methodLength request <= 63 /\
             zero_from (method request) (methodLength request);
  b_version : len (version request) = 16 /\ 0 <= versionLength request <= 15 /\
              zero_from (version request) (versionLength request);
  b_path : len (path request) = 1024 /\ 0 <= pathLength request <= 1023 /\
           zero_from (path request) (pathLength request);
  b_pathDecoded : len (pathDecoded request) = 1024;
  b_values : forall j, 0 <= j < headersCount request ->
                       PoolStr.contents (value (header_at request j)) <> None;
  b_current : has_storage (value (header_at request (headersCount request)));
  b_body : state request = RequestParseStateBody ->
           forall a, HeapStr.contents (body request) = Some a ->
                     len a = HeapStr.capacity (body request) + 1 /\
                     0 <= HeapStr.length (body request) < HeapStr.capacity (body request) /\
                     HeapStr.capacity (body request) <= REQUEST_MAX_BODY_LENGTH
}.

(** A request with a content length of 0, and one byte after it. *)
Definition sample_null_body : list ascii := sample_content_length_0 ++ [LF; "x"%char].

(** A header line that starts with a colon: a value without a name. *)
Definition sample_no_name : list ascii :=
  bytes "GET / HTTP/1.0" ++ [CR; LF] ++ bytes ": v" ++ [CR; LF; CR; LF].

(** The array [a] after the bytes [bs] have been stored from the index [n]
    on, as long as the index was below [limit]. *)
Definition filled (a : list ascii) (n limit : Z) (bs : list ascii) : list ascii :=
  firstn (Z.to_nat n) a ++ firstn (Z.to_nat (limit - n)) bs
  ++ skipn (Z.to_nat (Z.min limit (n + len bs))) a.

(** The pool after the bytes [bs] have been stored from the index [offset]
    on. *)
Definition written (pool : list ascii) (offset : Z) (bs : list ascii) : list ascii :=
  firstn (Z.to_nat offset) pool ++ bs
  ++ skipn (List.length bs + Z.to_nat offset) pool.









End Parser.

(** ** Responses *)

Module Resp.

Record Response := {
  code : Z;
  body : HeapStr.HeapString;
  filenameToSend : option (list ascii);
  status : option (list ascii);
  contentType : option (list ascii)
}.

Record PathInformation := {
  exists_ : bool;
  isDirectory : bool
}.

Definition set_body (response : Response) (b : HeapStr.HeapString) : Response :=
  {| code := code response; body := b; filenameToSend := filenameToSend response;
     status := status response; contentType := contentType response |}.

Definition strdupIfNotNull (strToDup : option (list ascii)) : option (list ascii) :=
  option_map cstring strToDup.

(** [printf("%d", n)] and [printf("%ld", n)]. *)
Definition decimal (n : Z) : list ascii := bytes (NilZero.string_of_int (Z.to_int n)).

(** [printf("%x", n)] for a number below 16. *)
Definition hex_digit (n : Z) : ascii :=
  if n <? 10 then ascii_of_N (Z.to_N (48 + n)) else ascii_of_N (Z.to_N (87 + n)).

Definition responseAlloc (code : Z) (status contentType : option (list ascii))
    (bodyCapacity : Z) : Response :=
  {| code := code;
     body := {| HeapStr.contents :=
                  if 0 <? bodyCapacity then Some (zeros bodyCapacity) else None;
                HeapStr.length := 0;
                HeapStr.capacity := bodyCapacity |};
     filenameToSend := None;
     status := strdupIfNotNull status;
     contentType := strdupIfNotNull contentType |}.

(** The arguments [code] and [status] are not used by the body of the
    function, which passes 200 and OK to [responseAlloc]. *)
Definition responseAllocHTMLWithStatus (code : Z) (status : list ascii) (html : list ascii)
  : outcome Response :=
  let response :=
    responseAlloc 200 (Some (bytes "OK")) (Some (bytes "text/html; charset=UTF-8")) 0 in
  b <- HeapStr.heapStringSetToCString (body response) html ;;
  Ok (set_body response b).

Definition responseAllocHTML (html : list ascii) : outcome Response :=
  responseAllocHTMLWithStatus 200 (bytes "OK") html.

Definition responseAllocJSONWithStatus (code : Z) (status : list ascii) (json : list ascii)
  : outcome Response :=
  let response :=
    responseAlloc 200 (Some (bytes "OK")) (Some (bytes "application/json")) 0 in
  b <- HeapStr.heapStringSetToCString (body response) json ;;
  Ok (set_body response b).

Definition responseAllocJSON (json : list ascii) : outcome Response :=
  responseAllocJSONWithStatus 200 (bytes "OK") json.

(** [rendered] is the text of the format with its arguments. *)
Definition responseAllocWithFormat (code : Z) (status contentType : list ascii)
    (rendered : list ascii) : outcome Response :=
  let response := responseAlloc code (Some status) (Some contentType) 0 in
  b <- HeapStr.heapStringAppendFormatV (body response) rendered ;;
  Ok (set_body response b).

Definition responseAllocWithFile (filename : list ascii)
    (MIMETypeOrNULL : option (list ascii)) : Response :=
  let response := responseAlloc 200 (Some (bytes "OK")) MIMETypeOrNULL 0 in
  {| code := code response; body := body response;
     filenameToSend := Some (cstring filename);
     status := status response; contentType := contentType response |}.

Definition responseAlloc400BadRequestHTML (errorMessage : option (list ascii))
  : outcome Response :=
  let errorMessage :=
    match errorMessage with
    | Some m => m
    | None => bytes "An unspecified error occurred"
    end in
  responseAllocWithFormat 400 (bytes "Bad Request") (bytes "text/html; charset=UTF-8")
    (bytes "<html><head><title>400 - Bad Request</title></head><body>The request made was invalid. "
     ++ cstring errorMessage).

Definition responseAlloc404NotFoundHTML (resourcePathOrNull : option (list ascii))
  : outcome Response :=
  match resourcePathOrNull with
  | None =>
      responseAllocHTMLWithStatus 404 (bytes "Not Found")
        (bytes "<html><head><title>404 Not Found</title></head><body>The resource you specified could not be found</body></html>")
  | Some resource =>
      responseAllocWithFormat 404 (bytes "Not Found") (bytes "text/html; charset=UTF-8")
        (bytes "<html><head><title>404 Not Found</title></head><body>The resource you specified ('"
         ++ cstring resource
         ++ bytes "') could not be found</body></html>")
  end.

Definition responseAlloc500InternalErrorHTML (extraInformationOrNull : option (list ascii))
  : outcome Response :=
  match extraInformationOrNull with
  | None =>
      responseAllocHTMLWithStatus 500 (bytes "Internal Error")
        (bytes "<html><head><title>500 Internal Error</title></head><body>There was an internal error while completing your request</body></html>")
  | Some extra =>
      responseAllocWithFormat 500 (bytes "Internal Error") (bytes "text/html; charset=UTF-8")
        (bytes "<html><head><title>500 Internal Error</title></head><body>There was an internal error while completing your request. "
         ++ cstring extra ++ bytes "</body></html>")
  end.

(** [strEndsWith]: the [for] loop compares the last bytes of [big] with
    [endsWith], one by one. *)
Fixpoint same_bytes (a b : list ascii) : bool :=
  match a, b with
  | [], [] => true
  | c :: a', d :: b' => Ascii.eqb c d && same_bytes a' b'
  | _, _ => false
  end.

Definition strEndsWith (big endsWith : list ascii) : bool :=
  let bigLength := strlen big in
  let endsWithLength := strlen endsWith in
  if bigLength <? endsWithLength then false
  else same_bytes (skipn (Z.to_nat (bigLength - endsWithLength)) (cstring big))
                  (cstring endsWith).

(** [strdupEscapeForURL].  The test for a digit, [*p <= '0' && *p >= '9'],
    holds of no byte, so that digits are escaped like the rest. *)
Definition url_escape_step (escapedString : outcome HeapStr.HeapString) (c : ascii)
  : outcome HeapStr.HeapString :=
  escapedString <- escapedString ;;
  let n := ord c in
  let isULetter := (n <=? 90) && (65 <=? n) in
  let isLLetter := (n <=? 122) && (97 <=? n) in
  let isNumber := (n <=? 48) && (57 <=? n) in
  if isULetter || isLLetter || isNumber then
    HeapStr.heapStringAppendChar escapedString c
  else
    let firstDigit := Z.shiftr (Z.land n 240) 4 in
    let secondDigit := Z.land n 15 in
    HeapStr.heapStringAppendFormat escapedString
      ["%"%char; hex_digit firstDigit; hex_digit secondDigit].

Definition strdupEscapeForURL (stringToEscape : list ascii) : outcome (option (list ascii)) :=
  escapedString <- fold_left url_escape_step (cstring stringToEscape)
                     (Ok (HeapStr.heapStringInit
                            {| HeapStr.contents := None; HeapStr.length := 0;
                               HeapStr.capacity := 0 |})) ;;
  Ok (HeapStr.contents escapedString).

Section ServeFile.

(** The file system is outside of the program: [pathInformationGet] gives
    the result code and the information for a path, [directory] the names
    that [readdir] returns for a path, or [None] when [opendir] fails. *)
Variable pathInformationGet : list ascii -> Z * PathInformation.
Variable directory : list ascii -> option (list (list ascii)).
Variable OptionListDirectoryContents : bool.

(** The C string in a [HeapString] that has storage. *)
Definition c_str (string : HeapStr.HeapString) : outcome (list ascii) :=
  match HeapStr.contents string with
  | Some a => Ok (cstring a)
  | None => Crash HeapNull
  end.

(** One turn of the [while (NULL != (entry = readdir(dir)))] loop. *)
Definition list_entry (requestPath slashOrEmpty : list ascii)
    (response : outcome Response) (d_name : list ascii) : outcome Response :=
  response <- response ;;
  escaped <- strdupEscapeForURL d_name ;;
  escapedEntryName <- from_option FormatNull escaped ;;
  b <- HeapStr.heapStringAppendFormat (body response)
         (bytes "<a href=" ++ [DQUOTE] ++ cstring requestPath ++ slashOrEmpty
          ++ cstring escapedEntryName ++ [DQUOTE] ++ bytes ">" ++ cstring d_name
          ++ bytes "</a><br>" ++ [LF]) ;;
  Ok (set_body response b).

Definition responseAllocServeFileFromRequestPath
    (requestPath requestPathDecoded documentRoot : list ascii) : outcome Response :=
  if Path.pathEscapesDocumentRoot requestPathDecoded then
    responseAllocHTMLWithStatus 403 (bytes "Forbidden")
      (bytes "<html><head><title>Forbidden</title></head><body>You are not allowed to access this URL</body></html>")
  else
    let filePath := HeapStr.heapStringInit
                      {| HeapStr.contents := None; HeapStr.length := 0;
                         HeapStr.capacity := 0 |} in
    filePath <- HeapStr.heapStringSetToCString filePath documentRoot ;;
    filePath <- HeapStr.heapStringAppendString filePath requestPathDecoded ;;
    path <- c_str filePath ;;
    filePath <- (if strEndsWith path (bytes "/") then
                   let filePath :=
                     HeapStr.set_length filePath (wrap (HeapStr.length filePath - 1)) in
                   HeapStr.poke filePath (HeapStr.length filePath) NUL
                 else Ok filePath) ;;
    path <- c_str filePath ;;
    let '(result, pathInfo) := pathInformationGet path in
    if negb (result =? 0) then
      responseAlloc500InternalErrorHTML
        (Some (bytes "Information about the path could not be determined for your request"))
    else if negb (exists_ pathInfo) then
      responseAlloc404NotFoundHTML (Some path)
    else if isDirectory pathInfo then
      if negb OptionListDirectoryContents then
        responseAllocHTMLWithStatus 403 (bytes "Forbidden")
          (bytes "<html><head><title>403 - Forbidden</title></head><body>You are forbidden from accessing this URL.</body></html>")
      else
        let indexFilePath := HeapStr.heapStringInit
                               {| HeapStr.contents := None; HeapStr.length := 0;
                                  HeapStr.capacity := 0 |} in
        indexFilePath <- HeapStr.heapStringAppendHeapString indexFilePath filePath ;;
        indexFilePath <- HeapStr.heapStringAppendString indexFilePath (bytes "/index.html") ;;
        indexPath <- c_str indexFilePath ;;
        let '(result, indexFilePathInfo) := pathInformationGet indexPath in
        if negb (result =? 0) then
          responseAlloc500InternalErrorHTML
            (Some (bytes "Information about the path could not be determined for your request"))
        else if exists_ indexFilePathInfo && negb (isDirectory indexFilePathInfo) then
          Ok (responseAllocWithFile indexPath None)
        else
          match directory path with
          | None =>
              responseAlloc500InternalErrorHTML
                (Some (bytes "We could not open the directory for iterating"))
          | Some entries =>
              let addSlashInURL := negb (strEndsWith requestPath (bytes "/")) in
              let slashOrEmpty := if addSlashInURL then bytes "/" else [] in
              fold_left (list_entry requestPath slashOrEmpty) entries
                (responseAllocHTML
                   (bytes "<html><head><title>Directory Reading</title><body>"))
          end
    else Ok (responseAllocWithFile path None).

End ServeFile.

(** *** sendResponse *)

Definition RESPONSE_HEADER_SIZE : Z := 1024.

(** [(long) n] for a [size_t]. *)
Definition long_of_size_t (n : Z) : Z := if n <? 2 ^ 63 then n else n - 2 ^ 64.

(** The text of the [snprintf] in [sendResponseBody]. *)
Definition header_text (code : Z) (status contentType : list ascii) (length : Z)
  : list ascii :=
  bytes "HTTP/1.0 " ++ decimal code ++ bytes " " ++ cstring status ++ [CR; LF]
  ++ bytes "Content-Type: " ++ cstring contentType ++ [CR; LF]
  ++ bytes "Content-Length: " ++ decimal (long_of_size_t length) ++ [CR; LF]
  ++ bytes "Server: Embeddable Web Server/1.0.0" ++ [CR; LF]
  ++ [CR; LF].

(** [snprintf(buffer, size, ...)] for the text [rendered]: the buffer gets
    the text, cut to [size - 1] bytes, and a NUL; the value is the length of
    the whole text. *)
Definition snprintf (buffer : list ascii) (size : Z) (rendered : list ascii)
  : outcome (list ascii * Z) :=
  buffer <- from_option SendOutOfBounds
              (blit buffer 0 (firstn (Z.to_nat (size - 1)) rendered ++ [NUL])) ;;
  Ok (buffer, len rendered).

(** The first [n] bytes of a buffer, as [send] reads them. *)
Definition read_buffer (buffer : list ascii) (n : Z) : outcome (list ascii) :=
  if (0 <=? n) && (n <=? len buffer) then Ok (firstn (Z.to_nat n) buffer)
  else Crash SendOutOfBounds.

(** What has gone to the socket, the count of the bytes sent and the
    value of the call. *)
Record sent := {
  wire : list ascii;
  bytesSent : Z;
  result : Z
}.

(** [sendResponseBody].  The socket is outside of the program:
    [sendResult1] and [sendResult2] are the values of the two calls of
    [send]; a call that returns [k >= 0] has put the first [k] bytes of its
    buffer on the wire.  [responseHeader] is the buffer of the connection. *)
Definition sendResponseBody (responseHeader : list ascii) (response : Response)
    (bytesSent0 : Z) (sendResult1 sendResult2 : Z) : outcome sent :=
  status <- from_option FormatNull (status response) ;;
  contentType <- from_option FormatNull (contentType response) ;;
  '(responseHeader, headerLength) <-
     snprintf responseHeader RESPONSE_HEADER_SIZE
       (header_text (code response) status contentType (HeapStr.length (body response))) ;;
  header <- read_buffer responseHeader headerLength ;;
  let wire1 := firstn (Z.to_nat sendResult1) header in
  if negb (sendResult1 =? headerLength) then
    Ok {| wire := wire1; bytesSent := bytesSent0; result := -1 |}
  else
    let bytesSent1 := bytesSent0 + sendResult1 in
    if 0 <? HeapStr.length (body response) then
      data <- HeapStr.read_bytes (HeapStr.contents (body response))
                (HeapStr.length (body response)) ;;
      let wire2 := wire1 ++ firstn (Z.to_nat sendResult2) data in
      if negb (sendResult2 =? HeapStr.length (body response)) then
        Ok {| wire := wire2; bytesSent := bytesSent1; result := -1 |}
      else
        Ok {| wire := wire2; bytesSent := bytesSent1 + sendResult2; result := 0 |}
    else Ok {| wire := wire1; bytesSent := bytesSent1; result := 0 |}.

(** The header block as the specification words it: the status line, the
    content type, the content length and the empty line. *)
Definition header_of_the_specification (response : Response) : list ascii :=
  bytes "HTTP/1.0 " ++ decimal (code response) ++ bytes " "
  ++ match status response with Some s => s | None => [] end ++ [CR; LF]
  ++ bytes "Content-Type: "
  ++ match contentType response with Some t => t | None => [] end ++ [CR; LF]
  ++ bytes "Content-Length: " ++ decimal (HeapStr.length (body response)) ++ [CR; LF]
  ++ [CR; LF].

(** A response with a body of two bytes. *)
Definition sample_response : Response :=
  {| code := 200;
     body := {| HeapStr.contents := Some (bytes "hi" ++ [NUL]);
                HeapStr.length := 2; HeapStr.capacity := 3 |};
     filenameToSend := None;
     status := Some (bytes "OK");
     contentType := Some (bytes "text/plain") |}.

(** A file system without any file. *)
Definition no_file (path : list ascii) : Z * PathInformation :=
  (0, {| exists_ := false; isDirectory := false |}).

Definition no_directory (path : list ascii) : option (list (list ascii)) := None.

(** What [strdupEscapeForURL] appends for one byte. *)
Definition escaped_byte (c : ascii) : list ascii :=
  let n := ord c in
  if ((n <=? 90) && (65 <=? n)) || ((n <=? 122) && (97 <=? n)) || ((n <=? 48) && (57 <=? n))
  then [c]
  else ["%"%char; hex_digit (Z.shiftr (Z.land n 240) 4); hex_digit (Z.land n 15)].

(** [strdupEscapeForHTML]: one turn of the [for] loop, the [switch] on the
    byte.  The formats have no conversion, they are appended as they are. *)
Definition html_escape_step (escapedString : outcome HeapStr.HeapString) (c : ascii)
  : outcome HeapStr.HeapString :=
  escapedString <- escapedString ;;
  if Ascii.eqb c DQUOTE then HeapStr.heapStringAppendFormat escapedString (bytes "&quot;")
  else if Ascii.eqb c "&" then HeapStr.heapStringAppendFormat escapedString (bytes "&amp;")
  else if Ascii.eqb c "'" then HeapStr.heapStringAppendFormat escapedString (bytes "&#039;")
  else if Ascii.eqb c "<" then HeapStr.heapStringAppendFormat escapedString (bytes "&lt;")
  else if Ascii.eqb c ">" then HeapStr.heapStringAppendFormat escapedString (bytes "&gt;")
  else if Ascii.eqb c " " then HeapStr.heapStringAppendFormat escapedString (bytes "&nbsp;")
  else HeapStr.heapStringAppendChar escapedString c.

(** The empty string is answered from [malloc(1)], before the loop. *)
Definition strdupEscapeForHTML (stringToEscape : list ascii)
  : outcome (option (list ascii)) :=
  let escapedString := HeapStr.heapStringInit
                         {| HeapStr.contents := None; HeapStr.length := 0;
                            HeapStr.capacity := 0 |} in
  let stringToEscapeLength := strlen stringToEscape in
  if 0 =? stringToEscapeLength then Ok (Some [NUL])
  else
    escapedString <- fold_left html_escape_step (cstring stringToEscape)
                       (Ok escapedString) ;;
    Ok (HeapStr.contents escapedString).

(** What [strdupEscapeForHTML] appends for one byte. *)
Definition html_entity (c : ascii) : list ascii :=
  if Ascii.eqb c DQUOTE then bytes "&quot;"
  else if Ascii.eqb c "&" then bytes "&amp;"
  else if Ascii.eqb c "'" then bytes "&#039;"
  else if Ascii.eqb c "<" then bytes "&lt;"
  else if Ascii.eqb c ">" then bytes "&gt;"
  else if Ascii.eqb c " " then bytes "&nbsp;"
  else [c].

(** The bytes that end or start a tag or an attribute value, and the
    space. *)
Definition html_special (c : ascii) : bool :=
  Ascii.eqb c DQUOTE || Ascii.eqb c "'" || Ascii.eqb c "<" || Ascii.eqb c ">"
  || Ascii.eqb c " ".

End Resp.

(** * Properties *)

(** ** pathEscapesDocumentRoot *)

(** The unit tests of [testPathEscapesRoot] pass on the embedding. *)
Example testPathEscapesRoot :
  map (fun p => Path.pathEscapesDocumentRoot (bytes p))
    ["../"; "/.."; "/../"; "/..//"; "/..///"; "./.."; "./../"; "./..//";
     "./..///"; "./././../"; "dir1/dir2/../../../"]
  = repeat true 11
  /\
  map (fun p => Path.pathEscapesDocumentRoot (bytes p))
    ["dir1"; "dir1/dir2"; "dir1/dir2/."; "dir1/dir2/../."; "dir1/dir2/.././";
     "dir1/dir2/../.././"; "dir1/dir2/../../."]
  = repeat false 7.
Proof. split; reflexivity. Qed.

(** The function answers by the depth at the end of the path only. *)
Lemma pathEscapesDocumentRoot_final_depth (path : list ascii) :
  Path.pathEscapesDocumentRoot path = true <->
  Path.subdirDepth (Path.scan path Path.initial) < 0.
Proof. unfold Path.pathEscapesDocumentRoot. apply Z.ltb_lt. Qed.

(** C1. On the path [../a] the depth counter of the specification goes
    negative (it is -1 after the first segment) and yet
    [pathEscapesDocumentRoot] returns false: the function looks at the
    depth only once, after the whole path has been scanned. *)
Theorem C1_dip_not_detected :
  Path.depth_goes_negative (bytes "../a") = true /\
  Path.subdirDepth (Path.scan (bytes "..") Path.initial) = -1 /\
  Path.pathEscapesDocumentRoot (bytes "../a") = false.
Proof. repeat split; reflexivity. Qed.

(** ** Arrays *)

Lemma len_nonneg {A} (a : list A) : 0 <= len a.
Proof. unfold len. lia. Qed.

Lemma len_app {A} (a b : list A) : len (a ++ b) = len a + len b.
Proof. unfold len. rewrite length_app. lia. Qed.

Lemma len_repeat {A} (x : A) (n : nat) : len (repeat x n) = Z.of_nat n.
Proof. unfold len. now rewrite repeat_length. Qed.

Lemma len_firstn {A} (a : list A) (n : nat) :
  len (firstn n a) = Z.min (Z.of_nat n) (len a).
Proof. unfold len. rewrite length_firstn. lia. Qed.

Lemma store_Some {A} (a : list A) (i : Z) (x : A) :
  0 <= i < len a ->
  exists a', store a i x = Some a' /\ len a' = len a /\
             nth (Z.to_nat i) a' x = x /\
             forall d, nth (Z.to_nat i) a' d = x.
Proof.
  intros Hi. unfold store.
  replace ((0 <=? i) && (i <? len a)) with true
    by (symmetry; apply andb_true_iff; split; [apply Z.leb_le | apply Z.ltb_lt]; lia).
  eexists. split; [reflexivity|].
  assert (Hn : List.length (firstn (Z.to_nat i) a) = Z.to_nat i).
  { rewrite length_firstn. unfold len in Hi. lia. }
  split; [|split].
  - unfold len in *. rewrite length_app. cbn [List.length].
    rewrite Hn, length_skipn. lia.
  - rewrite app_nth2 by lia. rewrite Hn, Nat.sub_diag. reflexivity.
  - intros d. rewrite app_nth2 by lia. rewrite Hn, Nat.sub_diag. reflexivity.
Qed.

Lemma blit_Some {A} (a : list A) (i : Z) (src : list A) :
  0 <= i -> i + len src <= len a ->
  exists a', blit a i src = Some a' /\ len a' = len a.
Proof.
  intros H0 Hi. unfold blit.
  replace ((0 <=? i) && (i + len src <=? len a)) with true
    by (symmetry; apply andb_true_iff; split; apply Z.leb_le; lia).
  eexists. split; [reflexivity|].
  unfold len in *. rewrite !length_app, length_firstn, length_skipn. lia.
Qed.

(** ** HeapString *)

Section HeapStringFacts.
Import HeapStr.

Lemma wrap_small (z : Z) : 0 <= z < 2 ^ 64 -> wrap z = z.
Proof. intros H. unfold wrap, SIZE_MAX_plus_1. now apply Z.mod_small. Qed.

(** The doubling loop exits, with a power of two that is large enough,
    whenever the request is at most [2 ^ 63]. *)
Lemma doubling_exits (required : Z) (fuel : nat) :
  required <= 2 ^ 63 ->
  forall k, 8 <= k <= 63 -> 63 - k <= Z.of_nat fuel ->
  exists p, doubling fuel (2 ^ k) required = Ok p /\
            required <= p /\ 2 ^ k <= p <= 2 ^ 63.
Proof.
  intros Hreq. induction fuel as [|fuel IH]; intros k Hk Hfuel.
  - assert (k = 63) by lia. subst k. cbn [doubling].
    destruct (2 ^ 63 <? required) eqn:E.
    + apply Z.ltb_lt in E. lia.
    + exists (2 ^ 63). apply Z.ltb_ge in E. repeat split; lia.
  - cbn [doubling]. destruct (2 ^ k <? required) eqn:E.
    + apply Z.ltb_lt in E.
      assert (k < 63).
      { destruct (Z.eq_dec k 63); [subst; lia | lia]. }
      replace (wrap (2 ^ k * 2)) with (2 ^ (k + 1)).
      * destruct (IH (k + 1)) as (p & Hp & H1 & H2 & H3); try lia.
        exists p. repeat split; try assumption.
        rewrite Z.pow_add_r in H2 by lia. lia.
      * rewrite wrap_small; [rewrite Z.pow_add_r by lia; lia|].
        split; [apply Z.mul_nonneg_nonneg; [apply Z.pow_nonneg|]; lia|].
        replace (2 ^ k * 2) with (2 ^ (k + 1)) by (rewrite Z.pow_add_r by lia; lia).
        apply Z.pow_lt_mono_r; lia.
    + apply Z.ltb_ge in E. exists (2 ^ k). repeat split; try lia.
      apply Z.pow_le_mono_r; lia.
Qed.

Lemma heapStringNextAllocationSize_exits (required : Z) :
  required <= 2 ^ 63 ->
  exists p, heapStringNextAllocationSize required = Ok p /\
            required <= p /\ 256 <= p <= 2 ^ 63.
Proof.
  intros H.
  assert (H8 : 8 <= 8 <= 63) by lia.
  assert (Hfuel : 63 - 8 <= Z.of_nat 64) by (cbn; lia).
  destruct (doubling_exits required 64 H 8 H8 Hfuel) as (p & Hp & H1 & H2 & H3).
  change (2 ^ 8) with 256 in Hp, H2. unfold heapStringNextAllocationSize.
  exists p. split; [exact Hp|]. split; [exact H1|]. split; [exact H2 | exact H3].
Qed.

(** Past [2 ^ 63] the loop never exits: more turns do not help. *)
Lemma doubling_zero_hangs (required : Z) (fuel : nat) :
  0 < required -> doubling fuel 0 required = Crash Hang.
Proof.
  intros H. induction fuel as [|fuel IH]; cbn [doubling].
  - now replace (0 <? required) with true by (symmetry; apply Z.ltb_lt; lia).
  - replace (0 <? required) with true by (symmetry; apply Z.ltb_lt; lia).
    exact IH.
Qed.

Lemma len_realloc (old : option (list ascii)) (size : Z) :
  0 <= size -> len (realloc old size) = size.
Proof.
  intros H. unfold realloc. rewrite len_firstn, len_app, len_repeat.
  pose proof (len_nonneg (match old with Some l => l | None => [] end)). lia.
Qed.










End HeapStringFacts.

(** ** requestParse: the loop and its bytes *)

Section ParserLoop.
Import Parser.

(** The index a turn starts at only shows in the index it ends at. *)
Lemma requestParse_turn_index (request : Request) (c : ascii) (i : Z) :
  requestParse_turn request c i =
  match requestParse_turn request c 0 with
  | Ok (request', i') => Ok (request', if i' =? 0 then i else wrap (i - 1))
  | Crash f => Crash f
  end.
Proof.
  unfold requestParse_turn.
  destruct (state request);
    repeat match goal with
           | |- context [0 =? 0] => change (0 =? 0) with true; cbv iota
           | |- context [wrap (0 - 1) =? 0] =>
               change (wrap (0 - 1) =? 0) with false; cbv iota
           | |- context [if ?b then _ else _] => destruct b
           | |- context [bind ?o _] => destruct o; cbn [bind]
           | |- context [match ?o with Some _ => _ | None => _ end] => destruct o
           end;
    reflexivity.
Qed.

(** Only the state [RequestParseStateCRLF] steps back, and it hands the
    byte to the state [RequestParseStateHeaderName], which does not. *)
Lemma requestParse_turn_back (request request' : Request) (c : ascii) (i' : Z) :
  requestParse_turn request c 0 = Ok (request', i') -> i' <> 0 ->
  state request' = RequestParseStateHeaderName /\
  forall request'' j, requestParse_turn request' c 0 = Ok (request'', j) -> j = 0.
Proof.
  unfold requestParse_turn at 1.
  destruct (state request) eqn:Est;
    repeat match goal with
           | |- context [if ?b then _ else _] => destruct b eqn:?
           | |- context [bind ?o _] => destruct o; cbn [bind]
           | |- context [match ?o with Some _ => _ | None => _ end] => destruct o
           end;
    intros H Hne; inversion H; subst; try congruence.
  split; [reflexivity|].
  intros request'' j. unfold requestParse_turn. cbn [state set_state].
  repeat match goal with
         | |- context [if ?b then _ else _] => destruct b eqn:?
         | |- context [bind ?o _] => destruct o; cbn [bind]
         end;
    intros H'; inversion H'; reflexivity.
Qed.

Lemma requestParse_bytes_app (request : Request) (a b : list ascii) :
  requestParse_bytes request (a ++ b) =
  bind (requestParse_bytes request a) (fun request' => requestParse_bytes request' b).
Proof.
  revert request. induction a as [|c a IH]; intros request; cbn [app requestParse_bytes].
  - reflexivity.
  - destruct (requestParse_byte request c); cbn [bind]; [apply IH | reflexivity].
Qed.

Lemma wrap_back_forth (i : Z) : 0 <= i < 2 ^ 64 -> wrap (wrap (i - 1) + 1) = i.
Proof.
  intros H. unfold wrap, SIZE_MAX_plus_1.
  rewrite Z.add_mod_idemp_l by lia.
  replace (i - 1 + 1) with i by lia. now apply Z.mod_small.
Qed.

Lemma skipn_load (fragment : list ascii) (i : Z) :
  0 <= i < len fragment ->
  skipn (Z.to_nat i) fragment
  = load fragment i :: skipn (Z.to_nat (i + 1)) fragment.
Proof.
  intros H. unfold load, len in *.
  replace (Z.to_nat (i + 1)) with (S (Z.to_nat i)) by lia.
  assert (Hn : (Z.to_nat i < List.length fragment)%nat) by lia.
  clear H. revert Hn. generalize (Z.to_nat i) as n.
  induction fragment as [|c l IH]; intros n Hn; cbn [List.length] in Hn.
  - lia.
  - destruct n as [|n]; [reflexivity|]. cbn [skipn nth]. apply IH. lia.
Qed.

(** The loop returns, and what it returns is the fold of
    [requestParse_byte] over the bytes from the index on. *)
Lemma requestParse_loop_bytes (fragment : list ascii) :
  len fragment < 2 ^ 64 ->
  forall (n : nat) (i : Z) (fuel : nat) (request : Request),
    0 <= i -> i + Z.of_nat n = len fragment -> (2 * n + 1 <= fuel)%nat ->
    requestParse_loop fuel request fragment (len fragment) i
    = Some (requestParse_bytes request (skipn (Z.to_nat i) fragment)).
Proof.
  intros Hsize. induction n as [|n IH]; intros i fuel request Hi Hn Hfuel.
  - destruct fuel as [|fuel]; [lia|]. cbn [requestParse_loop].
    replace (i <? len fragment) with false by (symmetry; apply Z.ltb_ge; lia).
    rewrite skipn_all2 by (unfold len in Hn; lia). reflexivity.
  - destruct fuel as [|fuel]; [lia|]. cbn [requestParse_loop].
    replace (i <? len fragment) with true by (symmetry; apply Z.ltb_lt; lia).
    rewrite skipn_load by lia. cbn [requestParse_bytes].
    unfold requestParse_byte. rewrite requestParse_turn_index.
    destruct (requestParse_turn request (load fragment i) 0)
      as [[request' i']|f] eqn:E; cbn [bind]; [|reflexivity].
    destruct (i' =? 0) eqn:Ei.
    + rewrite wrap_small by lia. cbn [bind]. apply IH; lia.
    + apply Z.eqb_neq in Ei.
      destruct (requestParse_turn_back _ _ _ _ E Ei) as [_ Hback].
      rewrite wrap_back_forth by lia.
      destruct fuel as [|fuel]; [lia|]. cbn [requestParse_loop].
      replace (i <? len fragment) with true by (symmetry; apply Z.ltb_lt; lia).
      rewrite requestParse_turn_index.
      destruct (requestParse_turn request' (load fragment i) 0)
        as [[request'' j]|f] eqn:E2; cbn [bind]; [|reflexivity].
      rewrite (Hback _ _ eq_refl). change (0 =? 0) with true. cbv iota.
      rewrite wrap_small by lia. apply IH; lia.
Qed.

(** [requestParse] returns on every fragment whose length is a [size_t]. *)
Lemma requestParse_returns (request : Request) (fragment : list ascii) :
  len fragment < 2 ^ 64 ->
  requestParse request fragment = Some (requestParse_bytes request fragment).
Proof.
  intros H. unfold requestParse.
  rewrite (requestParse_loop_bytes fragment H (List.length fragment) 0);
    [reflexivity | lia | reflexivity | lia].
Qed.

End ParserLoop.

(** ** requestParse: chunks and the final state *)

Section ParserClaims.
Import Parser.

(** C3. Feeding the bytes to [requestParse] chunk by chunk, each call on
    the request left by the one before, ends as one call on all the bytes
    does: with the same request, field by field, or with the same fault. *)
Theorem C3_chunk_boundary_independence
    (request : Request) (chunks : list (list ascii)) :
  len (List.concat chunks) < 2 ^ 64 ->
  requestParse_chunks request chunks = requestParse request (List.concat chunks).
Proof.
  intros Hsize. rewrite requestParse_returns by assumption.
  revert request Hsize.
  induction chunks as [|chunk rest IH]; intros request Hsize.
  - reflexivity.
  - cbn [List.concat] in *. rewrite len_app in Hsize.
    pose proof (len_nonneg chunk). pose proof (len_nonneg (List.concat rest)).
    cbn [requestParse_chunks]. rewrite requestParse_returns by lia.
    rewrite requestParse_bytes_app.
    destruct (requestParse_bytes request chunk) as [request'|f]; cbn [bind].
    + apply IH. lia.
    + reflexivity.
Qed.

Lemma C3_witness :
  len (List.concat sample_chunks) < 2 ^ 64 /\
  requestParse_chunks zeroRequest sample_chunks
  = requestParse zeroRequest (List.concat sample_chunks).
Proof.
  split; [reflexivity | apply C3_chunk_boundary_independence; reflexivity].
Defined.

Lemma same_but_bodyTruncated_refl (r : Request) : same_but_bodyTruncated r r.
Proof. unfold same_but_bodyTruncated. repeat split. now left. Qed.

Lemma same_but_bodyTruncated_warn (r r' : Request) :
  same_but_bodyTruncated r r' -> same_but_bodyTruncated r (warn_bodyTruncated r').
Proof.
  unfold same_but_bodyTruncated. cbn.
  intros H. repeat (destruct H as [? H]).
  repeat (split; [assumption|]). now right.
Qed.

Lemma done_bytes (fragment : list ascii) :
  forall request request0,
    state request = RequestParseStateDone ->
    same_but_bodyTruncated request0 request ->
    exists request', requestParse_bytes request fragment = Ok request' /\
                     same_but_bodyTruncated request0 request'.
Proof.
  induction fragment as [|c rest IH]; intros request request0 Hdone Hsame.
  - exists request. split; [reflexivity | assumption].
  - cbn [requestParse_bytes]. unfold requestParse_byte, requestParse_turn.
    rewrite Hdone.
    destruct (HeapStr.contents (body request)); cbn [bind];
      change (0 =? 0) with true; cbv iota; cbn [bind]; apply IH;
      try assumption; try reflexivity.
    now apply same_but_bodyTruncated_warn.
Qed.

(** C7. Once the state is [RequestParseStateDone], [requestParse] returns
    on any further bytes and leaves every field of the request as it was,
    except that the warning [bodyTruncated] may have been set. *)
Theorem C7_done_is_final (request : Request) (fragment : list ascii) :
  state request = RequestParseStateDone ->
  len fragment < 2 ^ 64 ->
  exists request', requestParse request fragment = Some (Ok request') /\
                   same_but_bodyTruncated request request'.
Proof.
  intros Hdone Hsize. rewrite requestParse_returns by assumption.
  destruct (done_bytes fragment request request Hdone (same_but_bodyTruncated_refl _))
    as (request' & -> & Hsame).
  exists request'. split; [reflexivity | assumption].
Qed.

Lemma C7_witness :
  state (parsed sample_no_headers) = RequestParseStateDone /\
  len (bytes "more") < 2 ^ 64 /\
  exists request',
    requestParse (parsed sample_no_headers) (bytes "more") = Some (Ok request') /\
    same_but_bodyTruncated (parsed sample_no_headers) request'.
Proof.
  split; [reflexivity|]. split; [reflexivity|].
  apply C7_done_is_final; reflexivity.
Defined.

(** *** The end of the header block *)

Lemma headerInRequest_loop_set_state (todo : nat) :
  forall i headerName request s,
    headerInRequest_loop todo i headerName (set_state request s)
    = headerInRequest_loop todo i headerName request.
Proof.
  induction todo as [|todo IH]; intros i headerName request s; cbn [headerInRequest_loop].
  - reflexivity.
  - change (header_at (set_state request s) i) with (header_at request i).
    change (pool_string (set_state request s)) with (pool_string request).
    destruct (PoolStr.contents (name (header_at request i))); [|reflexivity].
    destruct (_ =? 0); [reflexivity | apply IH].
Qed.

Lemma headerInRequest_set_state (headerName : list ascii) (request : Request)
    (s : RequestParseState) :
  headerInRequest headerName (set_state request s) = headerInRequest headerName request.
Proof. unfold headerInRequest. apply headerInRequest_loop_set_state. Qed.

(** The clamp of the source is [max 0 (min n REQUEST_MAX_BODY_LENGTH)]. *)
Lemma clamp_max_min (n : Z) :
  (let m := if REQUEST_MAX_BODY_LENGTH <? n then REQUEST_MAX_BODY_LENGTH else n in
   if m <? 0 then 0 else m)
  = Z.max 0 (Z.min n REQUEST_MAX_BODY_LENGTH).
Proof.
  cbv zeta. unfold REQUEST_MAX_BODY_LENGTH.
  destruct (128 * 1024 * 1024 <? n) eqn:E1.
  - apply Z.ltb_lt in E1. cbn. lia.
  - apply Z.ltb_ge in E1. destruct (n <? 0) eqn:E2.
    + apply Z.ltb_lt in E2. lia.
    + apply Z.ltb_ge in E2. lia.
Qed.

(** The turn for the line feed that ends the header block, by what
    [headerInRequest] returns and what [sscanf] reads. *)
Lemma end_of_headers_turn (request : Request) (i : Z) :
  state request = RequestParseStateCRLFCR ->
  (forall h p n,
      headerInRequest (bytes "Content-Length") request = Ok (Some h) ->
      PoolStr.contents (value h) = Some p ->
      sscanf_ld (pool_string request p) = Some n ->
      let capacity := Z.max 0 (Z.min n REQUEST_MAX_BODY_LENGTH) in
      requestParse_turn request LF i
      = Ok (set_state
              (set_body request
                 {| HeapStr.contents :=
                      if 0 <? capacity then Some (zeros (capacity + 1))
                      else HeapStr.contents (body request);
                    HeapStr.length := 0;
                    HeapStr.capacity := capacity |})
              RequestParseStateBody, i)) /\
  (headerInRequest (bytes "Content-Length") request = Ok None ->
   requestParse_turn request LF i = Ok (set_state request RequestParseStateDone, i)) /\
  (forall h p,
      headerInRequest (bytes "Content-Length") request = Ok (Some h) ->
      PoolStr.contents (value h) = Some p ->
      sscanf_ld (pool_string request p) = None ->
      requestParse_turn request LF i = Ok (set_state request RequestParseStateDone, i)).
Proof.
  intros Hstate. unfold requestParse_turn. rewrite Hstate.
  change (Ascii.eqb LF LF) with true. cbv iota.
  unfold end_of_headers. rewrite headerInRequest_set_state.
  change (pool_string (set_state request RequestParseStateDone))
    with (pool_string request).
  repeat split.
  - intros h p n -> Hp Hn. cbn [bind]. rewrite Hp, Hn.
    rewrite <- (clamp_max_min n). reflexivity.
  - intros ->. reflexivity.
  - intros h p -> Hp Hn. cbn [bind]. rewrite Hp, Hn. reflexivity.
Qed.

End ParserClaims.

(** ** requestParse: the header string pool *)

Section PoolFacts.
Import Parser.

Ltac sizes :=
  unfold append_limit, REQUEST_HEADERS_MAX_MEMORY, REQUEST_MAX_HEADERS,
    sizeof_NUL_constant in *.
Ltac slia := sizes; lia.

Lemma store_other {A} (a a' : list A) (i : Z) (x : A) :
  store a i x = Some a' ->
  forall (j : nat) (d : A), j <> Z.to_nat i -> nth j a' d = nth j a d.
Proof.
  unfold store. destruct ((0 <=? i) && (i <? len a)) eqn:E; [|discriminate].
  apply andb_true_iff in E. destruct E as [E1 E2].
  apply Z.leb_le in E1. apply Z.ltb_lt in E2. unfold len in E2.
  intros H j d Hj. inversion H; subst a'; clear H.
  assert (Hn : List.length (firstn (Z.to_nat i) a) = Z.to_nat i)
    by (rewrite length_firstn; lia).
  destruct (Nat.lt_ge_cases j (Z.to_nat i)) as [Hlt|Hge].
  - rewrite app_nth1 by lia. rewrite nth_firstn.
    now replace (j <? Z.to_nat i)%nat with true by (symmetry; apply Nat.ltb_lt; lia).
  - rewrite app_nth2 by lia. rewrite Hn.
    destruct (j - Z.to_nat i)%nat as [|k] eqn:Ek; [lia|].
    change (nth k (skipn (S (Z.to_nat i)) a) d = nth j a d).
    rewrite nth_skipn. f_equal. lia.
Qed.

(** Storing a string back into a header of the array. *)
Lemma set_header_name_ok (request : Request) (n : Z) (string : PoolStr.PoolString) :
  0 <= n < len (headers request) ->
  exists hs,
    set_header_name request n string = Ok (set_headers request hs) /\
    len hs = len (headers request) /\
    nth (Z.to_nat n) hs zeroHeader
    = {| name := string; value := value (header_at request n) |} /\
    forall j, j <> Z.to_nat n -> nth j hs zeroHeader = nth j (headers request) zeroHeader.
Proof.
  intros Hn. unfold set_header_name.
  destruct (store_Some (headers request) n
              {| name := string; value := value (header_at request n) |} Hn)
    as (hs & Hs & Hl & _ & Hnth).
  rewrite Hs. cbn. exists hs. repeat split; try assumption.
  - apply Hnth.
  - intros j Hj. eapply store_other; eassumption.
Qed.

Lemma set_header_value_ok (request : Request) (n : Z) (string : PoolStr.PoolString) :
  0 <= n < len (headers request) ->
  exists hs,
    set_header_value request n string = Ok (set_headers request hs) /\
    len hs = len (headers request) /\
    nth (Z.to_nat n) hs zeroHeader
    = {| name := name (header_at request n); value := string |} /\
    forall j, j <> Z.to_nat n -> nth j hs zeroHeader = nth j (headers request) zeroHeader.
Proof.
  intros Hn. unfold set_header_value.
  destruct (store_Some (headers request) n
              {| name := name (header_at request n); value := string |} Hn)
    as (hs & Hs & Hl & _ & Hnth).
  rewrite Hs. cbn. exists hs. repeat split; try assumption.
  - apply Hnth.
  - intros j Hj. eapply store_other; eassumption.
Qed.

(** [poolStringStartNewString]: the offset stays in the pool, and the new
    string either starts at the offset, or is [NULL] and the pool is at
    its last byte. *)
Lemma poolStringStartNewString_ok (string string1 : PoolStr.PoolString)
    (request request1 : Request) :
  0 <= headersStringPoolOffset request <= REQUEST_HEADERS_MAX_MEMORY - 1 ->
  poolStringStartNewString string request = (string1, request1) ->
  headers request1 = headers request /\
  headersCount request1 = headersCount request /\
  state request1 = state request /\
  body request1 = body request /\
  headersStringPool request1 = headersStringPool request /\
  headersStringPoolOffset request <= headersStringPoolOffset request1
    <= REQUEST_HEADERS_MAX_MEMORY - 1 /\
  PoolStr.length string1 = 0 /\
  (PoolStr.contents string1 = Some (headersStringPoolOffset request1) \/
   PoolStr.contents string1 = None /\
   REQUEST_HEADERS_MAX_MEMORY - 1 <= headersStringPoolOffset request1).
Proof.
  intros Hoff. unfold poolStringStartNewString.
  unfold REQUEST_HEADERS_MAX_MEMORY in *.
  destruct (headersStringPoolOffset request =? 0) eqn:E0.
  - apply Z.eqb_eq in E0. intros H; inversion H; subst. cbn.
    repeat split; try lia. left. now rewrite E0.
  - apply Z.eqb_neq in E0.
    destruct (8 * 1024 - 1 <=? headersStringPoolOffset request) eqn:E1.
    + apply Z.leb_le in E1. intros H; inversion H; subst. cbn.
      repeat split; try lia. right. split; [reflexivity | lia].
    + apply Z.leb_gt in E1. intros H; inversion H; subst. cbn.
      rewrite wrap_small by lia. repeat split; try lia. now left.
Qed.

(** [poolStringAppendChar] on the last string of the pool: below the limit
    the byte is stored inside the pool, at the offset; from the limit on
    nothing is stored. *)
Lemma poolStringAppendChar_ok (request : Request) (string : PoolStr.PoolString)
    (c : ascii) :
  len (headersStringPool request) = REQUEST_HEADERS_MAX_MEMORY ->
  0 <= headersStringPoolOffset request <= REQUEST_HEADERS_MAX_MEMORY - 1 ->
  (headersStringPoolOffset request < append_limit ->
   exists p, PoolStr.contents string = Some p /\ 0 <= p /\
             0 <= PoolStr.length string /\
             p + PoolStr.length string = headersStringPoolOffset request) ->
  exists request2 string2,
    poolStringAppendChar request string c = Ok (request2, string2) /\
    headers request2 = headers request /\
    headersCount request2 = headersCount request /\
    state request2 = state request /\
    body request2 = body request /\
    len (headersStringPool request2) = REQUEST_HEADERS_MAX_MEMORY /\
    headersStringPoolOffset request <= headersStringPoolOffset request2
      <= REQUEST_HEADERS_MAX_MEMORY - 1 /\
    PoolStr.contents string2 = PoolStr.contents string /\
    (headersStringPoolOffset request2 < append_limit ->
     headersStringPoolOffset request2 = headersStringPoolOffset request + 1 /\
     PoolStr.length string2 = PoolStr.length string + 1).
Proof.
  intros Hpool Hoff Hlast. unfold poolStringAppendChar.
  unfold append_limit, REQUEST_HEADERS_MAX_MEMORY, sizeof_NUL_constant in *.
  destruct (8 * 1024 - 1 - 4 <=? headersStringPoolOffset request) eqn:E.
  - apply Z.leb_le in E. do 2 eexists. split; [reflexivity|]. cbn.
    repeat split; try assumption; try lia.
  - apply Z.leb_gt in E. destruct (Hlast E) as (p & Hp & Hp0 & Hl0 & Hsum).
    rewrite Hp.
    destruct (store_Some (headersStringPool request) (p + PoolStr.length string) c)
      as (pool & Hs & Hl & _); [lia|].
    rewrite Hs. cbn [from_option bind]. do 2 eexists. split; [reflexivity|]. cbn.
    rewrite !wrap_small by lia.
    repeat split; try assumption; try lia.
Qed.

Lemma header_at_set_headers (request : Request) (hs : list Header) (j : Z) :
  header_at (set_headers request hs) j = nth (Z.to_nat j) hs zeroHeader.
Proof. reflexivity. Qed.

(** A byte of a header name: the call returns and keeps the invariant. *)
Lemma store_name_char_invariant (request : Request) (c : ascii) :
  invariant request ->
  state request = RequestParseStateHeaderName ->
  headersCount request < REQUEST_MAX_HEADERS ->
  exists request', store_name_char request c = Ok request' /\
                   invariant request' /\
                   headersStringPoolOffset request
                   <= headersStringPoolOffset request'.
Proof.
  intros [Hh Hp Hc Ho Hf Hcur Hb] Hst Hn. unfold store_name_char.
  set (n := headersCount request) in *.
  set (h := header_at request n) in *.
  assert (Hval : headersStringPoolOffset request < append_limit ->
                 PoolStr.contents (value h) = None /\
                 forall p, PoolStr.contents (name h) = Some p ->
                           0 <= p /\ 0 <= PoolStr.length (name h) /\
                           p + PoolStr.length (name h) = headersStringPoolOffset request).
  { intros Hlt. specialize (Hcur Hn Hlt). unfold cursor_ok in Hcur.
    fold n in Hcur. fold h in Hcur.
    destruct (PoolStr.contents (value h)).
    - destruct Hcur as [Hs _]. congruence.
    - split; [reflexivity|]. intros p Hp'. now rewrite Hp' in Hcur. }
  assert (Hstart : exists request1,
    match PoolStr.contents (name h) with
    | None => let '(string, request) := poolStringStartNewString (name h) request in
              set_header_name request n string
    | Some _ => Ok request
    end = Ok request1 /\
    len (headers request1) = REQUEST_MAX_HEADERS /\
    (forall j, j <> Z.to_nat n ->
               nth j (headers request1) zeroHeader = nth j (headers request) zeroHeader) /\
    value (header_at request1 n) = value h /\
    headersCount request1 = n /\ state request1 = state request /\
    body request1 = body request /\
    headersStringPool request1 = headersStringPool request /\
    headersStringPoolOffset request <= headersStringPoolOffset request1
      <= REQUEST_HEADERS_MAX_MEMORY - 1 /\
    (headersStringPoolOffset request1 < append_limit ->
     exists p, PoolStr.contents (name (header_at request1 n)) = Some p /\ 0 <= p /\
               0 <= PoolStr.length (name (header_at request1 n)) /\
               p + PoolStr.length (name (header_at request1 n))
               = headersStringPoolOffset request1)).
  { destruct (PoolStr.contents (name h)) as [p|] eqn:Hname.
    - exists request. repeat split; try assumption; try reflexivity; try slia.
      intros Hlt. exists p. destruct (Hval Hlt) as [_ Hnm].
      fold h. rewrite Hname. split; [reflexivity | now apply Hnm].
    - destruct (poolStringStartNewString (name h) request) as [string1 request1] eqn:Es.
      destruct (poolStringStartNewString_ok _ _ _ _ Ho Es)
        as (H1 & H2 & H3 & H4 & H5 & H6 & H7 & H8).
      destruct (set_header_name_ok request1 n string1) as (hs & -> & Hl & Hnth & Hoth).
      { rewrite H1, Hh. unfold REQUEST_MAX_HEADERS in *. slia. }
      exists (set_headers request1 hs).
      rewrite header_at_set_headers, Hnth. cbn.
      unfold header_at. rewrite H1. fold (header_at request n). fold h.
      repeat split; try assumption; try slia; try congruence.
      + intros j Hj. rewrite Hoth by assumption. now rewrite H1.
      + intros Hlt. destruct H8 as [H8|[_ H8]].
        * exists (headersStringPoolOffset request1).
          repeat split; try slia. assumption.
        * slia. }
  destruct Hstart as (request1 & -> & Hh1 & Hoth1 & Hv1 & Hn1 & Hs1 & Hb1 & Hp1 & Ho1 & Hlast1).
  cbn [bind].
  destruct (poolStringAppendChar_ok request1 (name (header_at request1 n)) c)
    as (request2 & string2 & -> & Hh2 & Hn2 & Hs2 & Hb2 & Hp2 & Ho2 & Hc2 & Hlast2);
    [congruence | slia | assumption |].
  cbn [bind].
  destruct (set_header_name_ok request2 n string2) as (hs & -> & Hl & Hnth & Hoth).
  { rewrite Hh2, Hh1. unfold REQUEST_MAX_HEADERS in *. slia. }
  eexists. split; [reflexivity|]. split; [|cbn; lia].
  constructor; cbn.
  - congruence.
  - assumption.
  - rewrite Hn2, Hn1. assumption.
  - slia.
  - rewrite Hn2, Hn1. intros j Hj.
    rewrite Hoth by slia. rewrite Hh2, Hoth1 by slia. apply Hf. assumption.
  - intros _ Hlt. unfold cursor_ok. cbn. rewrite Hn2, Hn1.
    rewrite Hnth. cbn.
    unfold header_at. rewrite Hh2. fold (header_at request1 n). rewrite Hv1.
    assert (Hlt0 : headersStringPoolOffset request < append_limit) by slia.
    destruct (Hval Hlt0) as [-> _].
    destruct (Hlast2 Hlt) as [Hoff2 Hlen2].
    assert (Hlt1 : headersStringPoolOffset request1 < append_limit) by slia.
    destruct (Hlast1 Hlt1) as (p & Hp' & H0p & H0l & Hsum).
    rewrite Hc2, Hp'. slia.
  - rewrite Hs2, Hs1, Hb2, Hb1. assumption.
Qed.

(** A byte of a header value: the same. *)
Lemma store_value_char_invariant (request : Request) (c : ascii) :
  invariant request ->
  state request = RequestParseStateHeaderValue ->
  headersCount request < REQUEST_MAX_HEADERS ->
  exists request', store_value_char request c = Ok request' /\
                   invariant request' /\
                   headersStringPoolOffset request
                   <= headersStringPoolOffset request'.
Proof.
  intros [Hh Hp Hc Ho Hf Hcur Hb] Hst Hn. unfold store_value_char.
  set (n := headersCount request) in *.
  set (h := header_at request n) in *.
  assert (Hval : headersStringPoolOffset request < append_limit ->
                 forall p, PoolStr.contents (value h) = Some p ->
                           0 <= p /\ 0 <= PoolStr.length (value h) /\
                           p + PoolStr.length (value h) = headersStringPoolOffset request).
  { intros Hlt p Hp'. specialize (Hcur Hn Hlt). unfold cursor_ok in Hcur.
    fold n in Hcur. fold h in Hcur. rewrite Hp' in Hcur. slia. }
  assert (Hstart : exists request1,
    match PoolStr.contents (value h) with
    | None => let '(string, request) := poolStringStartNewString (value h) request in
              set_header_value request n string
    | Some _ => Ok request
    end = Ok request1 /\
    len (headers request1) = REQUEST_MAX_HEADERS /\
    (forall j, j <> Z.to_nat n ->
               nth j (headers request1) zeroHeader = nth j (headers request) zeroHeader) /\
    name (header_at request1 n) = name h /\
    headersCount request1 = n /\ state request1 = state request /\
    body request1 = body request /\
    headersStringPool request1 = headersStringPool request /\
    headersStringPoolOffset request <= headersStringPoolOffset request1
      <= REQUEST_HEADERS_MAX_MEMORY - 1 /\
    (headersStringPoolOffset request1 < append_limit ->
     exists p, PoolStr.contents (value (header_at request1 n)) = Some p /\ 0 <= p /\
               0 <= PoolStr.length (value (header_at request1 n)) /\
               p + PoolStr.length (value (header_at request1 n))
               = headersStringPoolOffset request1)).
  { destruct (PoolStr.contents (value h)) as [p|] eqn:Hname.
    - exists request. repeat split; try assumption; try reflexivity; try slia.
      intros Hlt. exists p.
      fold h. rewrite Hname. split; [reflexivity | now apply (Hval Hlt)].
    - destruct (poolStringStartNewString (value h) request) as [string1 request1] eqn:Es.
      destruct (poolStringStartNewString_ok _ _ _ _ Ho Es)
        as (H1 & H2 & H3 & H4 & H5 & H6 & H7 & H8).
      destruct (set_header_value_ok request1 n string1) as (hs & -> & Hl & Hnth & Hoth).
      { rewrite H1, Hh. unfold REQUEST_MAX_HEADERS in *. slia. }
      exists (set_headers request1 hs).
      rewrite header_at_set_headers, Hnth. cbn.
      unfold header_at. rewrite H1. fold (header_at request n). fold h.
      repeat split; try assumption; try slia; try congruence.
      + intros j Hj. rewrite Hoth by assumption. now rewrite H1.
      + intros Hlt. destruct H8 as [H8|[_ H8]].
        * exists (headersStringPoolOffset request1).
          repeat split; try slia. assumption.
        * slia. }
  destruct Hstart as (request1 & -> & Hh1 & Hoth1 & Hv1 & Hn1 & Hs1 & Hb1 & Hp1 & Ho1 & Hlast1).
  cbn [bind].
  destruct (poolStringAppendChar_ok request1 (value (header_at request1 n)) c)
    as (request2 & string2 & -> & Hh2 & Hn2 & Hs2 & Hb2 & Hp2 & Ho2 & Hc2 & Hlast2);
    [congruence | slia | assumption |].
  cbn [bind].
  destruct (set_header_value_ok request2 n string2) as (hs & -> & Hl & Hnth & Hoth).
  { rewrite Hh2, Hh1. unfold REQUEST_MAX_HEADERS in *. slia. }
  eexists. split; [reflexivity|]. split; [|cbn; lia].
  constructor; cbn.
  - congruence.
  - assumption.
  - rewrite Hn2, Hn1. assumption.
  - slia.
  - rewrite Hn2, Hn1. intros j Hj.
    rewrite Hoth by slia. rewrite Hh2, Hoth1 by slia. apply Hf. assumption.
  - intros _ Hlt. unfold cursor_ok. cbn. rewrite Hn2, Hn1.
    rewrite Hnth. cbn.
    destruct (Hlast2 Hlt) as [Hoff2 Hlen2].
    assert (Hlt1 : headersStringPoolOffset request1 < append_limit) by slia.
    destruct (Hlast1 Hlt1) as (p & Hp' & H0p & H0l & Hsum).
    rewrite Hc2, Hp'. split; [congruence | slia].
  - rewrite Hs2, Hs1, Hb2, Hb1. assumption.
Qed.

(** A turn that leaves the headers and the pool alone. *)
Lemma invariant_frame (request request' : Request) :
  invariant request ->
  headers request' = headers request ->
  headersCount request' = headersCount request ->
  headersStringPool request' = headersStringPool request ->
  headersStringPoolOffset request' = headersStringPoolOffset request ->
  (state request = RequestParseStateHeaderValue ->
   state request' = RequestParseStateHeaderValue) ->
  (state request' <> RequestParseStateBody ->
   state request' <> RequestParseStateDone -> body request' = zeroBody) ->
  invariant request'.
Proof.
  intros [Hh Hp Hc Ho Hf Hcur Hb] H1 H2 H3 H4 H5 H6.
  constructor; try congruence; try exact H6.
  - rewrite H2. unfold header_at. rewrite H1. exact Hf.
  - rewrite H2, H4. intros Hn Hlt. specialize (Hcur Hn Hlt).
    unfold cursor_ok, header_at in *. rewrite H1, H2, H4.
    destruct (PoolStr.contents (value _)); [|assumption].
    destruct Hcur as [Hs Hrest]. split; [auto | assumption].
Qed.

Lemma URLDecode_loop_fault (encoded : list ascii) :
  forall decoded decodedCapacity type deci st firstDigit f,
    URLDecode_loop encoded decoded decodedCapacity type deci st firstDigit = Crash f ->
    f = FieldOutOfBounds.
Proof.
  assert (Hstore : forall (a : list ascii) i x f,
             from_option FieldOutOfBounds (store a i x) = Crash f ->
             f = FieldOutOfBounds).
  { intros a i x f. destruct (store a i x); cbn; congruence. }
  induction encoded as [|c rest IH]; intros decoded cap type deci st fd f;
    cbn [URLDecode_loop].
  - apply Hstore.
  - destruct (wrap (cap - 1) <=? deci); [apply Hstore|].
    destruct (Ascii.eqb c NUL); [apply Hstore|].
    destruct (Ascii.eqb c "&" && is_parameter type); [apply Hstore|].
    destruct st.
    + destruct (Ascii.eqb c "%"); [apply IH|].
      match goal with |- context [store ?a ?j ?x] => destruct (store a j x) end;
        cbn [from_option bind]; [apply IH | congruence].
    + apply IH.
    + destruct (sscanf_02x fd c); [|apply IH].
      match goal with |- context [store ?a ?j ?x] => destruct (store a j x) end;
        cbn [from_option bind]; [apply IH | congruence].
Qed.

Lemma headerInRequest_fault (headerName : list ascii) (request : Request) (f : fault) :
  headerInRequest headerName request = Crash f -> f = HeaderNameNull.
Proof.
  unfold headerInRequest. generalize 0 as i.
  induction (Z.to_nat (headersCount request)) as [|todo IH]; intros i;
    cbn [headerInRequest_loop].
  - discriminate.
  - destruct (PoolStr.contents (name (header_at request i))); [|congruence].
    destruct (_ =? 0); [discriminate | apply IH].
Qed.

(* The turns that touch neither the headers nor the pool. *)
Ltac frame request Inv Est :=
  split; [|cbn; lia];
  apply (invariant_frame request _ Inv);
  cbn; try reflexivity; try congruence;
  try (intros _ _; apply (inv_body _ Inv); congruence);
  try (intros H; exfalso; apply H; reflexivity);
  try (intros _ H; exfalso; apply H; reflexivity).

(** Every turn keeps the invariant, and no turn faults on a store into
    the header string pool. *)
Lemma requestParse_turn_invariant (request : Request) (c : ascii) (i : Z) :
  invariant request ->
  match requestParse_turn request c i with
  | Ok (request', _) =>
      invariant request' /\
      headersStringPoolOffset request <= headersStringPoolOffset request'
  | Crash f => pool_fault f = false
  end.
Proof.
  intros Inv. unfold requestParse_turn.
  destruct (state request) eqn:Est.
  - (* Method *)
    destruct (Ascii.eqb c " "); [frame request Inv Est|].
    destruct (methodLength request <? 64 - 1); [|frame request Inv Est].
    destruct (store _ _ _); cbn [from_option bind]; [|reflexivity].
    frame request Inv Est.
  - (* Path *)
    destruct (Ascii.eqb c " ").
    { unfold URLDecode.
      destruct (URLDecode_loop _ _ _ _ _ _ _) eqn:E; cbn [bind].
      - frame request Inv Est.
      - now rewrite (URLDecode_loop_fault _ _ _ _ _ _ _ _ E). }
    destruct (pathLength request <? 1024 - 1); [|frame request Inv Est].
    destruct (store _ _ _); cbn [from_option bind]; [|reflexivity].
    frame request Inv Est.
  - (* Version *)
    destruct (Ascii.eqb c CR); [frame request Inv Est|].
    destruct (versionLength request <? 16 - 1); [|frame request Inv Est].
    destruct (store _ _ _); cbn [from_option bind]; [|reflexivity].
    frame request Inv Est.
  - (* HeaderName *)
    destruct (Ascii.eqb c ":"); [frame request Inv Est|].
    destruct (Ascii.eqb c CR); [frame request Inv Est|].
    destruct (headersCount request <? REQUEST_MAX_HEADERS) eqn:E;
      [|frame request Inv Est].
    apply Z.ltb_lt in E.
    destruct (store_name_char_invariant request c Inv Est E) as (r' & -> & Inv' & Hm).
    split; assumption.
  - (* HeaderValue *)
    destruct (Ascii.eqb c " " && (headersCount request <? REQUEST_MAX_HEADERS)
              && (PoolStr.length (value (header_at request (headersCount request))) =? 0));
      [split; [exact Inv | lia]|].
    destruct (Ascii.eqb c CR).
    { destruct Inv as [Hh Hp Hc Ho Hf Hcur Hb].
      destruct ((headersCount request <? REQUEST_MAX_HEADERS)
                && (0 <? PoolStr.length (value (header_at request (headersCount request)))))
        eqn:E.
      - (* the header is committed: the next one is still untouched *)
        apply andb_true_iff in E. destruct E as [E1 E2].
        apply Z.ltb_lt in E1. apply Z.ltb_lt in E2.
        rewrite wrap_small by slia.
        split; [|cbn; lia].
        constructor; cbn; try assumption; try slia.
        + intros j Hj. apply Hf. lia.
        + intros Hn _. unfold cursor_ok. cbn.
          change (nth (Z.to_nat (headersCount request + 1)) (headers request) zeroHeader)
            with (header_at request (headersCount request + 1)).
          rewrite Hf by lia. exact I.
        + intros _ _. apply Hb; congruence.
      - split; [|cbn; lia].
        constructor; cbn; try assumption.
        + intros Hn Hlt. specialize (Hcur Hn Hlt). unfold cursor_ok in *. cbn.
          fold (header_at request (headersCount request)).
          destruct (PoolStr.contents (value (header_at request (headersCount request)))).
          * exfalso. destruct Hcur as (_ & _ & Hpos & _).
            apply andb_false_iff in E. destruct E as [E|E].
            -- apply Z.ltb_ge in E. lia.
            -- apply Z.ltb_ge in E. lia.
          * exact Hcur.
        + intros _ _. apply Hb; congruence. }
    destruct (headersCount request <? REQUEST_MAX_HEADERS) eqn:E;
      [|split; [exact Inv | lia]].
    apply Z.ltb_lt in E.
    destruct (store_value_char_invariant request c Inv Est E) as (r' & -> & Inv' & Hm).
    split; assumption.
  - (* CR *)
    destruct (Ascii.eqb c LF); frame request Inv Est.
  - (* CRLF *)
    destruct (Ascii.eqb c CR); frame request Inv Est.
  - (* CRLFCR *)
    destruct (Ascii.eqb c LF); [|frame request Inv Est].
    unfold end_of_headers. rewrite headerInRequest_set_state.
    destruct (headerInRequest (bytes "Content-Length") request) as [[h|]|f] eqn:E;
      cbn [bind].
    + destruct (PoolStr.contents (value h)); [|reflexivity].
      destruct (sscanf_ld _); frame request Inv Est.
    + frame request Inv Est.
    + now rewrite (headerInRequest_fault _ _ _ E).
  - (* Body *)
    destruct (HeapStr.contents (body request)); [|reflexivity].
    destruct (store _ _ _); cbn [from_option bind]; [|reflexivity].
    destruct (_ =? _); frame request Inv Est.
  - (* Done *)
    destruct (HeapStr.contents (body request)); frame request Inv Est.
Qed.

Lemma invariant_zeroRequest : invariant zeroRequest.
Proof.
  constructor.
  - reflexivity.
  - reflexivity.
  - cbn. slia.
  - cbn. lia.
  - intros j Hj. unfold header_at. cbn [headers zeroRequest]. apply nth_repeat.
  - intros _ _. unfold cursor_ok, header_at. cbn [headers headersCount zeroRequest].
    rewrite nth_repeat. exact I.
  - reflexivity.
Qed.

Lemma requestParse_byte_invariant (request : Request) (c : ascii) :
  invariant request ->
  match requestParse_byte request c with
  | Ok request' =>
      invariant request' /\
      headersStringPoolOffset request <= headersStringPoolOffset request'
  | Crash f => pool_fault f = false
  end.
Proof.
  intros Inv. unfold requestParse_byte.
  pose proof (requestParse_turn_invariant request c 0 Inv) as H1.
  destruct (requestParse_turn request c 0) as [[request1 i1]|f]; cbn [bind];
    [|assumption].
  destruct (i1 =? 0); [assumption|].
  destruct H1 as [H1 Hm1].
  pose proof (requestParse_turn_invariant request1 c 0 H1) as H2.
  destruct (requestParse_turn request1 c 0) as [[request2 i2]|f]; cbn [bind];
    [|assumption].
  destruct H2 as [H2 Hm2]. split; [assumption | lia].
Qed.

Lemma requestParse_bytes_invariant (fragment : list ascii) :
  forall request,
    invariant request ->
    match requestParse_bytes request fragment with
    | Ok request' =>
        invariant request' /\
        headersStringPoolOffset request <= headersStringPoolOffset request'
    | Crash f => pool_fault f = false
    end.
Proof.
  induction fragment as [|c rest IH]; intros request Inv; cbn [requestParse_bytes].
  - split; [assumption | lia].
  - pose proof (requestParse_byte_invariant request c Inv) as H.
    destruct (requestParse_byte request c) as [request1|f]; cbn [bind];
      [|assumption].
    destruct H as [H Hm]. specialize (IH request1 H).
    destruct (requestParse_bytes request1 rest); [|assumption].
    destruct IH as [IH Hm']. split; [assumption | lia].
Qed.

End PoolFacts.

(** ** requestParse: the claims on the headers *)

Section HeaderClaims.
Import Parser.

(** C5 as the claim words it fails for a Content-Length of 0: the header is
    there, its value reads as the non-negative number 0, the state becomes
    [RequestParseStateBody], and no storage is allocated for the body. *)
Lemma C5_no_storage_for_length_0 :
  state (parsed sample_content_length_0) = RequestParseStateCRLFCR /\
  (exists h p,
      headerInRequest (bytes "Content-Length") (parsed sample_content_length_0)
      = Ok (Some h) /\
      PoolStr.contents (value h) = Some p /\
      sscanf_ld (pool_string (parsed sample_content_length_0) p) = Some 0) /\
  requestParse zeroRequest (sample_content_length_0 ++ [LF])
  = Some (Ok (parsed (sample_content_length_0 ++ [LF]))) /\
  state (parsed (sample_content_length_0 ++ [LF])) = RequestParseStateBody /\
  HeapStr.capacity (body (parsed (sample_content_length_0 ++ [LF]))) = 0 /\
  HeapStr.contents (body (parsed (sample_content_length_0 ++ [LF]))) = None.
Proof.
  split; [vm_compute; reflexivity|]. split.
  - exists (header_at (parsed sample_content_length_0) 0), 15.
    repeat match goal with |- _ /\ _ => split end; vm_compute; reflexivity.
  - repeat match goal with |- _ /\ _ => split end; vm_compute; reflexivity.
Qed.

(** The scenarios of the specification run on the embedding. *)
Example scenario_no_headers :
  requestParse zeroRequest sample_no_headers = Some (Ok (parsed sample_no_headers)) /\
  cstring (method (parsed sample_no_headers)) = bytes "GET" /\
  cstring (path (parsed sample_no_headers)) = bytes "/index.html" /\
  headersCount (parsed sample_no_headers) = 0 /\
  body (parsed sample_no_headers) = zeroBody /\
  state (parsed sample_no_headers) = RequestParseStateDone.
Proof. repeat match goal with |- _ /\ _ => split end; vm_compute; reflexivity. Qed.

Example scenario_body_of_5 :
  state (parsed sample_body_5) = RequestParseStateDone /\
  cstring (pathDecoded (parsed sample_body_5)) = bytes "/a b" /\
  header_strings (parsed sample_body_5) 1
  = (Some (bytes "content-length"), Some (bytes "5")) /\
  body (parsed sample_body_5)
  = {| HeapStr.contents := Some (bytes "hello" ++ [NUL]);
       HeapStr.length := 5; HeapStr.capacity := 5 |} /\
  bodyTruncated (warnings (parsed sample_body_5)) = false /\
  bodyTruncated (warnings (parsed (sample_body_5 ++ bytes "!"))) = true.
Proof. repeat match goal with |- _ /\ _ => split end; vm_compute; reflexivity. Qed.

(** In the state [RequestParseStateHeaderValue] a space is dropped as long
    as no byte of the value has been stored, however many spaces came
    before it. *)
Lemma header_value_space_skipped (request : Request) (i : Z) :
  state request = RequestParseStateHeaderValue ->
  headersCount request < REQUEST_MAX_HEADERS ->
  PoolStr.length (value (header_at request (headersCount request))) = 0 ->
  requestParse_turn request " "%char i = Ok (request, i).
Proof.
  intros Hs Hn Hl. unfold requestParse_turn. rewrite Hs, Hl.
  replace (headersCount request <? REQUEST_MAX_HEADERS) with true
    by (symmetry; now apply Z.ltb_lt).
  reflexivity.
Qed.

(** C6. The header line [A:  b] has two spaces before the value: both are
    skipped, and the header that is committed has the value [b], of length
    1, where skipping exactly one space would give the value [ b]. *)
Theorem C6_two_leading_spaces_are_skipped :
  requestParse zeroRequest sample_two_spaces = Some (Ok (parsed sample_two_spaces)) /\
  headersCount (parsed sample_two_spaces) = 1 /\
  header_strings (parsed sample_two_spaces) 0 = (Some (bytes "A"), Some (bytes "b")) /\
  PoolStr.length (value (header_at (parsed sample_two_spaces) 0)) = 1.
Proof. repeat match goal with |- _ /\ _ => split end; vm_compute; reflexivity. Qed.

(** C10. On every sequence of bytes, parsed from the request of a fresh
    connection: [requestParse] returns; if it returns a request, the pool
    offset is at most [REQUEST_HEADERS_MAX_MEMORY - 1]; if it faults, the
    fault is not a store into the pool, through [NULL] or outside of it;
    the offset never goes down from one byte to a later one; and a string
    that [poolStringStartNewString] has left at [NULL] makes every
    [poolStringAppendChar] at that or a later offset return early, raising
    the warning and nothing else. *)
Theorem C10_header_pool_is_safe (fragment : list ascii) :
  len fragment < 2 ^ 64 ->
  (exists o, requestParse zeroRequest fragment = Some o /\
             match o with
             | Ok request =>
                 0 <= headersStringPoolOffset request <= REQUEST_HEADERS_MAX_MEMORY - 1 /\
                 len (headersStringPool request) = REQUEST_HEADERS_MAX_MEMORY
             | Crash f => f <> PoolNull /\ f <> PoolOutOfBounds
             end) /\
  (forall before after request request',
      fragment = before ++ after ->
      requestParse_bytes zeroRequest before = Ok request ->
      requestParse_bytes request after = Ok request' ->
      headersStringPoolOffset request <= headersStringPoolOffset request') /\
  (forall string request string1 request1,
      poolStringStartNewString string request = (string1, request1) ->
      PoolStr.contents string1 = None ->
      REQUEST_HEADERS_MAX_MEMORY - 1 <= headersStringPoolOffset request1 /\
      forall request2 c,
        headersStringPoolOffset request1 <= headersStringPoolOffset request2 ->
        poolStringAppendChar request2 string1 c
        = Ok (warn_headersStringPoolExhausted request2, string1)).
Proof.
  intros Hsize. split; [|split].
  - rewrite requestParse_returns by assumption. eexists. split; [reflexivity|].
    pose proof (requestParse_bytes_invariant fragment zeroRequest invariant_zeroRequest)
      as H.
    destruct (requestParse_bytes zeroRequest fragment) as [request|f].
    + destruct H as [H _]. split; [apply (inv_offset _ H) | apply (inv_pool _ H)].
    + destruct f; cbn in H; split; congruence.
  - intros before after request request' _ Hb Ha.
    pose proof (requestParse_bytes_invariant before zeroRequest invariant_zeroRequest)
      as H.
    rewrite Hb in H. destruct H as [H _].
    pose proof (requestParse_bytes_invariant after request H) as H'.
    rewrite Ha in H'. apply H'.
  - intros string request string1 request1. unfold poolStringStartNewString.
    destruct (headersStringPoolOffset request =? 0); [intros H; inversion H; discriminate|].
    destruct (REQUEST_HEADERS_MAX_MEMORY - 1 <=? headersStringPoolOffset request) eqn:E;
      [|intros H; inversion H; discriminate].
    apply Z.leb_le in E. intros H _. inversion H; subst; clear H. cbn.
    split; [assumption|]. intros request2 c Hle. unfold poolStringAppendChar.
    replace (REQUEST_HEADERS_MAX_MEMORY - 1 - sizeof_NUL_constant
             <=? headersStringPoolOffset request2) with true; [reflexivity|].
    symmetry. apply Z.leb_le. unfold sizeof_NUL_constant. lia.
Qed.

Lemma C10_witness :
  len sample_long_name < 2 ^ 64 /\
  exists o, requestParse zeroRequest sample_long_name = Some o /\
            match o with
            | Ok request =>
                0 <= headersStringPoolOffset request <= REQUEST_HEADERS_MAX_MEMORY - 1 /\
                len (headersStringPool request) = REQUEST_HEADERS_MAX_MEMORY
            | Crash f => f <> PoolNull /\ f <> PoolOutOfBounds
            end.
Proof.
  split; [vm_compute; reflexivity|].
  apply (C10_header_pool_is_safe sample_long_name). vm_compute; reflexivity.
Defined.

End HeaderClaims.

(** ** HeapString: the appends together, and heapStringSetToCString *)

Section HeapStringClaims.
Import HeapStr.





End HeapStringClaims.

(** ** Responses *)

Section ResponseFacts.
Import HeapStr.

Lemma cstring_no_NUL (l : list ascii) : Forall (fun c => c <> NUL) (cstring l).
Proof.
  induction l as [|c l IH]; cbn [cstring]; [constructor|].
  destruct (Ascii.eqb c NUL) eqn:E; [constructor|].
  constructor; [|assumption]. now apply Ascii.eqb_neq.
Qed.

Lemma cstring_app_NUL (l rest : list ascii) :
  Forall (fun c => c <> NUL) l -> cstring (l ++ NUL :: rest) = l.
Proof.
  induction 1 as [|c l Hc _ IH]; cbn [app cstring].
  - reflexivity.
  - replace (Ascii.eqb c NUL) with false by (symmetry; now apply Ascii.eqb_neq).
    now rewrite IH.
Qed.

Lemma cstring_idempotent (l : list ascii) : cstring (cstring l) = cstring l.
Proof.
  induction l as [|c l IH]; cbn [cstring]; [reflexivity|].
  destruct (Ascii.eqb c NUL) eqn:E; [reflexivity|].
  cbn [cstring]. now rewrite E, IH.
Qed.

(** [heapStringReallocIfNeeded] on a string that fits its capacity. *)
Lemma heapStringReallocIfNeeded_fits (string : HeapString) (minimumCapacity : Z) :
  allocated_ok string ->
  length string <= capacity string ->
  0 < minimumCapacity <= 2 ^ 63 ->
  exists s', heapStringReallocIfNeeded string minimumCapacity = Ok s' /\
             length s' = length string /\
             minimumCapacity <= capacity s' /\
             capacity s' < 2 ^ 64 /\
             exists a, contents s' = Some a /\ capacity s' <= len a.
Proof.
  intros (Hlen & H64 & Hal) Hfit [Hlt Hmax]. unfold heapStringReallocIfNeeded.
  destruct (minimumCapacity <=? capacity string) eqn:E.
  - apply Z.leb_le in E. exists string. repeat split; try assumption.
    destruct (contents string) as [a|]; [exists a; split; [reflexivity|lia] | lia].
  - apply Z.leb_gt in E.
    destruct (heapStringNextAllocationSize_exits minimumCapacity Hmax)
      as (p & Hp & H1 & H2 & H3).
    rewrite Hp. cbn [bind].
    replace (p <=? 0) with false by (symmetry; apply Z.leb_gt; lia).
    unfold memset0.
    assert (Hroom : length string
                    + len (repeat NUL (Z.to_nat (wrap (p - length string))))
                    <= len (realloc (contents string) p)).
    { rewrite len_repeat, len_realloc by lia.
      rewrite wrap_small by lia. lia. }
    destruct (blit_Some (realloc (contents string) p) (length string) _ Hlen Hroom)
      as (a' & Ha' & Hl).
    rewrite Ha'. cbn. eexists. split; [reflexivity|]. cbn.
    repeat split; try lia. exists a'. split; [reflexivity|].
    rewrite Hl, len_realloc; lia.
Qed.

Lemma blit_at_0 {A} (a src : list A) :
  len src <= len a ->
  blit a 0 src = Some (src ++ skipn (List.length src) a).
Proof.
  intros H. unfold blit.
  replace ((0 <=? 0) && (0 + len src <=? len a)) with true
    by (symmetry; apply andb_true_iff; split; apply Z.leb_le; lia).
  reflexivity.
Qed.

Lemma store_after {A} (src rest : list A) (x y : A) :
  store (src ++ y :: rest) (len src) x = Some (src ++ x :: rest).
Proof.
  unfold store.
  replace ((0 <=? len src) && (len src <? len (src ++ y :: rest))) with true.
  - unfold len. rewrite Nat2Z.id. f_equal.
    induction src as [|z src IH]; cbn [List.length firstn skipn app].
    + reflexivity.
    + f_equal. exact IH.
  - symmetry. apply andb_true_iff. split.
    + apply Z.leb_le. apply len_nonneg.
    + apply Z.ltb_lt. rewrite len_app. unfold len. cbn [List.length]. lia.
Qed.

(** [heapStringSetToCString] returns a terminated string that holds the
    text: read back as a C string, the contents are the text, whatever
    the string held before. *)
Lemma heapStringSetToCString_holds_the_text (heapString : HeapString)
    (cString : list ascii) :
  allocated_ok heapString ->
  length heapString <= capacity heapString ->
  strlen cString + 1 <= 2 ^ 63 ->
  exists s' a, heapStringSetToCString heapString cString = Ok s' /\
               terminated s' /\
               length s' = strlen cString /\
               contents s' = Some a /\
               cstring a = cstring cString.
Proof.
  intros Hok Hfit Hb. unfold heapStringSetToCString.
  assert (Hs : 0 <= strlen cString) by apply len_nonneg.
  rewrite (wrap_small (strlen cString + 1)) by lia.
  destruct (heapStringReallocIfNeeded_fits heapString (strlen cString + 1) Hok Hfit)
    as (s1 & -> & Hl1 & Hc1 & Hc64 & a & Ha & Hcap); [lia|].
  cbn [bind]. unfold copy_in. rewrite Ha.
  rewrite blit_at_0 by (change (len (cstring cString)) with (strlen cString); lia).
  cbn [from_option bind]. unfold poke, set_length. cbn [contents length capacity].
  assert (Hrest : exists y rest,
             skipn (List.length (cstring cString)) a = y :: rest).
  { destruct (skipn (List.length (cstring cString)) a) as [|y rest] eqn:E.
    - apply (f_equal (@List.length _)) in E. rewrite length_skipn in E.
      cbn in E. unfold strlen, len in *. lia.
    - now exists y, rest. }
  destruct Hrest as (y & rest & Hrest). rewrite Hrest.
  change (strlen cString) with (len (cstring cString)).
  rewrite store_after. cbn [from_option bind].
  do 2 eexists. split; [reflexivity|]. cbn [contents length capacity].
  assert (Hlen : len (cstring cString ++ NUL :: rest) = len a).
  { pose proof (f_equal (@List.length _) Hrest) as E.
    rewrite length_skipn in E. cbn [List.length] in E.
    rewrite len_app. unfold len in *. cbn [List.length]. unfold strlen, len in *. lia. }
  split; [|split; [reflexivity|split; [reflexivity|]]].
  - unfold terminated. cbn [contents length capacity].
    change (len (cstring cString)) with (strlen cString).
    split; [lia|]. eexists. split; [reflexivity|].
    rewrite Hlen. repeat split; try lia.
    unfold load, strlen, len. rewrite Nat2Z.id.
    rewrite app_nth2 by lia. now rewrite Nat.sub_diag.
  - apply cstring_app_NUL, cstring_no_NUL.
Qed.

(** [responseAllocHTMLWithStatus] returns, on any page, and the response
    carries the page as its body, but always the code 200 and the status
    OK, whatever code and status it is called with. *)
Lemma responseAllocHTMLWithStatus_is_200 (code : Z) (status html : list ascii) :
  strlen html + 1 <= 2 ^ 63 ->
  exists response a,
    Resp.responseAllocHTMLWithStatus code status html = Ok response /\
    Resp.code response = 200 /\
    Resp.status response = Some (bytes "OK") /\
    Resp.contentType response = Some (bytes "text/html; charset=UTF-8") /\
    Resp.filenameToSend response = None /\
    terminated (Resp.body response) /\
    length (Resp.body response) = strlen html /\
    contents (Resp.body response) = Some a /\
    cstring a = cstring html.
Proof.
  intros Hb. unfold Resp.responseAllocHTMLWithStatus.
  destruct (heapStringSetToCString_holds_the_text
              (Resp.body (Resp.responseAlloc 200 (Some (bytes "OK"))
                            (Some (bytes "text/html; charset=UTF-8")) 0)) html)
    as (b & a & -> & Ht & Hl & Ha & Hc); try assumption.
  - unfold allocated_ok. cbn. repeat split; lia.
  - cbn. lia.
  - cbn [bind]. exists (Resp.set_body
                          (Resp.responseAlloc 200 (Some (bytes "OK"))
                             (Some (bytes "text/html; charset=UTF-8")) 0) b), a.
    split; [reflexivity|]. split; [reflexivity|]. split; [reflexivity|].
    split; [reflexivity|]. split; [reflexivity|]. cbn [Resp.body Resp.set_body].
    split; [assumption|]. split; [assumption|]. split; assumption.
Qed.

(** C2. For a decoded path that [pathEscapesDocumentRoot] reports,
    [responseAllocServeFileFromRequestPath] returns a response, and its
    code is 200 with the status OK: the 403 and Forbidden that the function
    passes on are dropped by [responseAllocHTMLWithStatus]. *)
Theorem C2_traversal_is_answered_with_200
    (pathInformationGet : list ascii -> Z * Resp.PathInformation)
    (directory : list ascii -> option (list (list ascii)))
    (OptionListDirectoryContents : bool)
    (requestPath requestPathDecoded documentRoot : list ascii) :
  Path.pathEscapesDocumentRoot requestPathDecoded = true ->
  exists response,
    Resp.responseAllocServeFileFromRequestPath pathInformationGet directory
      OptionListDirectoryContents requestPath requestPathDecoded documentRoot
    = Ok response /\
    Resp.code response = 200 /\
    Resp.status response = Some (bytes "OK").
Proof.
  intros Hesc. unfold Resp.responseAllocServeFileFromRequestPath. rewrite Hesc.
  destruct (responseAllocHTMLWithStatus_is_200 403 (bytes "Forbidden")
              (bytes "<html><head><title>Forbidden</title></head><body>You are not allowed to access this URL</body></html>"))
    as (response & a & H & Hcode & Hstatus & _).
  - vm_compute. congruence.
  - exists response. split; [exact H|]. split; assumption.
Qed.

Lemma C2_witness :
  Path.pathEscapesDocumentRoot (bytes "/..") = true /\
  exists response,
    Resp.responseAllocServeFileFromRequestPath Resp.no_file Resp.no_directory true
      (bytes "/..") (bytes "/..") (bytes ".")
    = Ok response /\
    Resp.code response = 200 /\
    Resp.status response = Some (bytes "OK").
Proof.
  split; [reflexivity|].
  apply C2_traversal_is_answered_with_200. reflexivity.
Defined.

(** *** sendResponseBody *)

Lemma firstn_len_app {A} (a b : list A) : firstn (Z.to_nat (len a)) (a ++ b) = a.
Proof.
  unfold len. rewrite Nat2Z.id.
  rewrite firstn_app, firstn_all, Nat.sub_diag. cbn [firstn]. apply app_nil_r.
Qed.

Lemma firstn_len {A} (a : list A) : firstn (Z.to_nat (len a)) a = a.
Proof. unfold len. rewrite Nat2Z.id. apply firstn_all. Qed.

(** *** The numbers of a format *)

Lemma digits_of_uint_acc (d : Decimal.uint) :
  forall acc : positive,
    Parser.digits (bytes (NilEmpty.string_of_uint d)) (Z.pos acc)
    = Z.pos (Pos.of_uint_acc d acc).
Proof.
  induction d as [|d IH|d IH|d IH|d IH|d IH|d IH|d IH|d IH|d IH|d IH]; intros acc;
    [reflexivity|..];
    cbn [NilEmpty.string_of_uint bytes list_ascii_of_string Parser.digits
         Pos.of_uint_acc];
    (match goal with
     | |- context [Parser.isdigit ?c] => change (Parser.isdigit c) with true
     end);
    cbv iota;
    (match goal with
     | |- context [ord ?c - 48] =>
         let k := eval vm_compute in (ord c - 48) in change (ord c - 48) with k
     end);
    rewrite <- IH; f_equal; lia.
Qed.

Lemma digits_of_uint (d : Decimal.uint) :
  Parser.digits (bytes (NilEmpty.string_of_uint d)) 0 = Z.of_N (Pos.of_uint d).
Proof.
  induction d as [|d IH|d IH|d IH|d IH|d IH|d IH|d IH|d IH|d IH|d IH];
    [reflexivity | exact IH |..];
    cbn [NilEmpty.string_of_uint bytes list_ascii_of_string Parser.digits Pos.of_uint];
    (match goal with
     | |- context [Parser.isdigit ?c] => change (Parser.isdigit c) with true
     end);
    cbv iota;
    (match goal with
     | |- context [ord ?c - 48] =>
         let k := eval vm_compute in (ord c - 48) in change (ord c - 48) with k
     end);
    cbn [Z.mul Z.add Z.of_N]; apply digits_of_uint_acc.
Qed.

Lemma isdigit_of_uint (d : Decimal.uint) :
  Forall (fun c => Parser.isdigit c = true) (bytes (NilEmpty.string_of_uint d)).
Proof.
  induction d; cbn [NilEmpty.string_of_uint bytes list_ascii_of_string];
    constructor; (reflexivity || assumption).
Qed.

Lemma unorm_head (d d' : Decimal.uint) :
  Decimal.unorm d = Decimal.D0 d' -> d' = Decimal.Nil.
Proof.
  induction d; cbn [Decimal.unorm]; intros H; try discriminate.
  - inversion H. reflexivity.
  - auto.
Qed.

(** A number above 0 is written without a leading zero. *)
Lemma decimal_no_leading_zero (n : Z) :
  0 < n -> hd_error (Resp.decimal n) <> Some "0"%char.
Proof.
  intros Hn. unfold Resp.decimal. destruct n as [|p|p]; [lia| |lia].
  cbn [Z.to_int NilZero.string_of_int]. unfold NilZero.string_of_uint.
  pose proof (Unsigned.to_of (Pos.to_uint p)) as Hnorm.
  rewrite Unsigned.of_to in Hnorm. cbn [N.to_uint] in Hnorm.
  pose proof (Unsigned.to_uint_nonzero p) as Hnz.
  destruct (Pos.to_uint p) as [|d|d|d|d|d|d|d|d|d|d] eqn:E;
    try (cbn; discriminate).
  symmetry in Hnorm. apply unorm_head in Hnorm. subst d.
  exfalso. apply Hnz. reflexivity.
Qed.

(** What [decimal] writes for a number that is not negative are decimal
    digits, at least one, and they read back as the number. *)
Lemma decimal_reads_back (n : Z) :
  0 <= n ->
  Resp.decimal n <> [] /\
  Forall (fun c => Parser.isdigit c = true) (Resp.decimal n) /\
  Parser.digits (Resp.decimal n) 0 = n.
Proof.
  intros Hn. unfold Resp.decimal. destruct n as [|p|p]; [| |lia].
  - split; [discriminate|]. split; [repeat constructor | reflexivity].
  - cbn [Z.to_int NilZero.string_of_int]. unfold NilZero.string_of_uint.
    pose proof (Unsigned.of_to p) as Hp.
    destruct (Pos.to_uint p) eqn:E; [discriminate Hp|..];
      (split; [discriminate|]; split; [apply isdigit_of_uint|];
       rewrite digits_of_uint, Hp; reflexivity).
Qed.

(** C4, as the code has it.  For a response with a body, a status and a
    content type, whose header block fits the header buffer, and a socket
    that takes all the bytes of both calls of [send]: what goes to the
    socket is the status line [HTTP/1.0 <code> <status>], the line
    [Content-Type: <type>], the line [Content-Length: <n>] with the length
    of the body, the line [Server: Embeddable Web Server/1.0.0], the empty
    line, and then the [length] bytes of the body, and nothing else; the
    call returns 0 and counts all these bytes.  The code and the length are
    written in decimal: digits only, no leading zero before the length, and
    they read back as the number; the status and the content type are
    written up to their NUL. *)
Theorem C4_wire_format
    (responseHeader : list ascii) (response : Resp.Response) (bytesSent0 : Z)
    (status contentType data header : list ascii) :
  header
  = bytes "HTTP/1.0 " ++ Resp.decimal (Resp.code response) ++ bytes " "
    ++ cstring status ++ [CR; LF]
    ++ bytes "Content-Type: " ++ cstring contentType ++ [CR; LF]
    ++ bytes "Content-Length: " ++ Resp.decimal (length (Resp.body response))
    ++ [CR; LF]
    ++ bytes "Server: Embeddable Web Server/1.0.0" ++ [CR; LF]
    ++ [CR; LF] ->
  len responseHeader = Resp.RESPONSE_HEADER_SIZE ->
  Resp.status response = Some status ->
  Resp.contentType response = Some contentType ->
  0 < length (Resp.body response) < 2 ^ 63 ->
  contents (Resp.body response) = Some data ->
  length (Resp.body response) <= len data ->
  len header < Resp.RESPONSE_HEADER_SIZE ->
  Resp.sendResponseBody responseHeader response bytesSent0
    (len header) (length (Resp.body response))
  = Ok {| Resp.wire :=
            header ++ firstn (Z.to_nat (length (Resp.body response))) data;
          Resp.bytesSent := bytesSent0 + len header + length (Resp.body response);
          Resp.result := 0 |} /\
  (Forall (fun c => Parser.isdigit c = true)
     (Resp.decimal (length (Resp.body response))) /\
   hd_error (Resp.decimal (length (Resp.body response))) <> Some "0"%char /\
   Parser.digits (Resp.decimal (length (Resp.body response))) 0
   = length (Resp.body response)) /\
  (0 <= Resp.code response ->
   Resp.decimal (Resp.code response) <> [] /\
   Forall (fun c => Parser.isdigit c = true) (Resp.decimal (Resp.code response)) /\
   Parser.digits (Resp.decimal (Resp.code response)) 0 = Resp.code response).
Proof.
  intros Hheader Hbuf Hst Hct [Hpos Hlong] Hdata Hfit Hsmall.
  split; [|split; [split; [apply decimal_reads_back; lia|];
                   split; [now apply decimal_no_leading_zero
                          | apply decimal_reads_back; lia]
                  | intros Hcode; now apply decimal_reads_back]].
  assert (Htext : Resp.header_text (Resp.code response) status contentType
                    (length (Resp.body response)) = header).
  { rewrite Hheader. unfold Resp.header_text, Resp.long_of_size_t.
    replace (length (Resp.body response) <? 2 ^ 63) with true
      by (symmetry; now apply Z.ltb_lt).
    reflexivity. }
  clear Hheader.
  unfold Resp.sendResponseBody. rewrite Hst, Hct. cbn [from_option bind].
  rewrite Htext.
  unfold Resp.RESPONSE_HEADER_SIZE in *.
  pose proof (len_nonneg header) as Hh.
  unfold Resp.snprintf.
  rewrite firstn_all2 by (unfold len in *; lia).
  rewrite blit_at_0
    by (rewrite len_app; change (len [NUL]) with 1; lia).
  cbn [from_option bind]. unfold Resp.read_buffer.
  replace ((0 <=? len header)
           && (len header <=? len ((header ++ [NUL])
                                   ++ skipn (List.length (header ++ [NUL])) responseHeader)))
    with true.
  2:{ symmetry. apply andb_true_iff. split; apply Z.leb_le; [lia|].
      rewrite !len_app. pose proof (len_nonneg [NUL]).
      pose proof (len_nonneg (skipn (List.length (header ++ [NUL])) responseHeader)).
      lia. }
  cbn [bind]. rewrite <- app_assoc, firstn_len_app.
  rewrite Z.eqb_refl. cbn [negb].
  replace (0 <? length (Resp.body response)) with true
    by (symmetry; now apply Z.ltb_lt).
  unfold read_bytes. rewrite Hdata.
  replace (length (Resp.body response) =? 0) with false
    by (symmetry; apply Z.eqb_neq; lia).
  replace (length (Resp.body response) <=? len data) with true
    by (symmetry; now apply Z.leb_le).
  cbn [bind]. rewrite Z.eqb_refl. cbn [negb].
  rewrite firstn_len, firstn_firstn, Nat.min_id. reflexivity.
Qed.

Lemma C4_witness :
  Resp.sendResponseBody (zeros 1024) Resp.sample_response 0
    (len (bytes "HTTP/1.0 200 OK" ++ [CR; LF]
          ++ bytes "Content-Type: text/plain" ++ [CR; LF]
          ++ bytes "Content-Length: 2" ++ [CR; LF]
          ++ bytes "Server: Embeddable Web Server/1.0.0" ++ [CR; LF]
          ++ [CR; LF])) 2
  = Ok {| Resp.wire :=
            (bytes "HTTP/1.0 200 OK" ++ [CR; LF]
             ++ bytes "Content-Type: text/plain" ++ [CR; LF]
             ++ bytes "Content-Length: 2" ++ [CR; LF]
             ++ bytes "Server: Embeddable Web Server/1.0.0" ++ [CR; LF]
             ++ [CR; LF])
            ++ bytes "hi";
          Resp.bytesSent :=
            0 + len (bytes "HTTP/1.0 200 OK" ++ [CR; LF]
                     ++ bytes "Content-Type: text/plain" ++ [CR; LF]
                     ++ bytes "Content-Length: 2" ++ [CR; LF]
                     ++ bytes "Server: Embeddable Web Server/1.0.0" ++ [CR; LF]
                     ++ [CR; LF]) + 2;
          Resp.result := 0 |} /\
  (Forall (fun c => Parser.isdigit c = true) (Resp.decimal 2) /\
   hd_error (Resp.decimal 2) <> Some "0"%char /\
   Parser.digits (Resp.decimal 2) 0 = 2) /\
  (0 <= 200 ->
   Resp.decimal 200 <> [] /\
   Forall (fun c => Parser.isdigit c = true) (Resp.decimal 200) /\
   Parser.digits (Resp.decimal 200) 0 = 200).
Proof.
  apply (C4_wire_format (zeros 1024) Resp.sample_response 0
           (bytes "OK") (bytes "text/plain") (bytes "hi" ++ [NUL]));
    try (vm_compute; reflexivity); vm_compute; try split; congruence.
Defined.

(** C4 as the claim words it fails on every response: the header block
    that is sent has a Server line between the Content-Length line and the
    empty line.  Here for a response with the body [hi]. *)
Lemma C4_header_has_a_Server_line :
  Resp.sendResponseBody (zeros 1024) Resp.sample_response 0
    (len (Resp.header_text 200 (bytes "OK") (bytes "text/plain") 2)) 2
  = Ok {| Resp.wire :=
            bytes "HTTP/1.0 200 OK" ++ [CR; LF]
            ++ bytes "Content-Type: text/plain" ++ [CR; LF]
            ++ bytes "Content-Length: 2" ++ [CR; LF]
            ++ bytes "Server: Embeddable Web Server/1.0.0" ++ [CR; LF]
            ++ [CR; LF] ++ bytes "hi";
          Resp.bytesSent := 103;
          Resp.result := 0 |} /\
  bytes "HTTP/1.0 200 OK" ++ [CR; LF]
  ++ bytes "Content-Type: text/plain" ++ [CR; LF]
  ++ bytes "Content-Length: 2" ++ [CR; LF]
  ++ bytes "Server: Embeddable Web Server/1.0.0" ++ [CR; LF]
  ++ [CR; LF] ++ bytes "hi"
  <> Resp.header_of_the_specification Resp.sample_response ++ bytes "hi".
Proof.
  split; [vm_compute; reflexivity|].
  intros H. apply (f_equal (@List.length _)) in H. vm_compute in H. discriminate.
Qed.

End ResponseFacts.

(** * Further properties *)

(** ** heapStringNextAllocationSize *)

Section AllocationSize.
Import HeapStr.

Lemma doubling_least (required : Z) (fuel : nat) :
  required <= 2 ^ 63 ->
  forall k, 8 <= k <= 63 -> 63 - k <= Z.of_nat fuel ->
            (k = 8 \/ 2 ^ (k - 1) < required) ->
  exists j, doubling fuel (2 ^ k) required = Ok (2 ^ j) /\
            8 <= j <= 63 /\ required <= 2 ^ j /\
            (j = 8 \/ 2 ^ (j - 1) < required).
Proof.
  intros Hreq. induction fuel as [|fuel IH]; intros k Hk Hfuel Hleast.
  - assert (k = 63) by lia. subst k. cbn [doubling].
    destruct (2 ^ 63 <? required) eqn:E.
    + apply Z.ltb_lt in E. lia.
    + exists 63. apply Z.ltb_ge in E. repeat split; try lia; try assumption.
  - cbn [doubling]. destruct (2 ^ k <? required) eqn:E.
    + apply Z.ltb_lt in E.
      assert (k < 63).
      { destruct (Z.eq_dec k 63); [subst; lia | lia]. }
      replace (wrap (2 ^ k * 2)) with (2 ^ (k + 1)).
      * apply IH; try lia. right. now replace (k + 1 - 1) with k by lia.
      * rewrite wrap_small; [rewrite Z.pow_add_r by lia; lia|].
        split; [apply Z.mul_nonneg_nonneg; [apply Z.pow_nonneg|]; lia|].
        replace (2 ^ k * 2) with (2 ^ (k + 1)) by (rewrite Z.pow_add_r by lia; lia).
        apply Z.pow_lt_mono_r; lia.
    + apply Z.ltb_ge in E. exists k. repeat split; try lia; try assumption.
Qed.

(** The size that is allocated is the least power of two that is at least
    256 and at least the size that is required. *)
Theorem heapStringNextAllocationSize_least (required : Z) :
  required <= 2 ^ 63 ->
  exists j, heapStringNextAllocationSize required = Ok (2 ^ j) /\
            8 <= j <= 63 /\ required <= 2 ^ j /\
            (j = 8 \/ 2 ^ (j - 1) < required).
Proof.
  intros H. unfold heapStringNextAllocationSize. change 256 with (2 ^ 8).
  apply doubling_least; try assumption; try lia.
Qed.

Lemma heapStringNextAllocationSize_least_witness :
  300 <= 2 ^ 63 /\
  exists j, heapStringNextAllocationSize 300 = Ok (2 ^ j) /\
            8 <= j <= 63 /\ 300 <= 2 ^ j /\
            (j = 8 \/ 2 ^ (j - 1) < 300).
Proof.
  split; [lia|]. apply heapStringNextAllocationSize_least. lia.
Defined.

Lemma doubling_hangs (required : Z) (fuel : nat) :
  2 ^ 63 < required ->
  forall k, 0 <= k <= 63 -> doubling fuel (2 ^ k) required = Crash Hang.
Proof.
  intros Hreq. induction fuel as [|fuel IH]; intros k Hk; cbn [doubling].
  - replace (2 ^ k <? required) with true; [reflexivity|].
    symmetry. apply Z.ltb_lt.
    assert (2 ^ k <= 2 ^ 63) by (apply Z.pow_le_mono_r; lia). lia.
  - replace (2 ^ k <? required) with true.
    2:{ symmetry. apply Z.ltb_lt.
        assert (2 ^ k <= 2 ^ 63) by (apply Z.pow_le_mono_r; lia). lia. }
    destruct (Z.eq_dec k 63) as [->|Hne].
    + change (wrap (2 ^ 63 * 2)) with 0. apply doubling_zero_hangs. lia.
    + replace (wrap (2 ^ k * 2)) with (2 ^ (k + 1)); [apply IH; lia|].
      rewrite wrap_small; [rewrite Z.pow_add_r by lia; lia|].
      split; [apply Z.mul_nonneg_nonneg; [apply Z.pow_nonneg|]; lia|].
      replace (2 ^ k * 2) with (2 ^ (k + 1)) by (rewrite Z.pow_add_r by lia; lia).
      apply Z.pow_lt_mono_r; lia.
Qed.

(** For a size above [2 ^ 63] the doubling loop never exits: the power of
    two wraps around to 0 before it reaches the size, whatever the number
    of turns. *)
Theorem heapStringNextAllocationSize_never_exits (required : Z) (fuel : nat) :
  2 ^ 63 < required ->
  heapStringNextAllocationSize required = Crash Hang /\
  doubling fuel 256 required = Crash Hang.
Proof.
  intros H. unfold heapStringNextAllocationSize. change 256 with (2 ^ 8).
  split; apply doubling_hangs; try assumption; lia.
Qed.

Lemma heapStringNextAllocationSize_never_exits_witness :
  2 ^ 63 < 2 ^ 63 + 1 /\
  heapStringNextAllocationSize (2 ^ 63 + 1) = Crash Hang /\
  doubling 1000 256 (2 ^ 63 + 1) = Crash Hang.
Proof.
  split; [lia|]. apply heapStringNextAllocationSize_never_exits. lia.
Defined.

End AllocationSize.

(** ** pathEscapesDocumentRoot *)

Section PathFacts.
Import Path.

Lemma int_small (z : Z) : INT_MIN <= z <= INT_MAX -> int z = z.
Proof.
  unfold int, INT_MIN, INT_MAX. intros H.
  rewrite Z.mod_small by lia. lia.
Qed.

(** Scanning a path without two dots in a row from a depth that is not
    negative: the depth stays so, and it grows by one for each byte at
    most, so that the [int] does not overflow on a path of less than
    [2 ^ 31] bytes.  In the state [PathStateDot] the next byte is not a
    dot. *)
Lemma scan_without_dotdot (path : list ascii) :
  forall l,
    0 <= subdirDepth l ->
    subdirDepth l + strlen path <= INT_MAX ->
    has_dotdot path = false ->
    (state l = PathStateDot ->
     match path with c :: _ => chr_is c "." = false | [] => True end) ->
    0 <= subdirDepth (scan path l).
Proof.
  induction path as [|c rest IH]; intros l Hd Hmax Hno Hdot; cbn [scan].
  - assumption.
  - unfold strlen in Hmax. cbn [cstring] in Hmax.
    destruct (Ascii.eqb c NUL); [assumption|].
    change (len (c :: cstring rest)) with (Z.of_nat (S (List.length (cstring rest))))
      in Hmax.
    assert (Hlen : 0 <= strlen rest) by (unfold strlen, len; lia).
    assert (Hstep : subdirDepth l + 1 + strlen rest <= INT_MAX)
      by (unfold strlen, len in *; lia).
    assert (Hint : int (subdirDepth l + 1) = subdirDepth l + 1)
      by (apply int_small; unfold INT_MIN, INT_MAX in *; lia).
    apply IH.
    + unfold step. destruct (state l) eqn:Es.
      * destruct (chr_is c "/" || chr_is c "\"); [exact Hd|].
        destruct (isFirstChar l && chr_is c "."); [exact Hd|].
        destruct (isFirstChar l); cbn [subdirDepth]; rewrite ?Hint; lia.
      * destruct (chr_is c "."); [exact Hd|].
        destruct (negb (chr_is c "/") && negb (chr_is c "\"));
          [cbn [subdirDepth]; rewrite Hint; lia | exact Hd].
      * rewrite (Hdot eq_refl). destruct (chr_is c "/"); exact Hd.
    + unfold step. destruct (state l) eqn:Es.
      * destruct (chr_is c "/" || chr_is c "\"); [cbn [subdirDepth]; lia|].
        destruct (isFirstChar l && chr_is c "."); [cbn [subdirDepth]; lia|].
        destruct (isFirstChar l); cbn [subdirDepth]; rewrite ?Hint; lia.
      * destruct (chr_is c "."); [cbn [subdirDepth]; lia|].
        destruct (negb (chr_is c "/") && negb (chr_is c "\"));
          [cbn [subdirDepth]; rewrite Hint; lia | lia].
      * rewrite (Hdot eq_refl). destruct (chr_is c "/"); cbn [subdirDepth]; lia.
    + cbn [has_dotdot] in Hno. destruct rest as [|d rest']; [reflexivity|].
      apply orb_false_iff in Hno. apply Hno.
    + intros Hs. destruct rest as [|d rest']; [exact I|].
      cbn [has_dotdot] in Hno. apply orb_false_iff in Hno. destruct Hno as [Hno _].
      assert (Hc : chr_is c "." = true).
      { revert Hs. unfold step. destruct (state l) eqn:Es.
        - destruct (chr_is c "/" || chr_is c "\"); [discriminate|].
          destruct (chr_is c "."); [reflexivity|].
          rewrite andb_false_r. destruct (isFirstChar l); discriminate.
        - destruct (chr_is c "."); [reflexivity|].
          destruct (negb (chr_is c "/") && negb (chr_is c "\")); [discriminate|].
          congruence.
        - rewrite (Hdot eq_refl). destruct (chr_is c "/"); discriminate. }
      rewrite Hc in Hno. cbn in Hno. exact Hno.
Qed.

(** A path is reported only if it has two dots in a row: a path of less
    than [2 ^ 31] bytes without [..] is never refused.  The bound keeps the
    [int] counter from overflowing, so that this holds whatever an overflow
    would do; a decoded request path has 1023 bytes at most. *)
Theorem pathEscapesDocumentRoot_needs_dotdot (path : list ascii) :
  strlen path <= INT_MAX ->
  has_dotdot path = false -> pathEscapesDocumentRoot path = false.
Proof.
  intros Hlen H. unfold pathEscapesDocumentRoot. apply Z.ltb_ge.
  apply scan_without_dotdot;
    [cbn; lia | cbn [subdirDepth initial]; lia | assumption | discriminate].
Qed.

Lemma pathEscapesDocumentRoot_needs_dotdot_witness :
  strlen (bytes "/dir1/.hidden/file.tar.gz") <= INT_MAX /\
  has_dotdot (bytes "/dir1/.hidden/file.tar.gz") = false /\
  pathEscapesDocumentRoot (bytes "/dir1/.hidden/file.tar.gz") = false.
Proof.
  split; [vm_compute; discriminate|]. split; [reflexivity|].
  apply pathEscapesDocumentRoot_needs_dotdot; [vm_compute; discriminate | reflexivity].
Defined.

End PathFacts.

(** ** strEndsWith and strcasecmp *)

Section StringFacts.

Lemma same_bytes_eq (a b : list ascii) : Resp.same_bytes a b = true <-> a = b.
Proof.
  revert b. induction a as [|c a IH]; intros [|d b]; cbn [Resp.same_bytes];
    try (split; [discriminate | congruence]); [tauto|].
  rewrite andb_true_iff, Ascii.eqb_eq, IH. split.
  - intros [-> ->]. reflexivity.
  - intros H. inversion H. tauto.
Qed.

(** [strEndsWith] is true exactly when the first C string is some bytes
    followed by the second one. *)
Theorem strEndsWith_suffix (big endsWith : list ascii) :
  Resp.strEndsWith big endsWith = true <->
  exists front, cstring big = front ++ cstring endsWith.
Proof.
  unfold Resp.strEndsWith, strlen, len.
  destruct (Z.of_nat (List.length (cstring big))
            <? Z.of_nat (List.length (cstring endsWith))) eqn:E.
  - apply Z.ltb_lt in E. split; [discriminate|].
    intros [front H]. apply (f_equal (@List.length _)) in H.
    rewrite length_app in H. lia.
  - apply Z.ltb_ge in E. rewrite same_bytes_eq.
    remember (Z.to_nat (Z.of_nat (List.length (cstring big))
                        - Z.of_nat (List.length (cstring endsWith)))) as n eqn:En.
    split.
    + intros H. exists (firstn n (cstring big)).
      rewrite <- H. symmetry. apply firstn_skipn.
    + intros [front H].
      assert (Hn : n = List.length front).
      { apply (f_equal (@List.length _)) in H. rewrite length_app in H. lia. }
      rewrite H, Hn, skipn_app, skipn_all, Nat.sub_diag. reflexivity.
Qed.

Lemma ord_injective (c d : ascii) : ord c = ord d -> c = d.
Proof.
  unfold ord. intros H. apply N2Z.inj in H.
  rewrite <- (ascii_N_embedding c), <- (ascii_N_embedding d). now rewrite H.
Qed.

Lemma ord_range (c : ascii) : 0 <= ord c < 256.
Proof.
  unfold ord. pose proof (N_ascii_bounded c). lia.
Qed.

Lemma ord_NUL (c : ascii) : ord c = 0 -> c = NUL.
Proof. intros H. apply ord_injective. exact H. Qed.

Lemma tolower_not_NUL (c : ascii) : c <> NUL -> ord (Parser.tolower c) <> 0.
Proof.
  intros Hc. unfold Parser.tolower.
  destruct ((65 <=? ord c) && (ord c <=? 90)) eqn:E.
  - apply andb_true_iff in E. destruct E as [E1 E2].
    apply Z.leb_le in E1. apply Z.leb_le in E2.
    unfold ord at 1. rewrite N_ascii_embedding by lia. lia.
  - intros H. apply Hc. now apply ord_NUL.
Qed.

Lemma strcasecmp_loop_0 (a : list ascii) :
  forall b,
    Forall (fun c => c <> NUL) a -> Forall (fun c => c <> NUL) b ->
    (Parser.strcasecmp_loop a b = 0 <-> map Parser.tolower a = map Parser.tolower b).
Proof.
  induction a as [|c a IH]; intros [|d b] Ha Hb; cbn [Parser.strcasecmp_loop map].
  - tauto.
  - inversion Hb; subst. pose proof (tolower_not_NUL d H1).
    split; [lia | discriminate].
  - inversion Ha; subst. pose proof (tolower_not_NUL c H1).
    split; [lia | discriminate].
  - inversion Ha; subst. inversion Hb; subst.
    destruct (Ascii.eqb (Parser.tolower c) (Parser.tolower d)) eqn:E.
    + apply Ascii.eqb_eq in E. rewrite E, IH by assumption.
      split; [congruence | intros H; now inversion H].
    + apply Ascii.eqb_neq in E. split.
      * intros H. exfalso. apply E. apply ord_injective. lia.
      * intros H. inversion H. contradiction.
Qed.

(** [strcasecmp] returns 0 exactly for two C strings that are equal once
    the upper case letters A to Z are made lower case. *)
Theorem strcasecmp_0 (a b : list ascii) :
  Parser.strcasecmp a b = 0 <->
  map Parser.tolower (cstring a) = map Parser.tolower (cstring b).
Proof.
  unfold Parser.strcasecmp. apply strcasecmp_loop_0; apply cstring_no_NUL.
Qed.

End StringFacts.

(** ** HeapString: what the appends put into the string *)

Section HeapStringText.
Import HeapStr.

Lemma blit_explicit {A} (a src : list A) (i : Z) :
  0 <= i -> i + len src <= len a ->
  blit a i src
  = Some (firstn (Z.to_nat i) a ++ src ++ skipn (Z.to_nat i + List.length src) a).
Proof.
  intros H0 H1. unfold blit.
  replace ((0 <=? i) && (i + len src <=? len a)) with true
    by (symmetry; apply andb_true_iff; split; apply Z.leb_le; lia).
  reflexivity.
Qed.

Lemma store_explicit {A} (a : list A) (i : Z) (x : A) :
  0 <= i < len a ->
  store a i x = Some (firstn (Z.to_nat i) a ++ x :: skipn (S (Z.to_nat i)) a).
Proof.
  intros H. unfold store.
  replace ((0 <=? i) && (i <? len a)) with true
    by (symmetry; apply andb_true_iff; split; [apply Z.leb_le | apply Z.ltb_lt]; lia).
  reflexivity.
Qed.

Lemma firstn_app_left {A} (l r : list A) (n : nat) :
  List.length l = n -> firstn n (l ++ r) = l.
Proof.
  intros <-. rewrite firstn_app, firstn_all, Nat.sub_diag. cbn. apply app_nil_r.
Qed.

Lemma length_firstn_le {A} (a : list A) (n : nat) :
  (n <= List.length a)%nat -> List.length (firstn n a) = n.
Proof. intros H. rewrite length_firstn. lia. Qed.

(** The end of every append: the new bytes are copied behind the text,
    the length is raised and a NUL is stored behind the new text. *)
Lemma write_tail (s1 : HeapString) (a1 src : list ascii)
    (k : HeapString -> outcome HeapString) :
  contents s1 = Some a1 -> 0 <= length s1 -> length s1 + len src < len a1 ->
  (forall s2, length s2 = length s1 ->
              k s2 = poke (set_length s2 (length s1 + len src))
                       (length s1 + len src) NUL) ->
  exists a3,
    bind (copy_in s1 (length s1) src) k
    = Ok {| contents := Some a3; length := length s1 + len src;
            capacity := capacity s1 |} /\
    len a3 = len a1 /\
    firstn (Z.to_nat (length s1 + len src)) a3
    = firstn (Z.to_nat (length s1)) a1 ++ src /\
    load a3 (length s1 + len src) = NUL.
Proof.
  intros Ha H0 Hfit Hk. pose proof (len_nonneg src) as Hsrc.
  unfold copy_in. rewrite Ha.
  rewrite blit_explicit by lia. cbn [from_option bind].
  rewrite Hk by reflexivity.
  unfold poke, set_length. cbn [contents length capacity].
  set (a2 := firstn (Z.to_nat (length s1)) a1 ++ src
             ++ skipn (Z.to_nat (length s1) + List.length src) a1).
  assert (Hl2 : len a2 = len a1).
  { unfold a2, len in *. rewrite !length_app, length_firstn, length_skipn. lia. }
  rewrite store_explicit by lia. cbn [from_option bind].
  eexists. split; [reflexivity|].
  assert (Hpre : firstn (Z.to_nat (length s1 + len src)) a2
                 = firstn (Z.to_nat (length s1)) a1 ++ src).
  { unfold a2. rewrite app_assoc. apply firstn_app_left.
    unfold len in *. rewrite length_app, length_firstn. lia. }
  assert (Hn : List.length (firstn (Z.to_nat (length s1 + len src)) a2)
               = Z.to_nat (length s1 + len src)).
  { apply length_firstn_le. unfold len in *. lia. }
  split; [|split].
  - unfold len in *. rewrite length_app, Hn. cbn [List.length].
    rewrite length_skipn. lia.
  - rewrite firstn_app_left by exact Hn. exact Hpre.
  - unfold load. rewrite app_nth2 by lia. rewrite Hn, Nat.sub_diag. reflexivity.
Qed.

(** [heapStringReallocIfNeeded] keeps the text. *)
Lemma heapStringReallocIfNeeded_text (string : HeapString) (minimumCapacity : Z) :
  fits string ->
  0 < minimumCapacity <= 2 ^ 63 ->
  exists s' a,
    heapStringReallocIfNeeded string minimumCapacity = Ok s' /\
    length s' = length string /\
    minimumCapacity <= capacity s' /\
    capacity s' < 2 ^ 64 /\
    contents s' = Some a /\ capacity s' <= len a /\
    firstn (Z.to_nat (length string)) a = text string.
Proof.
  intros [(Hlen & H64 & Hal) Hfit] [Hlt Hmax]. unfold heapStringReallocIfNeeded, text.
  destruct (minimumCapacity <=? capacity string) eqn:E.
  - apply Z.leb_le in E.
    destruct (contents string) as [a|] eqn:Ec; [|lia].
    exists string, a. repeat split; try assumption; lia.
  - apply Z.leb_gt in E.
    destruct (heapStringNextAllocationSize_exits minimumCapacity Hmax)
      as (p & Hp & H1 & H2 & H3).
    rewrite Hp. cbn [bind].
    replace (p <=? 0) with false by (symmetry; apply Z.leb_gt; lia).
    unfold memset0. rewrite blit_explicit;
      [|assumption
       |rewrite len_repeat, len_realloc by lia; rewrite wrap_small by lia; lia].
    cbn [from_option bind]. do 2 eexists. split; [reflexivity|].
    cbn [contents length capacity].
    assert (Hr : len (realloc (contents string) p) = p) by (apply len_realloc; lia).
    split; [reflexivity|]. split; [lia|]. split; [lia|]. split; [reflexivity|].
    split.
    + unfold len in *. rewrite !length_app, length_firstn, length_skipn, repeat_length.
      rewrite wrap_small by lia. lia.
    + rewrite firstn_app_left by (apply length_firstn_le; unfold len in Hr; lia).
      unfold realloc. rewrite firstn_firstn.
      replace (Nat.min (Z.to_nat (length string)) (Z.to_nat p))
        with (Z.to_nat (length string)) by lia.
      destruct (contents string) as [o|].
      * rewrite firstn_app.
        replace (Z.to_nat (length string) - List.length o)%nat with 0%nat
          by (unfold len in Hal; lia).
        cbn [firstn]. apply app_nil_r.
      * assert (length string = 0) by lia.
        replace (Z.to_nat (length string)) with 0%nat by lia. reflexivity.
Qed.

(** What a tail leaves is a terminated string with the longer text. *)
Lemma tail_result (s1 : HeapString) (a1 a3 src : list ascii) (old : list ascii) :
  0 <= length s1 -> length s1 + len src < capacity s1 -> capacity s1 <= len a1 ->
  capacity s1 < 2 ^ 64 ->
  len a3 = len a1 ->
  firstn (Z.to_nat (length s1)) a1 = old ->
  firstn (Z.to_nat (length s1 + len src)) a3
  = firstn (Z.to_nat (length s1)) a1 ++ src ->
  load a3 (length s1 + len src) = NUL ->
  let s' := {| contents := Some a3; length := length s1 + len src;
               capacity := capacity s1 |} in
  terminated s' /\ text s' = old ++ src /\ fits s' /\
  length s' = length s1 + len src.
Proof.
  intros H0 Hfit Hcap H64 Hl Hold Hpre Hnul s'. pose proof (len_nonneg src) as Hsrc.
  split; [|split; [|split]].
  - unfold terminated, s'. cbn. split; [lia|]. exists a3. repeat split; try lia.
    assumption.
  - unfold text, s'. cbn. now rewrite Hpre, Hold.
  - unfold fits, allocated_ok, s'. cbn. repeat split; lia.
  - reflexivity.
Qed.


Lemma poke_is_copy_in (string : HeapString) (i : Z) (c : ascii) :
  poke string i c = copy_in string i [c].
Proof.
  unfold poke, copy_in. destruct (contents string) as [a|]; [|reflexivity].
  unfold store, blit. change (len [c]) with 1.
  replace (i + 1 <=? len a) with (i <? len a).
  - destruct ((0 <=? i) && (i <? len a)); [|reflexivity].
    cbn [List.length app]. now rewrite Nat.add_1_r.
  - destruct (i <? len a) eqn:E; symmetry.
    + apply Z.ltb_lt in E. apply Z.leb_le. lia.
    + apply Z.ltb_ge in E. apply Z.leb_gt. lia.
Qed.

(** [heapStringAppendChar] puts the byte behind the text. *)
Lemma heapStringAppendChar_text (string : HeapString) (c : ascii) :
  fits string -> length string + 2 <= 2 ^ 63 ->
  exists s', heapStringAppendChar string c = Ok s' /\
             text s' = text string ++ [c] /\ fits s' /\
             length s' = length string + 1 /\ terminated s'.
Proof.
  intros Hfits Hb. pose proof Hfits as [(Hlen & _) _].
  unfold heapStringAppendChar.
  rewrite (wrap_small (length string + 2)) by lia.
  destruct (heapStringReallocIfNeeded_text string (length string + 2) Hfits)
    as (s1 & a1 & -> & Hl1 & Hc1 & Hc64 & Ha1 & Hcap & Htext); [lia|].
  cbn [bind]. rewrite poke_is_copy_in.
  match goal with
  | |- context [bind (copy_in s1 (length s1) ?src) ?k] =>
      destruct (write_tail s1 a1 src k Ha1) as (a3 & -> & Hl3 & Hpre & Hnul)
  end.
  - lia.
  - change (len [c]) with 1. lia.
  - intros s2 Hl2. cbv zeta. change (length (set_length s2 ?n)) with n.
    rewrite Hl2, wrap_small by lia. reflexivity.
  - change (len [c]) with 1 in *.
    destruct (tail_result s1 a1 a3 [c] (text string))
      as (Ht & Htx & Hf & Hl); try assumption; try lia.
    + change (len [c]) with 1. lia.
    + now rewrite Hl1.
    + eexists. split; [reflexivity|]. change (len [c]) with 1 in *.
      split; [exact Htx|]. split; [exact Hf|]. split; [cbn; lia | exact Ht].
Qed.

(** The same for [heapStringAppendFormatV], where [vsnprintf] has
    already stored a NUL behind the new bytes. *)
Lemma write_tail_nul (s1 : HeapString) (a1 src : list ascii)
    (k : HeapString -> outcome HeapString) :
  contents s1 = Some a1 -> 0 <= length s1 -> length s1 + len src < len a1 ->
  (forall s2, length s2 = length s1 ->
              k s2 = poke (set_length s2 (length s1 + len src))
                       (length s1 + len src) NUL) ->
  exists a3,
    bind (copy_in s1 (length s1) (src ++ [NUL])) k
    = Ok {| contents := Some a3; length := length s1 + len src;
            capacity := capacity s1 |} /\
    len a3 = len a1 /\
    firstn (Z.to_nat (length s1 + len src)) a3
    = firstn (Z.to_nat (length s1)) a1 ++ src /\
    load a3 (length s1 + len src) = NUL.
Proof.
  intros Ha H0 Hfit Hk. pose proof (len_nonneg src) as Hsrc.
  unfold copy_in. rewrite Ha.
  rewrite blit_explicit by (rewrite ?len_app; change (len [NUL]) with 1; lia).
  cbn [from_option bind].
  rewrite Hk by reflexivity.
  unfold poke, set_length. cbn [contents length capacity].
  set (a2 := firstn (Z.to_nat (length s1)) a1 ++ (src ++ [NUL])
             ++ skipn (Z.to_nat (length s1) + List.length (src ++ [NUL])) a1).
  assert (Hl2 : len a2 = len a1).
  { unfold a2, len in *. rewrite !length_app, length_firstn, length_skipn, ?length_app.
    cbn [List.length]. lia. }
  rewrite store_explicit by lia. cbn [from_option bind].
  eexists. split; [reflexivity|].
  assert (Hpre : firstn (Z.to_nat (length s1 + len src)) a2
                 = firstn (Z.to_nat (length s1)) a1 ++ src).
  { unfold a2. rewrite <- app_assoc. rewrite (app_assoc _ src).
    apply firstn_app_left.
    unfold len in *. rewrite length_app, length_firstn. lia. }
  assert (Hn : List.length (firstn (Z.to_nat (length s1 + len src)) a2)
               = Z.to_nat (length s1 + len src)).
  { apply length_firstn_le. unfold len in *. lia. }
  split; [|split].
  - unfold len in *. rewrite length_app, Hn. cbn [List.length].
    rewrite length_skipn. lia.
  - rewrite firstn_app_left by exact Hn. exact Hpre.
  - unfold load. rewrite app_nth2 by lia. rewrite Hn, Nat.sub_diag. reflexivity.
Qed.

(** [heapStringAppendFormatV] puts the formatted text behind the text. *)
Lemma heapStringAppendFormatV_text (string : HeapString) (rendered : list ascii) :
  fits string -> length string + len rendered + 1 <= 2 ^ 63 ->
  exists s', heapStringAppendFormatV string rendered = Ok s' /\
             text s' = text string ++ rendered /\ fits s' /\
             length s' = length string + len rendered /\ terminated s'.
Proof.
  intros Hfits Hb. pose proof Hfits as [(Hlen & _) _].
  pose proof (len_nonneg rendered) as Hr.
  unfold heapStringAppendFormatV. cbv zeta.
  rewrite (wrap_small (length string + len rendered)) by lia.
  rewrite (wrap_small (length string + len rendered + 1)) by lia.
  destruct (heapStringReallocIfNeeded_text string (length string + len rendered + 1) Hfits)
    as (s1 & a1 & -> & Hl1 & Hc1 & Hc64 & Ha1 & Hcap & Htext); [lia|].
  cbn [bind]. rewrite Hl1.
  rewrite (wrap_small (length string + len rendered)) by lia.
  rewrite (wrap_small (length string + len rendered + 1)) by lia.
  replace (capacity s1 <? length string + len rendered + 1) with false
    by (symmetry; apply Z.ltb_ge; lia).
  rewrite (wrap_small (capacity s1 - length string)) by lia.
  rewrite firstn_all2 by (unfold len in *; lia).
  rewrite <- Hl1.
  match goal with
  | |- context [bind (copy_in s1 (length s1) (rendered ++ [NUL])) ?k] =>
      destruct (write_tail_nul s1 a1 rendered k Ha1) as (a3 & -> & Hl3 & Hpre & Hnul)
  end.
  - lia.
  - lia.
  - intros s2 Hl2. change (length (set_length s2 ?n)) with n.
    rewrite Hl2, wrap_small by lia. reflexivity.
  - destruct (tail_result s1 a1 a3 rendered (text string))
      as (Ht & Htx & Hf & Hl); try assumption; try lia.
    + now rewrite Hl1.
    + eexists. split; [reflexivity|].
      split; [exact Htx|]. split; [exact Hf|]. split; [cbn; lia | exact Ht].
Qed.



Lemma fits_empty : fits empty_string.
Proof. unfold fits, allocated_ok. cbn. repeat split; lia. Qed.


End HeapStringText.

(** ** headerInRequest *)

Section HeaderLookup.
Import Parser.

Lemma headerInRequest_loop_first (headerName : list ascii) (request : Request)
    (todo : nat) :
  forall i0,
    match headerInRequest_loop todo i0 headerName request with
    | Ok (Some h) =>
        exists i, i0 <= i < i0 + Z.of_nat todo /\ h = header_at request i /\
                  name_matches request headerName i = Some true /\
                  forall j, i0 <= j < i ->
                            name_matches request headerName j = Some false
    | Ok None =>
        forall j, i0 <= j < i0 + Z.of_nat todo ->
                  name_matches request headerName j = Some false
    | Crash f =>
        f = HeaderNameNull /\
        exists i, i0 <= i < i0 + Z.of_nat todo /\
                  name_matches request headerName i = None /\
                  forall j, i0 <= j < i ->
                            name_matches request headerName j = Some false
    end.
Proof.
  induction todo as [|todo IH]; intros i0; cbn [headerInRequest_loop].
  - intros j Hj. lia.
  - destruct (PoolStr.contents (name (header_at request i0))) as [p|] eqn:Ep.
    + destruct (strcasecmp (pool_string request p) headerName =? 0) eqn:Em.
      * exists i0. split; [lia|]. split; [reflexivity|]. split.
        -- unfold name_matches. rewrite Ep. cbn. now rewrite Em.
        -- intros j Hj. lia.
      * assert (H0 : name_matches request headerName i0 = Some false).
        { unfold name_matches. rewrite Ep. cbn. now rewrite Em. }
        specialize (IH (i0 + 1)).
        destruct (headerInRequest_loop todo (i0 + 1) headerName request)
          as [[h|]|f].
        -- destruct IH as (i & Hi & Hh & Hm & Hbefore).
           exists i. split; [lia|]. split; [assumption|]. split; [assumption|].
           intros j Hj. destruct (Z.eq_dec j i0) as [->|Hne]; [assumption|].
           apply Hbefore. lia.
        -- intros j Hj. destruct (Z.eq_dec j i0) as [->|Hne]; [assumption|].
           apply IH. lia.
        -- destruct IH as (Hf & i & Hi & Hm & Hbefore). split; [assumption|].
           exists i. split; [lia|]. split; [assumption|].
           intros j Hj. destruct (Z.eq_dec j i0) as [->|Hne]; [assumption|].
           apply Hbefore. lia.
    + split; [reflexivity|]. exists i0. split; [lia|]. split.
      * unfold name_matches. now rewrite Ep.
      * intros j Hj. lia.
Qed.

(** [headerInRequest] returns the first of the [headersCount] headers whose
    name is the name looked for, up to the case of the letters; it
    returns [NULL] when no header has that name; and it reads through a
    [NULL] name, if a header before the first match has no name. *)
Theorem headerInRequest_first_match (headerName : list ascii) (request : Request) :
  0 <= headersCount request ->
  match headerInRequest headerName request with
  | Ok (Some h) =>
      exists i, 0 <= i < headersCount request /\ h = header_at request i /\
                name_matches request headerName i = Some true /\
                forall j, 0 <= j < i -> name_matches request headerName j = Some false
  | Ok None =>
      forall j, 0 <= j < headersCount request ->
                name_matches request headerName j = Some false
  | Crash f =>
      f = HeaderNameNull /\
      exists i, 0 <= i < headersCount request /\
                name_matches request headerName i = None /\
                forall j, 0 <= j < i -> name_matches request headerName j = Some false
  end.
Proof.
  intros Hc. unfold headerInRequest.
  pose proof (headerInRequest_loop_first headerName request
                (Z.to_nat (headersCount request)) 0) as H.
  rewrite Z2Nat.id in H by assumption. exact H.
Qed.

Lemma headerInRequest_first_match_witness :
  0 <= headersCount (parsed sample_body_5) /\
  match headerInRequest (bytes "Content-Length") (parsed sample_body_5) with
  | Ok (Some h) =>
      exists i, 0 <= i < headersCount (parsed sample_body_5) /\
                h = header_at (parsed sample_body_5) i /\
                name_matches (parsed sample_body_5) (bytes "Content-Length") i
                = Some true /\
                forall j, 0 <= j < i ->
                          name_matches (parsed sample_body_5) (bytes "Content-Length") j
                          = Some false
  | Ok None =>
      forall j, 0 <= j < headersCount (parsed sample_body_5) ->
                name_matches (parsed sample_body_5) (bytes "Content-Length") j
                = Some false
  | Crash f =>
      f = HeaderNameNull /\
      exists i, 0 <= i < headersCount (parsed sample_body_5) /\
                name_matches (parsed sample_body_5) (bytes "Content-Length") i = None /\
                forall j, 0 <= j < i ->
                          name_matches (parsed sample_body_5) (bytes "Content-Length") j
                          = Some false
  end.
Proof.
  split; [vm_compute; congruence|].
  apply headerInRequest_first_match. vm_compute; congruence.
Defined.

End HeaderLookup.

(** ** sendResponseBody and the response constructors *)

Section ResponseExtras.
Import HeapStr.

(** When [send] does not take the whole header block, [sendResponseBody]
    returns -1, leaves the count of the bytes sent as it was, and does not
    send any byte of the body. *)
Theorem sendResponseBody_short_header
    (responseHeader : list ascii) (response : Resp.Response) (bytesSent0 : Z)
    (status contentType : list ascii) (sendResult1 sendResult2 : Z) :
  len responseHeader = Resp.RESPONSE_HEADER_SIZE ->
  Resp.status response = Some status ->
  Resp.contentType response = Some contentType ->
  len (Resp.header_text (Resp.code response) status contentType
         (length (Resp.body response))) < Resp.RESPONSE_HEADER_SIZE ->
  sendResult1 <> len (Resp.header_text (Resp.code response) status contentType
                        (length (Resp.body response))) ->
  Resp.sendResponseBody responseHeader response bytesSent0 sendResult1 sendResult2
  = Ok {| Resp.wire :=
            firstn (Z.to_nat sendResult1)
              (Resp.header_text (Resp.code response) status contentType
                 (length (Resp.body response)));
          Resp.bytesSent := bytesSent0;
          Resp.result := -1 |}.
Proof.
  intros Hbuf Hst Hct Hsmall Hshort.
  unfold Resp.sendResponseBody. rewrite Hst, Hct. cbn [from_option bind].
  set (header := Resp.header_text (Resp.code response) status contentType
                   (length (Resp.body response))) in *.
  unfold Resp.RESPONSE_HEADER_SIZE in *.
  pose proof (len_nonneg header) as Hh.
  unfold Resp.snprintf.
  rewrite firstn_all2 by (unfold len in *; lia).
  rewrite blit_at_0
    by (rewrite len_app; change (len [NUL]) with 1; lia).
  cbn [from_option bind]. unfold Resp.read_buffer.
  replace ((0 <=? len header)
           && (len header <=? len ((header ++ [NUL])
                                   ++ skipn (List.length (header ++ [NUL])) responseHeader)))
    with true.
  2:{ symmetry. apply andb_true_iff. split; apply Z.leb_le; [lia|].
      rewrite !len_app. pose proof (len_nonneg [NUL]).
      pose proof (len_nonneg (skipn (List.length (header ++ [NUL])) responseHeader)).
      lia. }
  cbn [bind]. rewrite <- app_assoc, firstn_len_app.
  replace (sendResult1 =? len header) with false
    by (symmetry; now apply Z.eqb_neq).
  reflexivity.
Qed.

Lemma sendResponseBody_short_header_witness :
  Resp.sendResponseBody (zeros 1024) Resp.sample_response 7 10 2
  = Ok {| Resp.wire :=
            firstn (Z.to_nat 10)
              (Resp.header_text 200 (bytes "OK") (bytes "text/plain") 2);
          Resp.bytesSent := 7;
          Resp.result := -1 |}.
Proof.
  apply (sendResponseBody_short_header (zeros 1024) Resp.sample_response 7
           (bytes "OK") (bytes "text/plain") 10 2);
    vm_compute; congruence.
Defined.




End ResponseExtras.

(** ** Properties of single functions, stated on their own *)

Section Restated.
Import HeapStr.

(** [heapStringSetToCString] returns a string whose capacity exceeds its
    length and whose contents, read as a C string, are the C string it was
    given, whatever the string held before. *)
Theorem heapStringSetToCString_round_trip (heapString : HeapString)
    (cString : list ascii) :
  fits heapString ->
  strlen cString + 1 <= 2 ^ 63 ->
  exists s' a, heapStringSetToCString heapString cString = Ok s' /\
               terminated s' /\
               length s' = strlen cString /\
               contents s' = Some a /\
               cstring a = cstring cString.
Proof.
  intros [Hok Hfit] Hb. now apply heapStringSetToCString_holds_the_text.
Qed.

Lemma heapStringSetToCString_round_trip_witness :
  exists s' a, heapStringSetToCString empty_string (bytes "This is a C string") = Ok s' /\
               terminated s' /\
               length s' = strlen (bytes "This is a C string") /\
               contents s' = Some a /\
               cstring a = cstring (bytes "This is a C string").
Proof.
  apply heapStringSetToCString_round_trip; [apply fits_empty|].
  vm_compute. congruence.
Defined.

(** [responseAllocHTMLWithStatus] and [responseAllocJSONWithStatus] do not
    use the code and the status they are given: the response has the code
    200 and the status OK, and the page as its body. *)
Theorem responseAllocHTMLWithStatus_drops_the_status
    (code : Z) (status html : list ascii) :
  strlen html + 1 <= 2 ^ 63 ->
  exists response a,
    Resp.responseAllocHTMLWithStatus code status html = Ok response /\
    Resp.code response = 200 /\
    Resp.status response = Some (bytes "OK") /\
    Resp.contentType response = Some (bytes "text/html; charset=UTF-8") /\
    contents (Resp.body response) = Some a /\
    cstring a = cstring html.
Proof.
  intros Hb.
  destruct (responseAllocHTMLWithStatus_is_200 code status html Hb)
    as (response & a & H & Hc & Hs & Ht & _ & _ & _ & Ha & Hcs).
  exists response, a. repeat split; assumption.
Qed.

Lemma responseAllocHTMLWithStatus_drops_the_status_witness :
  exists response a,
    Resp.responseAllocHTMLWithStatus 500 (bytes "Internal Error") (bytes "<html></html>")
    = Ok response /\
    Resp.code response = 200 /\
    Resp.status response = Some (bytes "OK") /\
    Resp.contentType response = Some (bytes "text/html; charset=UTF-8") /\
    contents (Resp.body response) = Some a /\
    cstring a = cstring (bytes "<html></html>").
Proof.
  apply responseAllocHTMLWithStatus_drops_the_status. vm_compute. congruence.
Defined.

(** [requestParse] returns on every fragment: a turn of its loop that
    steps the index back is followed by one that does not, so that the loop
    ends after at most two turns for each byte; and what the call does is
    what the bytes do one after the other. *)
Theorem requestParse_terminates (request : Parser.Request) (fragment : list ascii) :
  len fragment < 2 ^ 64 ->
  Parser.requestParse request fragment
  = Some (Parser.requestParse_bytes request fragment).
Proof. apply requestParse_returns. Qed.

Lemma requestParse_terminates_witness :
  Parser.requestParse Parser.zeroRequest Parser.sample_two_spaces
  = Some (Parser.requestParse_bytes Parser.zeroRequest Parser.sample_two_spaces).
Proof. apply requestParse_terminates. vm_compute. congruence. Defined.

End Restated.

(** ** requestParse: the faults that are left, and the bounded fields *)

Section ParserFaults.
Import Parser.

Lemma store_inv {A} (a a' : list A) (i : Z) (x : A) :
  store a i x = Some a' ->
  0 <= i < len a /\ len a' = len a /\
  (forall d, nth (Z.to_nat i) a' d = x) /\
  (forall j d, j <> Z.to_nat i -> nth j a' d = nth j a d).
Proof.
  intros H. assert (Hi : 0 <= i < len a).
  { unfold store in H. destruct ((0 <=? i) && (i <? len a)) eqn:E; [|discriminate].
    apply andb_true_iff in E. destruct E as [E1 E2].
    apply Z.leb_le in E1. apply Z.ltb_lt in E2. lia. }
  split; [assumption|].
  destruct (store_Some a i x Hi) as (a1 & Hs & Hl & _ & Hn).
  rewrite H in Hs. inversion Hs; subst a1.
  split; [assumption|]. split; [assumption|].
  intros j d Hj. eapply store_other; eassumption.
Qed.

(* The end of a frame proof: the string is stored back into the header. *)
Ltac finish_frame n :=
  change (header_at (warn_headersStringPoolExhausted ?r) n) with (header_at r n);
  let Es := fresh "Es" in
  let H := fresh "H" in
  let Hn := fresh "Hn" in let Hl := fresh "Hl" in
  let Hsame := fresh "Hsame" in let Hoth := fresh "Hoth" in
  match goal with
  | |- context [store ?hs0 n ?x] => destruct (store hs0 n x) eqn:Es
  end; cbn [from_option bind]; [|discriminate];
  intros H; inversion H; subst; clear H;
  apply store_inv in Es;
  destruct Es as (Hn & Hl & Hsame & Hoth);
  cbn in Hn, Hl, Hoth;
  unfold same_fields, header_at, has_storage; cbn; rewrite ?Hsame; cbn;
  repeat split; try assumption; try congruence;
  try (intros; apply Hoth; assumption).

(** What storing a byte of a header value does to the request: the value
    of the current header is replaced, by a string that has storage if it
    has bytes; the other headers, and the fields outside of the pool, are
    as before. *)
Lemma store_value_char_frame (request request' : Request) (c : ascii) :
  store_value_char request c = Ok request' ->
  same_fields request request' /\
  len (headers request') = len (headers request) /\
  name (header_at request' (headersCount request))
  = name (header_at request (headersCount request)) /\
  has_storage (value (header_at request' (headersCount request))) /\
  forall j, j <> Z.to_nat (headersCount request) ->
            nth j (headers request') zeroHeader = nth j (headers request) zeroHeader.
Proof.
  unfold store_value_char, set_header_value, poolStringStartNewString,
    poolStringAppendChar.
  set (n := headersCount request).
  destruct (PoolStr.contents (value (header_at request n))) as [p|] eqn:Ev.
  - cbn [bind]. rewrite Ev.
    destruct (REQUEST_HEADERS_MAX_MEMORY - 1 - sizeof_NUL_constant
              <=? headersStringPoolOffset request).
    + cbn [bind]. finish_frame n.
    + destruct (store (headersStringPool request) _ c) as [pool|];
        cbn [from_option bind]; [|discriminate].
      finish_frame n.
  - destruct (headersStringPoolOffset request =? 0);
      [|destruct (REQUEST_HEADERS_MAX_MEMORY - 1 <=? headersStringPoolOffset request)];
      cbv iota beta;
      (match goal with
       | |- context [store ?hs0 n ?x] => destruct (store hs0 n x) as [hs1|] eqn:Es1
       end; cbn [from_option bind]; [|discriminate]);
      apply store_inv in Es1; destruct Es1 as (Hn1 & Hl1 & Hsame1 & Hoth1);
      unfold header_at at 1 2; cbn [headers set_headers headersStringPoolOffset
                                      set_headersStringPoolOffset
                                      warn_headersStringPoolExhausted set_warnings];
      rewrite !Hsame1; cbn [value name PoolStr.contents PoolStr.length];
      (destruct (REQUEST_HEADERS_MAX_MEMORY - 1 - sizeof_NUL_constant <=? _);
       [|try (match goal with
              | |- context [store ?pl ?k c] => destruct (store pl k c) as [pool|]
              end; cbn [from_option bind]; [|discriminate])]);
      cbn [from_option bind]; try discriminate;
      (match goal with
       | |- context [store ?hs0 n ?x] => destruct (store hs0 n x) as [hs2|] eqn:Es2
       end; cbn [from_option bind]; [|discriminate]);
      intros H; inversion H; subst; clear H;
      apply store_inv in Es2; destruct Es2 as (Hn2 & Hl2 & Hsame2 & Hoth2);
      cbn in Hn2, Hl2, Hoth2;
      unfold same_fields, header_at, has_storage; cbn; rewrite ?Hsame2; cbn;
      repeat split; try assumption; try congruence; try lia;
      try (unfold header_at; rewrite ?Hsame1; reflexivity);
      try (intros j Hj; rewrite Hoth2, Hoth1 by exact Hj; reflexivity);
      try (rewrite Hl2; exact Hl1);
      try (rewrite Hsame1; cbn; congruence).
Qed.

(** The same for a byte of a header name. *)
Lemma store_name_char_frame (request request' : Request) (c : ascii) :
  store_name_char request c = Ok request' ->
  same_fields request request' /\
  len (headers request') = len (headers request) /\
  value (header_at request' (headersCount request))
  = value (header_at request (headersCount request)) /\
  forall j, j <> Z.to_nat (headersCount request) ->
            nth j (headers request') zeroHeader = nth j (headers request) zeroHeader.
Proof.
  unfold store_name_char, set_header_name, poolStringStartNewString,
    poolStringAppendChar.
  set (n := headersCount request).
  destruct (PoolStr.contents (name (header_at request n))) as [p|] eqn:Ev.
  - cbn [bind]. rewrite Ev.
    destruct (REQUEST_HEADERS_MAX_MEMORY - 1 - sizeof_NUL_constant
              <=? headersStringPoolOffset request).
    + cbn [bind]. finish_frame n.
    + destruct (store (headersStringPool request) _ c) as [pool|];
        cbn [from_option bind]; [|discriminate].
      finish_frame n.
  - destruct (headersStringPoolOffset request =? 0);
      [|destruct (REQUEST_HEADERS_MAX_MEMORY - 1 <=? headersStringPoolOffset request)];
      cbv iota beta;
      (match goal with
       | |- context [store ?hs0 n ?x] => destruct (store hs0 n x) as [hs1|] eqn:Es1
       end; cbn [from_option bind]; [|discriminate]);
      apply store_inv in Es1; destruct Es1 as (Hn1 & Hl1 & Hsame1 & Hoth1);
      unfold header_at at 1 2; cbn [headers set_headers headersStringPoolOffset
                                      set_headersStringPoolOffset
                                      warn_headersStringPoolExhausted set_warnings];
      rewrite !Hsame1; cbn [value name PoolStr.contents PoolStr.length];
      (destruct (REQUEST_HEADERS_MAX_MEMORY - 1 - sizeof_NUL_constant <=? _);
       [|try (match goal with
              | |- context [store ?pl ?k c] => destruct (store pl k c) as [pool|]
              end; cbn [from_option bind]; [|discriminate])]);
      cbn [from_option bind]; try discriminate;
      (match goal with
       | |- context [store ?hs0 n ?x] => destruct (store hs0 n x) as [hs2|] eqn:Es2
       end; cbn [from_option bind]; [|discriminate]);
      intros H; inversion H; subst; clear H;
      apply store_inv in Es2; destruct Es2 as (Hn2 & Hl2 & Hsame2 & Hoth2);
      cbn in Hn2, Hl2, Hoth2;
      unfold same_fields, header_at, has_storage; cbn; rewrite ?Hsame2; cbn;
      repeat split; try assumption; try congruence; try lia;
      try (unfold header_at; rewrite ?Hsame1; reflexivity);
      try (intros j Hj; rewrite Hoth2, Hoth1 by exact Hj; reflexivity);
      try (rewrite Hl2; exact Hl1);
      try (rewrite Hsame1; cbn; congruence).
Qed.

Lemma store_field (field : list ascii) (n limit : Z) (c : ascii) :
  len field = limit + 1 -> 0 <= n <= limit -> zero_from field n -> n < limit ->
  exists field', store field n c = Some field' /\
                 len field' = limit + 1 /\ zero_from field' (n + 1).
Proof.
  intros Hl Hn Hz Hlt.
  destruct (store field n c) as [field'|] eqn:E.
  - apply store_inv in E. destruct E as (_ & Hl' & _ & Hoth).
    exists field'. split; [reflexivity|]. split; [lia|].
    intros k Hk. unfold load. rewrite Hoth by lia. apply Hz. lia.
  - unfold store in E.
    replace ((0 <=? n) && (n <? len field)) with true in E; [discriminate|].
    symmetry. apply andb_true_iff. split; [apply Z.leb_le | apply Z.ltb_lt]; lia.
Qed.

(** [URLDecode] into an array of [decodedCapacity] bytes returns, and the
    array keeps its length. *)
Lemma URLDecode_loop_ok (encoded : list ascii) :
  forall decoded decodedCapacity type deci st firstDigit,
    len decoded = decodedCapacity -> decodedCapacity < 2 ^ 64 ->
    0 <= deci <= decodedCapacity - 1 ->
    exists decoded',
      URLDecode_loop encoded decoded decodedCapacity type deci st firstDigit
      = Ok decoded' /\ len decoded' = decodedCapacity.
Proof.
  assert (Hstore : forall (a : list ascii) i x,
             0 <= i < len a ->
             exists a', from_option FieldOutOfBounds (store a i x) = Ok a' /\
                        len a' = len a).
  { intros a i x Hi. destruct (store_Some a i x Hi) as (a' & -> & Hl & _).
    exists a'. split; [reflexivity | assumption]. }
  induction encoded as [|c rest IH]; intros decoded cap type deci st fd Hl Hc Hd;
    cbn [URLDecode_loop].
  - destruct (Hstore decoded deci NUL) as (a' & -> & Hl'); [lia|].
    exists a'. split; [reflexivity | lia].
  - assert (Hfin : exists decoded',
               from_option FieldOutOfBounds (store decoded deci NUL) = Ok decoded' /\
               len decoded' = cap).
    { destruct (Hstore decoded deci NUL) as (a' & -> & Hl'); [lia|].
      exists a'. split; [reflexivity | lia]. }
    destruct (wrap (cap - 1) <=? deci) eqn:E; [exact Hfin|].
    apply Z.leb_gt in E. rewrite wrap_small in E by lia.
    destruct (Ascii.eqb c NUL); [exact Hfin|].
    destruct (Ascii.eqb c "&" && is_parameter type); [exact Hfin|].
    destruct st.
    + destruct (Ascii.eqb c "%"); [apply IH; lia|].
      match goal with
      | |- context [store decoded deci ?x] =>
          destruct (Hstore decoded deci x) as (a' & -> & Hl'); [lia|]
      end.
      cbn [bind]. apply IH; lia.
    + apply IH; lia.
    + destruct (sscanf_02x fd c); [|apply IH; lia].
      match goal with
      | |- context [store decoded deci ?x] =>
          destruct (Hstore decoded deci x) as (a' & -> & Hl'); [lia|]
      end.
      cbn [bind]. apply IH; lia.
Qed.

Lemma bounded_frame (request request' : Request) :
  bounded request ->
  method request' = method request -> methodLength request' = methodLength request ->
  version request' = version request -> versionLength request' = versionLength request ->
  path request' = path request -> pathLength request' = pathLength request ->
  len (pathDecoded request') = 1024 ->
  headers request' = headers request -> headersCount request' = headersCount request ->
  (state request' = RequestParseStateBody ->
   state request = RequestParseStateBody /\ body request' = body request) ->
  bounded request'.
Proof.
  intros [Bm Bv Bp Bd Bvals Bcur Bbody] Hm Hml Hv Hvl Hp Hpl Hd Hh Hc Hs.
  constructor; unfold header_at in *; rewrite ?Hm, ?Hml, ?Hv, ?Hvl, ?Hp, ?Hpl, ?Hh, ?Hc;
    try assumption.
  intros Hst a. destruct (Hs Hst) as [Hst0 ->]. now apply Bbody.
Qed.

Lemma zero_from_zeros (n k : Z) : zero_from (zeros n) k.
Proof. intros j _. unfold load, zeros. apply nth_repeat. Qed.

Lemma bounded_zeroRequest : bounded zeroRequest.
Proof.
  constructor; cbn [zeroRequest method methodLength version versionLength path
                     pathLength pathDecoded headersCount state body];
    try (split; [reflexivity|]; split; [lia | apply zero_from_zeros]).
  - reflexivity.
  - intros j Hj. lia.
  - intros _. reflexivity.
  - discriminate.
Qed.

Lemma bounded_headers (request request' : Request) :
  bounded request -> same_fields request request' ->
  (forall j, 0 <= j < headersCount request ->
             value (header_at request' j) = value (header_at request j)) ->
  has_storage (value (header_at request' (headersCount request))) ->
  bounded request'.
Proof.
  intros [Bm Bv Bp Bd Bvals Bcur Bbody]
         (Hm & Hml & Hv & Hvl & Hp & Hpl & Hd & Hb & Hc & Hs) Hvals Hcur.
  constructor; rewrite ?Hm, ?Hml, ?Hv, ?Hvl, ?Hp, ?Hpl, ?Hd, ?Hb, ?Hc, ?Hs;
    try assumption.
  intros j Hj. rewrite Hvals by assumption. now apply Bvals.
Qed.

(** The headers after the current one are as [calloc] left them, and so is
    what is read after the array. *)
Lemma header_at_fresh (request : Request) (j : Z) :
  invariant request -> headersCount request < j -> header_at request j = zeroHeader.
Proof.
  intros Inv Hj. destruct (Z.lt_ge_cases j REQUEST_MAX_HEADERS) as [H|H].
  - apply (inv_fresh _ Inv). lia.
  - unfold header_at. apply nth_overflow.
    pose proof (inv_headers _ Inv) as Hl. unfold len in Hl. lia.
Qed.

(* A turn that leaves the fields as they are, up to the state and the
   warnings. *)
Ltac same_bounded request :=
  apply (bounded_frame request); cbn; try reflexivity; try assumption;
  try discriminate; try congruence;
  try (match goal with B : bounded request |- _ => exact (b_pathDecoded _ B) end).

(* A turn that stores a byte into a field of the request line. *)
Ltac field_bounded B Est :=
  destruct B as [Bm Bv Bp Bd Bvals Bcur Bbody];
  constructor; cbn; try assumption;
  try (rewrite wrap_small by lia; split; [lia|]; split; [lia | assumption]);
  try (rewrite Est; discriminate).

(** At the end of the header block, the header that is looked up is one of
    those that have a value, and the body that is allocated has a byte
    more than its capacity. *)
Lemma end_of_headers_bounded (request : Request) :
  invariant request -> bounded request ->
  state request = RequestParseStateCRLFCR ->
  match end_of_headers request with
  | Ok request' => bounded request'
  | Crash f => f = HeaderNameNull
  end.
Proof.
  intros Inv B Est. unfold end_of_headers, headerInRequest.
  pose proof (headerInRequest_loop_first (bytes "Content-Length")
                (set_state request RequestParseStateDone)
                (Z.to_nat (headersCount request)) 0) as H.
  change (headersCount (set_state request RequestParseStateDone))
    with (headersCount request).
  pose proof (inv_count _ Inv) as Hc.
  rewrite Z2Nat.id in H by lia.
  destruct (headerInRequest_loop (Z.to_nat (headersCount request)) 0
              (bytes "Content-Length") (set_state request RequestParseStateDone))
    as [[h|]|f]; cbn [bind].
  - destruct H as (j & Hj & -> & _).
    change (header_at (set_state request RequestParseStateDone) j)
      with (header_at request j).
    pose proof (b_values _ B j ltac:(lia)) as Hv.
    destruct (PoolStr.contents (value (header_at request j))) as [p|];
      [|congruence].
    destruct (sscanf_ld _) as [contentLength|]; [|same_bounded request].
    match goal with
    | |- context [HeapStr.Build_HeapString _ _ ?e] =>
        set (capacity := e);
        assert (Hcap : 0 <= capacity <= REQUEST_MAX_BODY_LENGTH)
    end.
    { subst capacity. unfold REQUEST_MAX_BODY_LENGTH.
      destruct (_ <? contentLength) eqn:E1;
        [destruct (_ <? 0) eqn:E2 | destruct (contentLength <? 0) eqn:E2];
        try apply Z.ltb_lt in E1; try apply Z.ltb_ge in E1;
        try apply Z.ltb_lt in E2; try apply Z.ltb_ge in E2; lia. }
    clearbody capacity.
    assert (Hb : HeapStr.contents (body request) = None).
    { rewrite (inv_body _ Inv) by (rewrite Est; discriminate). reflexivity. }
    destruct B as [Bm Bv Bp Bd Bvals Bcur Bbody].
    constructor; cbn; try assumption.
    intros _ a. destruct (0 <? capacity) eqn:E.
    + apply Z.ltb_lt in E. intros Ha. inversion Ha; subst a.
      unfold REQUEST_MAX_BODY_LENGTH in Hcap. split; [|lia]. unfold zeros, len. rewrite repeat_length. lia.
    + rewrite Hb. discriminate.
  - same_bounded request.
  - apply H.
Qed.

Lemma requestParse_turn_bounded (request : Request) (c : ascii) (i : Z) :
  invariant request -> bounded request ->
  match requestParse_turn request c i with
  | Ok (request', _) => bounded request'
  | Crash f => f = BodyNull \/ f = HeaderNameNull
  end.
Proof.
  intros Inv B. unfold requestParse_turn. destruct (state request) eqn:Est.
  - (* Method *)
    destruct (Ascii.eqb c " "); [same_bounded request|].
    destruct (methodLength request <? 64 - 1) eqn:E; [|same_bounded request].
    apply Z.ltb_lt in E. destruct (b_method _ B) as (Hl & Hn & Hz).
    destruct (store_field (method request) (methodLength request) 63 c)
      as (a & -> & Hl' & Hz'); try lia; try assumption.
    cbn [from_option bind]. field_bounded B Est.
  - (* Path *)
    destruct (Ascii.eqb c " ").
    + unfold URLDecode.
      destruct (URLDecode_loop_ok (path request) (pathDecoded request) 1024
                  URLDecodeTypeWholeURL 0 URLDecodeStateNormal NUL)
        as (decoded & -> & Hd); [apply (b_pathDecoded _ B) | lia | lia |].
      cbn [bind]. same_bounded request.
    + destruct (pathLength request <? 1024 - 1) eqn:E; [|same_bounded request].
      apply Z.ltb_lt in E. destruct (b_path _ B) as (Hl & Hn & Hz).
      destruct (store_field (path request) (pathLength request) 1023 c)
        as (a & -> & Hl' & Hz'); try lia; try assumption.
      cbn [from_option bind]. field_bounded B Est.
  - (* Version *)
    destruct (Ascii.eqb c CR); [same_bounded request|].
    destruct (versionLength request <? 16 - 1) eqn:E; [|same_bounded request].
    apply Z.ltb_lt in E. destruct (b_version _ B) as (Hl & Hn & Hz).
    destruct (store_field (version request) (versionLength request) 15 c)
      as (a & -> & Hl' & Hz'); try lia; try assumption.
    cbn [from_option bind]. field_bounded B Est.
  - (* HeaderName *)
    destruct (Ascii.eqb c ":"); [same_bounded request|].
    destruct (Ascii.eqb c CR); [same_bounded request|].
    destruct (headersCount request <? REQUEST_MAX_HEADERS) eqn:E;
      [|same_bounded request].
    apply Z.ltb_lt in E.
    destruct (store_name_char_invariant request c Inv Est E) as (r1 & Es & Inv1 & _).
    rewrite Es. cbn [bind].
    destruct (store_name_char_frame _ _ _ Es) as (Hsame & Hlen & Hval & Hoth).
    apply (bounded_headers request); [assumption | assumption | |].
    + intros j Hj. unfold header_at. rewrite Hoth by lia. reflexivity.
    + rewrite Hval. apply (b_current _ B).
  - (* HeaderValue *)
    destruct (Ascii.eqb c " " && (headersCount request <? REQUEST_MAX_HEADERS)
              && (PoolStr.length (value (header_at request (headersCount request))) =? 0));
      [assumption|].
    destruct (Ascii.eqb c CR).
    + destruct ((headersCount request <? REQUEST_MAX_HEADERS)
                && (0 <? PoolStr.length (value (header_at request (headersCount request)))))
        eqn:E; [|same_bounded request].
      apply andb_true_iff in E. destruct E as [E1 E2].
      apply Z.ltb_lt in E1, E2.
      pose proof (inv_count _ Inv) as Hc. unfold REQUEST_MAX_HEADERS in Hc, E1.
      destruct B as [Bm Bv Bp Bd Bvals Bcur Bbody].
      constructor; cbn; try assumption; rewrite ?wrap_small by lia.
      * intros j Hj. change (header_at (set_state ?r ?s) j) with (header_at r j).
        change (header_at (set_headersCount ?r ?s) j) with (header_at r j).
        destruct (Z.eq_dec j (headersCount request)) as [->|Hne].
        -- intros Hnone. apply Bcur in Hnone. lia.
        -- apply Bvals. lia.
      * change (header_at (set_state ?r ?s) ?j) with (header_at r j).
        change (header_at (set_headersCount ?r ?s) ?j) with (header_at r j).
        fold (header_at request (headersCount request + 1)).
        rewrite (header_at_fresh request) by (assumption || lia).
        intros _. reflexivity.
      * discriminate.
    + destruct (headersCount request <? REQUEST_MAX_HEADERS) eqn:E; [|assumption].
      apply Z.ltb_lt in E.
      destruct (store_value_char_invariant request c Inv Est E) as (r1 & Es & Inv1 & _).
      rewrite Es. cbn [bind].
      destruct (store_value_char_frame _ _ _ Es) as (Hsame & Hlen & Hnm & Hst & Hoth).
      apply (bounded_headers request); [assumption | assumption | | assumption].
      intros j Hj. unfold header_at. rewrite Hoth by lia. reflexivity.
  - (* CR *)
    destruct (Ascii.eqb c LF); same_bounded request.
  - (* CRLF *)
    destruct (Ascii.eqb c CR); same_bounded request.
  - (* CRLFCR *)
    destruct (Ascii.eqb c LF); [|same_bounded request].
    pose proof (end_of_headers_bounded request Inv B Est) as H.
    destruct (end_of_headers request) as [r1|f]; cbn [bind];
      [assumption | now right].
  - (* Body *)
    destruct (HeapStr.contents (body request)) as [a|] eqn:Ea; [|now left].
    destruct (b_body _ B Est a Ea) as (Hl & Hn & Hcap).
    unfold REQUEST_MAX_BODY_LENGTH in Hcap.
    destruct (store_Some a (HeapStr.length (body request)) c) as (a' & -> & Hl' & _);
      [lia|].
    cbn [from_option bind HeapStr.length HeapStr.capacity].
    rewrite wrap_small by lia.
    destruct (_ =? _) eqn:E.
    + same_bounded request.
    + apply Z.eqb_neq in E. destruct B as [Bm Bv Bp Bd Bvals Bcur Bbody].
      constructor; cbn; try assumption.
      intros _ a0 Ha0. inversion Ha0; subst a0. lia.
  - (* Done *)
    destruct (HeapStr.contents (body request)); [same_bounded request | assumption].
Qed.

Lemma requestParse_byte_bounded (request : Request) (c : ascii) :
  invariant request -> bounded request ->
  match requestParse_byte request c with
  | Ok request' => invariant request' /\ bounded request'
  | Crash f => f = BodyNull \/ f = HeaderNameNull
  end.
Proof.
  intros Inv B. unfold requestParse_byte.
  pose proof (requestParse_turn_invariant request c 0 Inv) as I1.
  pose proof (requestParse_turn_bounded request c 0 Inv B) as B1.
  destruct (requestParse_turn request c 0) as [[request1 i1]|f]; cbn [bind];
    [|assumption].
  destruct I1 as [I1 _].
  destruct (i1 =? 0); [split; assumption|].
  pose proof (requestParse_turn_invariant request1 c 0 I1) as I2.
  pose proof (requestParse_turn_bounded request1 c 0 I1 B1) as B2.
  destruct (requestParse_turn request1 c 0) as [[request2 i2]|f]; cbn [bind];
    [|assumption].
  destruct I2 as [I2 _]. split; assumption.
Qed.

Lemma requestParse_bytes_bounded (fragment : list ascii) :
  forall request,
    invariant request -> bounded request ->
    match requestParse_bytes request fragment with
    | Ok request' => invariant request' /\ bounded request'
    | Crash f => f = BodyNull \/ f = HeaderNameNull
    end.
Proof.
  induction fragment as [|c rest IH]; intros request Inv B; cbn [requestParse_bytes].
  - split; assumption.
  - pose proof (requestParse_byte_bounded request c Inv B) as H.
    destruct (requestParse_byte request c) as [request1|f]; cbn [bind];
      [|assumption].
    destruct H as [I1 B1]. apply IH; assumption.
Qed.

(** Whatever the bytes, [requestParse] on the request of a fresh connection
    stores nothing outside of the arrays of the request, of the header
    string pool and of the body: the method, the path and the version stay
    in their arrays with a NUL after them, the decoded path stays in its
    array, every header that is counted has a value, and a body that is
    being read has room for the next byte.  Two faults are left, and both
    are reached: the store through the [NULL] body after a content length
    of 0, and the [strcasecmp] on the [NULL] name of a header line that
    starts with a colon. *)
Theorem requestParse_faults (fragment : list ascii) :
  len fragment < 2 ^ 64 ->
  (exists o, requestParse zeroRequest fragment = Some o /\
             match o with
             | Ok request => bounded request
             | Crash f => f = BodyNull \/ f = HeaderNameNull
             end) /\
  requestParse zeroRequest sample_null_body = Some (Crash BodyNull) /\
  requestParse zeroRequest sample_no_name = Some (Crash HeaderNameNull).
Proof.
  intros H. split.
  - exists (requestParse_bytes zeroRequest fragment).
    split; [now apply requestParse_returns|].
    pose proof (requestParse_bytes_bounded fragment zeroRequest
                  invariant_zeroRequest bounded_zeroRequest) as Hb.
    destruct (requestParse_bytes zeroRequest fragment); [apply Hb | exact Hb].
  - split; vm_compute; reflexivity.
Qed.

Lemma requestParse_faults_witness :
  len sample_body_5 < 2 ^ 64 /\
  exists o, requestParse zeroRequest sample_body_5 = Some o /\
            match o with
            | Ok request => bounded request
            | Crash f => f = BodyNull \/ f = HeaderNameNull
            end.
Proof.
  split; [vm_compute; reflexivity|].
  apply (requestParse_faults sample_body_5). vm_compute. reflexivity.
Defined.

End ParserFaults.

(** ** strdupEscapeForURL and URLDecode *)

Section URLRoundTrip.
Import HeapStr Parser.

(* The 256 bytes, one after the other. *)
Ltac each_byte c :=
  destruct c as [[] [] [] [] [] [] [] []].

Lemma escaped_byte_letter (c : ascii) :
  Resp.escaped_byte c = [c] ->
  Ascii.eqb c NUL = false /\ Ascii.eqb c "&" = false /\
  Ascii.eqb c "%" = false /\ Ascii.eqb c "+" = false.
Proof.
  each_byte c; vm_compute; intros H;
    try discriminate H; repeat split; reflexivity.
Qed.

Lemma escaped_byte_cases (c : ascii) :
  Resp.escaped_byte c = [c] \/
  exists h1 h2,
    Resp.escaped_byte c = ["%"%char; h1; h2] /\
    Ascii.eqb h1 NUL = false /\ Ascii.eqb h1 "&" = false /\
    Ascii.eqb h2 NUL = false /\ Ascii.eqb h2 "&" = false /\
    option_map char_of_int (sscanf_02x h1 h2) = Some c.
Proof.
  each_byte c;
    first [ left; reflexivity
          | right; eexists; eexists; split; [vm_compute; reflexivity|];
            vm_compute; repeat split; reflexivity ].
Qed.

Lemma len_escaped_byte (c : ascii) : 1 <= len (Resp.escaped_byte c) <= 3.
Proof.
  destruct (escaped_byte_cases c) as [->|(h1 & h2 & -> & _)]; cbn; lia.
Qed.

(** One byte of the text is decoded from what it was escaped to. *)
Lemma URLDecode_loop_escaped_byte (c : ascii) (tail decoded : list ascii)
    (decodedCapacity : Z) (type : URLDecodeType) (deci : Z) (firstDigit : ascii) :
  0 <= deci < decodedCapacity - 1 -> decodedCapacity < 2 ^ 64 ->
  exists firstDigit',
    URLDecode_loop (Resp.escaped_byte c ++ tail) decoded decodedCapacity type deci
      URLDecodeStateNormal firstDigit
    = (decoded <- from_option FieldOutOfBounds (store decoded deci c) ;;
       URLDecode_loop tail decoded decodedCapacity type (deci + 1)
         URLDecodeStateNormal firstDigit').
Proof.
  intros Hd Hc.
  assert (Hw : (wrap (decodedCapacity - 1) <=? deci) = false).
  { rewrite wrap_small by lia. apply Z.leb_gt. lia. }
  destruct (escaped_byte_cases c) as [E|(h1 & h2 & E & N1 & A1 & N2 & A2 & Hx)].
  - rewrite E. destruct (escaped_byte_letter c E) as (H0 & Ha & Hp & Hpl).
    cbn [app URLDecode_loop]. rewrite Hw, H0, Ha, Hp, Hpl. cbn [andb].
    exists firstDigit. reflexivity.
  - rewrite E. cbn [app URLDecode_loop]. rewrite !Hw, N1, A1, N2, A2.
    change (Ascii.eqb "%" NUL) with false.
    change (Ascii.eqb "%" "&") with false.
    change (Ascii.eqb "%" "%") with true.
    cbn [andb].
    destruct (sscanf_02x h1 h2) as [n|]; [|discriminate Hx].
    cbn [option_map] in Hx. inversion Hx as [Hn]. rewrite Hn.
    exists h1. reflexivity.
Qed.

Lemma store_firstn {A} (a a' : list A) (i : Z) (x : A) :
  store a i x = Some a' ->
  len a' = len a /\
  firstn (Z.to_nat (i + 1)) a' = firstn (Z.to_nat i) a ++ [x].
Proof.
  intros H. unfold store in H.
  destruct ((0 <=? i) && (i <? len a)) eqn:E; [|discriminate].
  apply andb_true_iff in E. destruct E as [E1 E2].
  apply Z.leb_le in E1. apply Z.ltb_lt in E2. unfold len in *.
  inversion H; subst a'; clear H.
  assert (Hf : List.length (firstn (Z.to_nat i) a) = Z.to_nat i)
    by (rewrite length_firstn; lia).
  split.
  - destruct (store_Some a i x) as (a' & Hs & Hl & _); [unfold len; lia|].
    unfold store in Hs.
    replace ((0 <=? i) && (i <? len a)) with true in Hs
      by (symmetry; apply andb_true_iff; split;
          [apply Z.leb_le | apply Z.ltb_lt]; unfold len; lia).
    inversion Hs as [Ha]. unfold len in Hl. rewrite Ha. exact Hl.
  - replace (Z.to_nat (i + 1)) with (Z.to_nat i + 1)%nat by lia.
    rewrite firstn_app, Hf.
    replace (Z.to_nat i + 1 - Z.to_nat i)%nat with 1%nat by lia.
    rewrite firstn_all2 by lia. reflexivity.
Qed.

Lemma firstn_firstn_le {A} (a b : list A) (n m : nat) :
  (n <= m)%nat -> firstn m a = firstn m b -> firstn n a = firstn n b.
Proof.
  intros Hnm H. rewrite <- (Nat.min_l n m) by assumption.
  rewrite <- !firstn_firstn. now rewrite H.
Qed.

(** The text is decoded from what it was escaped to, up to the NUL that
    ends the escaped text. *)
Lemma URLDecode_loop_escaped (cs : list ascii) (tail : list ascii)
    (decodedCapacity : Z) (type : URLDecodeType) :
  decodedCapacity < 2 ^ 64 ->
  forall decoded deci firstDigit,
    len decoded = decodedCapacity ->
    0 <= deci -> deci + len cs <= decodedCapacity - 1 ->
    exists decoded',
      URLDecode_loop (flat_map Resp.escaped_byte cs ++ NUL :: tail) decoded
        decodedCapacity type deci URLDecodeStateNormal firstDigit
      = Ok decoded' /\
      firstn (Z.to_nat (deci + len cs + 1)) decoded'
      = firstn (Z.to_nat deci) decoded ++ cs ++ [NUL].
Proof.
  intros Hc. induction cs as [|c cs IH]; intros decoded deci fd Hl Hd Hn.
  - cbn [flat_map app URLDecode_loop].
    change (Ascii.eqb NUL NUL) with true.
    destruct (store_Some decoded deci NUL) as (a' & Hs & _); [unfold len in *; lia|].
    assert (Hfin : from_option FieldOutOfBounds (store decoded deci NUL) = Ok a')
      by now rewrite Hs.
    exists a'. split.
    + destruct (wrap (decodedCapacity - 1) <=? deci); exact Hfin.
    + apply store_firstn in Hs. change (len (@nil ascii)) with 0.
      rewrite Z.add_0_r. apply Hs.
  - cbn [flat_map]. rewrite <- app_assoc.
    change (len (c :: cs)) with (Z.of_nat (S (List.length cs))) in *.
    assert (Hcs : Z.of_nat (S (List.length cs)) = len cs + 1) by (unfold len; lia).
    rewrite Hcs in *.
    destruct (URLDecode_loop_escaped_byte c (flat_map Resp.escaped_byte cs ++ NUL :: tail)
                decoded decodedCapacity type deci fd) as (fd' & ->); [lia | lia |].
    destruct (store_Some decoded deci c) as (a' & Hs & Hl' & _); [lia|].
    rewrite Hs. cbn [from_option bind].
    destruct (IH a' (deci + 1) fd') as (decoded' & Hr & Hf); [lia | lia | lia |].
    exists decoded'. split; [exact Hr|].
    replace (deci + (len cs + 1) + 1) with (deci + 1 + len cs + 1) by lia.
    rewrite Hf. apply store_firstn in Hs. destruct Hs as [_ ->].
    rewrite <- !app_assoc. reflexivity.
Qed.

(** What [strdupEscapeForURL] does for one byte. *)
Lemma url_escape_step_text (string : HeapString) (c : ascii) :
  fits string -> length string + 4 <= 2 ^ 63 ->
  exists s', Resp.url_escape_step (Ok string) c = Ok s' /\
             text s' = text string ++ Resp.escaped_byte c /\ fits s' /\
             length s' = length string + len (Resp.escaped_byte c) /\ terminated s'.
Proof.
  intros Hf Hb. unfold Resp.url_escape_step, Resp.escaped_byte. cbn [bind]. cbv zeta.
  destruct (_ || _).
  - apply heapStringAppendChar_text; [assumption | lia].
  - apply heapStringAppendFormatV_text; [assumption|].
    change (len [_; _; _]) with 3. lia.
Qed.

Lemma len_flat_map_escaped_byte (cs : list ascii) :
  len cs <= len (flat_map Resp.escaped_byte cs) <= 3 * len cs.
Proof.
  induction cs as [|c cs IH]; cbn [flat_map]; [cbn; lia|].
  rewrite len_app. pose proof (len_escaped_byte c).
  change (len (c :: cs)) with (Z.of_nat (S (List.length cs))).
  unfold len in *. lia.
Qed.

(** The loop of [strdupEscapeForURL]. *)
Lemma url_escape_fold_text (cs : list ascii) :
  forall string,
    fits string -> length string + 3 * len cs + 1 <= 2 ^ 63 ->
    exists s', fold_left Resp.url_escape_step cs (Ok string) = Ok s' /\
               text s' = text string ++ flat_map Resp.escaped_byte cs /\ fits s' /\
               length s' = length string + len (flat_map Resp.escaped_byte cs) /\
               (cs <> [] -> terminated s') /\ (cs = [] -> s' = string).
Proof.
  induction cs as [|c cs IH]; intros string Hf Hb.
  - exists string. cbn [fold_left flat_map]. rewrite app_nil_r.
    split; [reflexivity|]. split; [reflexivity|]. split; [assumption|].
    split; [change (len (@nil ascii)) with 0; lia|].
    split; [intros H; now contradiction H | reflexivity].
  - cbn [fold_left flat_map].
    change (len (c :: cs)) with (Z.of_nat (S (List.length cs))) in Hb.
    assert (Hcs : Z.of_nat (S (List.length cs)) = len cs + 1) by (unfold len; lia).
    rewrite Hcs in Hb. pose proof (len_nonneg cs) as Hcs0.
    destruct Hf as [Hal Hle]. pose proof Hal as (Hl0 & _).
    destruct (url_escape_step_text string c) as (s1 & -> & Ht1 & Hf1 & Hl1 & Htm1);
      [split; assumption | lia |].
    pose proof (len_escaped_byte c) as Hc3.
    destruct (IH s1 Hf1) as (s2 & -> & Ht2 & Hf2 & Hl2 & Htm2 & Hnil); [lia|].
    exists s2. split; [reflexivity|]. split; [|split; [assumption|]].
    + rewrite Ht2, Ht1, <- app_assoc. reflexivity.
    + split; [rewrite Hl2, Hl1, len_app; lia|]. split; [|discriminate].
      intros _. destruct cs as [|c' cs']; [|apply Htm2; discriminate].
      rewrite (Hnil eq_refl). assumption.
Qed.

Lemma split_at {A} (a : list A) (n : nat) (d : A) :
  (n < List.length a)%nat -> a = firstn n a ++ nth n a d :: skipn (S n) a.
Proof.
  revert a. induction n as [|n IH]; intros [|x a] H; cbn in H; try lia.
  - reflexivity.
  - cbn [firstn nth skipn app]. f_equal. apply IH. lia.
Qed.

Lemma escaped_byte_no_NUL (cs : list ascii) :
  Forall (fun c => c <> NUL) cs ->
  Forall (fun c => c <> NUL) (flat_map Resp.escaped_byte cs).
Proof.
  induction 1 as [|c cs Hc _ IH]; cbn [flat_map]; [constructor|].
  apply Forall_app. split; [|assumption].
  destruct (escaped_byte_cases c) as [->|(h1 & h2 & -> & N1 & _ & N2 & _)].
  - now constructor.
  - apply Ascii.eqb_neq in N1, N2.
    constructor; [discriminate|]. constructor; [assumption|]. now constructor.
Qed.

(** [URLDecode] gives back what [strdupEscapeForURL] was given: the bytes
    that are escaped as a percent sign and two hexadecimal digits are read
    back from the digits, and the letters are copied.  The decoded text
    needs an array of more bytes than it has; the escaped text is at most
    three times as long as the text.  For the empty text
    [strdupEscapeForURL] returns [NULL]. *)
Theorem URLDecode_strdupEscapeForURL
    (stringToEscape decoded : list ascii) (type : URLDecodeType) :
  strlen stringToEscape < len decoded -> len decoded < 2 ^ 64 ->
  3 * strlen stringToEscape + 1 <= 2 ^ 63 ->
  match cstring stringToEscape with
  | [] => Resp.strdupEscapeForURL stringToEscape = Ok None
  | _ :: _ =>
      exists escaped decoded',
        Resp.strdupEscapeForURL stringToEscape = Ok (Some escaped) /\
        strlen stringToEscape <= strlen escaped <= 3 * strlen stringToEscape /\
        URLDecode escaped decoded (len decoded) type = Ok decoded' /\
        len decoded' = len decoded /\
        cstring decoded' = cstring stringToEscape
  end.
Proof.
  unfold strlen, Resp.strdupEscapeForURL. intros Hlen Hcap Hb.
  pose proof (cstring_no_NUL stringToEscape) as Hno.
  destruct (url_escape_fold_text (cstring stringToEscape) empty_string fits_empty)
    as (s' & Hfold & Ht & Hf & Hl & Htm & Hnil); [cbn [length empty_string heapStringInit]; lia|].
  change (heapStringInit _) with empty_string. rewrite Hfold. cbn [bind].
  destruct (cstring stringToEscape) as [|c cs] eqn:Ecs.
  - rewrite (Hnil eq_refl). reflexivity.
  - rewrite <- Ecs in *. clear Hnil.
    destruct Htm as (Hlt & a & Ha & Hla & Hca & Hnul); [rewrite Ecs; discriminate|].
    set (cs0 := cstring stringToEscape) in *.
    change (text empty_string) with (@nil ascii) in Ht.
    change (length empty_string) with 0 in Hl.
    unfold text in Ht. rewrite Ha in Ht. cbn [app] in Ht.
    pose proof (len_flat_map_escaped_byte cs0) as Hlf.
    assert (Hsplit : a = flat_map Resp.escaped_byte cs0
                         ++ NUL :: skipn (S (Z.to_nat (length s'))) a).
    { rewrite <- Ht. rewrite <- Hnul. unfold load. apply split_at.
      unfold len in Hla. lia. }
    destruct (URLDecode_loop_escaped cs0 (skipn (S (Z.to_nat (length s'))) a)
                (len decoded) type Hcap decoded 0 NUL)
      as (decoded' & Hdec & Hfirst); [reflexivity | lia | lia |].
    destruct (URLDecode_loop_ok a decoded (len decoded) type 0 URLDecodeStateNormal NUL)
      as (decoded2 & Hdec2 & Hlen2); [reflexivity | assumption | lia |].
    exists a, decoded'. rewrite Ha. split; [reflexivity|].
    unfold URLDecode. rewrite Hsplit at 1 2 3.
    rewrite (cstring_app_NUL _ _ (escaped_byte_no_NUL _ Hno)).
    split; [lia|]. rewrite Hdec. split; [reflexivity|].
    rewrite <- Hsplit in Hdec. rewrite Hdec in Hdec2. inversion Hdec2; subst decoded2.
    split; [assumption|].
    change (Z.to_nat 0) with 0%nat in Hfirst. cbn [firstn app] in Hfirst.
    rewrite <- (firstn_skipn (Z.to_nat (0 + len cs0 + 1)) decoded'), Hfirst.
    rewrite <- app_assoc. cbn [app]. now apply cstring_app_NUL.
Qed.

Lemma URLDecode_strdupEscapeForURL_witness :
  exists escaped decoded',
    Resp.strdupEscapeForURL (bytes "a b/c+d%e&f=1") = Ok (Some escaped) /\
    strlen (bytes "a b/c+d%e&f=1") <= strlen escaped <= 3 * strlen (bytes "a b/c+d%e&f=1") /\
    URLDecode escaped (zeros 32) (len (zeros 32)) URLDecodeTypeParameter = Ok decoded' /\
    len decoded' = len (zeros 32) /\
    cstring decoded' = cstring (bytes "a b/c+d%e&f=1").
Proof.
  apply (URLDecode_strdupEscapeForURL (bytes "a b/c+d%e&f=1") (zeros 32)
           URLDecodeTypeParameter); vm_compute; congruence.
Defined.

End URLRoundTrip.

(** ** Resp.strdupEscapeForHTML *)

Section EscapeForHTML.
Import HeapStr.

Lemma html_entity_bytes (c : ascii) :
  c <> NUL ->
  1 <= len (Resp.html_entity c) <= 6 /\
  Forall (fun d => d <> NUL /\ Resp.html_special d = false) (Resp.html_entity c) /\
  (Resp.html_special c = false -> c <> "&"%char -> Resp.html_entity c = [c]).
Proof.
  destruct c as [[] [] [] [] [] [] [] []]; intros H;
    try (exfalso; apply H; reflexivity);
    (split; [vm_compute; split; discriminate|]);
    (split; [repeat constructor; discriminate|]);
    intros H1 H2; try discriminate H1; try (exfalso; apply H2; reflexivity);
    reflexivity.
Qed.

Lemma html_escape_step_text (string : HeapString) (c : ascii) :
  fits string -> length string + 7 <= 2 ^ 63 ->
  exists s', Resp.html_escape_step (Ok string) c = Ok s' /\
             text s' = text string ++ Resp.html_entity c /\ fits s' /\
             length s' = length string + len (Resp.html_entity c) /\ terminated s'.
Proof.
  intros Hf Hb. unfold Resp.html_escape_step, Resp.html_entity. cbn [bind].
  repeat (destruct (Ascii.eqb c _);
          [apply heapStringAppendFormatV_text; [assumption | cbn; lia]|]).
  apply heapStringAppendChar_text; [assumption | lia].
Qed.

Lemma html_escape_fold_text (cs : list ascii) :
  Forall (fun c => c <> NUL) cs ->
  forall string,
    fits string -> length string + 6 * len cs + 1 <= 2 ^ 63 ->
    exists s', fold_left Resp.html_escape_step cs (Ok string) = Ok s' /\
               text s' = text string ++ flat_map Resp.html_entity cs /\ fits s' /\
               (cs <> [] -> terminated s').
Proof.
  induction 1 as [|c cs Hc Hcs IH]; intros string Hf Hb.
  - exists string. cbn [fold_left flat_map]. rewrite app_nil_r.
    split; [reflexivity|]. split; [reflexivity|]. split; [assumption|].
    intros H; now contradiction H.
  - cbn [fold_left flat_map].
    change (len (c :: cs)) with (Z.of_nat (S (List.length cs))) in Hb.
    assert (Hl : Z.of_nat (S (List.length cs)) = len cs + 1) by (unfold len; lia).
    rewrite Hl in Hb. pose proof (len_nonneg cs) as Hcs0.
    pose proof Hf as ((Hl0 & _) & _).
    destruct (html_escape_step_text string c) as (s1 & -> & Ht1 & Hf1 & Hl1 & Htm1);
      [assumption | lia |].
    destruct (html_entity_bytes c Hc) as (Hc6 & _).
    destruct (IH s1 Hf1) as (s2 & Hfold & Ht2 & Hf2 & Htm2); [lia|].
    exists s2. split; [exact Hfold|]. split; [|split; [assumption|]].
    + rewrite Ht2, Ht1, <- app_assoc. reflexivity.
    + intros _. destruct cs as [|c' cs']; [|apply Htm2; discriminate].
      cbn [fold_left] in Hfold. inversion Hfold; subst s2. assumption.
Qed.

Lemma html_entity_flat (cs : list ascii) :
  Forall (fun c => c <> NUL) cs ->
  Forall (fun d => d <> NUL /\ Resp.html_special d = false) (flat_map Resp.html_entity cs) /\
  (Forall (fun c => Resp.html_special c = false /\ c <> "&"%char) cs ->
   flat_map Resp.html_entity cs = cs).
Proof.
  induction 1 as [|c cs Hc Hcs IH]; cbn [flat_map].
  - split; [constructor | reflexivity].
  - destruct (html_entity_bytes c Hc) as (_ & Hs & Hid). destruct IH as [IH1 IH2].
    split; [apply Forall_app; split; assumption|].
    intros H. inversion H as [|? ? [H1 H2] H3]; subst.
    rewrite (Hid H1 H2), (IH2 H3). reflexivity.
Qed.

(** [Resp.strdupEscapeForHTML] returns a string, also for the empty text; the
    string has no quote, no apostrophe, no angle bracket and no space; and
    a text that has none of these bytes and no ampersand is returned as it
    is. *)
Theorem strdupEscapeForHTML_safe (stringToEscape : list ascii) :
  6 * strlen stringToEscape + 1 <= 2 ^ 63 ->
  exists escaped,
    Resp.strdupEscapeForHTML stringToEscape = Ok (Some escaped) /\
    cstring escaped = flat_map Resp.html_entity (cstring stringToEscape) /\
    Forall (fun c => Resp.html_special c = false) (cstring escaped) /\
    (Forall (fun c => Resp.html_special c = false /\ c <> "&"%char) (cstring stringToEscape) ->
     cstring escaped = cstring stringToEscape).
Proof.
  intros Hb. unfold Resp.strdupEscapeForHTML, strlen in *. cbv zeta.
  pose proof (cstring_no_NUL stringToEscape) as Hno.
  destruct (html_entity_flat _ Hno) as [Hsafe Hid].
  destruct (cstring stringToEscape) as [|c cs] eqn:Ecs.
  - exists [NUL]. cbn. repeat split; constructor.
  - rewrite <- Ecs in *.
    replace (0 =? len (cstring stringToEscape)) with false
      by (symmetry; apply Z.eqb_neq; rewrite Ecs; unfold len; cbn [List.length]; lia).
    change (heapStringInit _) with empty_string.
    destruct (html_escape_fold_text _ Hno empty_string fits_empty)
      as (s' & -> & Ht & Hf & Htm); [cbn [length empty_string heapStringInit]; lia|].
    cbn [bind].
    destruct Htm as (Hlt & a & Ha & Hla & Hca & Hnul); [rewrite Ecs; discriminate|].
    change (text empty_string) with (@nil ascii) in Ht.
    unfold text in Ht. rewrite Ha in Ht. cbn [app] in Ht.
    assert (Hsplit : a = flat_map Resp.html_entity (cstring stringToEscape)
                         ++ NUL :: skipn (S (Z.to_nat (length s'))) a).
    { rewrite <- Ht. rewrite <- Hnul. unfold load. apply split_at.
      unfold len in Hla. lia. }
    assert (Hcs : cstring a = flat_map Resp.html_entity (cstring stringToEscape)).
    { rewrite Hsplit. apply cstring_app_NUL.
      eapply Forall_impl; [|exact Hsafe]. intros d [Hd _]. exact Hd. }
    exists a. rewrite Ha. split; [reflexivity|]. split; [exact Hcs|].
    rewrite Hcs. split.
    + eapply Forall_impl; [|exact Hsafe]. intros d [_ Hd]. exact Hd.
    + exact Hid.
Qed.

Lemma strdupEscapeForHTML_safe_witness :
  exists escaped,
    Resp.strdupEscapeForHTML (bytes "<a href='x'> t") = Ok (Some escaped) /\
    cstring escaped = flat_map Resp.html_entity (cstring (bytes "<a href='x'> t")) /\
    Forall (fun c => Resp.html_special c = false) (cstring escaped) /\
    (Forall (fun c => Resp.html_special c = false /\ c <> "&"%char)
       (cstring (bytes "<a href='x'> t")) ->
     cstring escaped = cstring (bytes "<a href='x'> t")).
Proof.
  apply (strdupEscapeForHTML_safe (bytes "<a href='x'> t")). vm_compute. congruence.
Defined.

End EscapeForHTML.

(** ** requestParse: the request line *)

Section RequestLine.
Import Parser.

Lemma filled_nil (a : list ascii) (n limit : Z) :
  0 <= n <= limit -> filled a n limit [] = a.
Proof.
  intros H. unfold filled. change (len (@nil ascii)) with 0.
  rewrite firstn_nil. cbn [app]. rewrite Z.add_0_r, Z.min_r by lia.
  apply firstn_skipn.
Qed.

Lemma filled_full (a : list ascii) (limit : Z) (bs : list ascii) :
  0 <= limit -> filled a limit limit bs = a.
Proof.
  intros H. unfold filled. rewrite Z.sub_diag. cbn [Z.to_nat firstn app].
  rewrite Z.min_l by (pose proof (len_nonneg bs); lia). apply firstn_skipn.
Qed.

Lemma skipn_after_store {A} (l : list A) (c : A) (r : list A) :
  skipn (S (List.length l)) (l ++ c :: r) = r.
Proof. induction l as [|x l IH]; [reflexivity | exact IH]. Qed.

Lemma filled_step (a a1 : list ascii) (n limit : Z) (c : ascii) (bs : list ascii) :
  0 <= n < limit -> store a n c = Some a1 ->
  filled a1 (n + 1) limit bs = filled a n limit (c :: bs).
Proof.
  intros Hn Hs. unfold filled.
  assert (Hi : 0 <= n < len a).
  { unfold store in Hs. destruct ((0 <=? n) && (n <? len a)) eqn:E; [|discriminate].
    apply andb_true_iff in E. destruct E as [E1 E2].
    apply Z.leb_le in E1. apply Z.ltb_lt in E2. lia. }
  rewrite (store_explicit a n c Hi) in Hs. inversion Hs; subst a1; clear Hs.
  assert (Hf : List.length (firstn (Z.to_nat n) a) = Z.to_nat n)
    by (rewrite length_firstn; unfold len in Hi; lia).
  replace (Z.to_nat (n + 1)) with (Z.to_nat n + 1)%nat by lia.
  rewrite firstn_app, Hf.
  replace (Z.to_nat n + 1 - Z.to_nat n)%nat with 1%nat by lia.
  rewrite firstn_all2 by lia. cbn [firstn].
  replace (Z.to_nat (limit - n)) with (S (Z.to_nat (limit - (n + 1)))) by lia.
  cbn [firstn]. rewrite <- !app_assoc. cbn [app]. do 3 f_equal.
  change (len (c :: bs)) with (Z.of_nat (S (List.length bs))).
  replace (Z.of_nat (S (List.length bs))) with (len bs + 1) by (unfold len; lia).
  pose proof (len_nonneg bs) as Hb.
  replace (n + (len bs + 1)) with (n + 1 + len bs) by lia.
  set (k := Z.min limit (n + 1 + len bs)).
  assert (Hk : n + 1 <= k) by (subst k; lia).
  replace (Z.to_nat k) with (Z.to_nat (k - (n + 1)) + S (Z.to_nat n))%nat by lia.
  rewrite <- !(skipn_skipn (Z.to_nat (k - (n + 1))) (S (Z.to_nat n))).
  f_equal.
  pose proof (skipn_after_store (firstn (Z.to_nat n) a) c (skipn (S (Z.to_nat n)) a))
    as Hsk.
  rewrite Hf in Hsk. exact Hsk.
Qed.

Lemma len_cons {A} (x : A) (l : list A) : len (x :: l) = len l + 1.
Proof. unfold len. cbn [List.length]. lia. Qed.

(** The bytes of the method, up to the space that ends it. *)
Lemma method_bytes (bs : list ascii) :
  Forall (fun c => c <> " "%char) bs ->
  forall r, state r = RequestParseStateMethod ->
    0 <= methodLength r <= 63 -> 63 < len (method r) ->
    requestParse_bytes r bs
    = Ok (set_warnings
            (set_method r (filled (method r) (methodLength r) 63 bs)
               (Z.min 63 (methodLength r + len bs)))
            (if 63 <? methodLength r + len bs
             then warnings (warn_methodTruncated r) else warnings r)).
Proof.
  induction 1 as [|c bs Hc _ IH]; intros r Est Hn Hl; cbn [requestParse_bytes].
  - rewrite filled_nil by assumption. change (len (@nil ascii)) with 0.
    rewrite Z.add_0_r, Z.min_r by lia.
    replace (63 <? methodLength r) with false by (symmetry; apply Z.ltb_ge; lia).
    destruct r; reflexivity.
  - pose proof (len_nonneg bs) as Hb.
    unfold requestParse_byte, requestParse_turn. rewrite Est.
    replace (Ascii.eqb c " ") with false by (symmetry; now apply Ascii.eqb_neq).
    rewrite len_cons.
    destruct (methodLength r <? 64 - 1) eqn:E.
    + apply Z.ltb_lt in E.
      destruct (store_Some (method r) (methodLength r) c) as (a1 & Hs & Hl1 & _); [lia|].
      rewrite Hs. cbn [from_option bind Z.eqb]. rewrite wrap_small by lia.
      rewrite IH; cbn [state set_method methodLength method]; try assumption; try lia.
      rewrite (filled_step (method r) a1 (methodLength r) 63 c bs ltac:(lia) Hs).
      replace (methodLength r + 1 + len bs) with (methodLength r + (len bs + 1)) by lia.
      destruct (63 <? _); reflexivity.
    + apply Z.ltb_ge in E. cbn [bind Z.eqb].
      assert (E63 : methodLength r = 63) by lia.
      rewrite IH; cbn [state warn_methodTruncated set_warnings methodLength method];
        try assumption; try lia.
      rewrite E63, !filled_full by lia.
      rewrite !Z.min_l by lia.
      replace (63 <? 63 + (len bs + 1)) with true by (symmetry; apply Z.ltb_lt; lia).
      destruct (63 <? _); reflexivity.
Qed.

(** The bytes of the path, up to the space that ends it. *)
Lemma path_bytes (bs : list ascii) :
  Forall (fun c => c <> " "%char) bs ->
  forall r, state r = RequestParseStatePath ->
    0 <= pathLength r <= 1023 -> 1023 < len (path r) ->
    requestParse_bytes r bs
    = Ok (set_warnings
            (set_path r (filled (path r) (pathLength r) 1023 bs)
               (Z.min 1023 (pathLength r + len bs)))
            (if 1023 <? pathLength r + len bs
             then warnings (warn_pathTruncated r) else warnings r)).
Proof.
  induction 1 as [|c bs Hc _ IH]; intros r Est Hn Hl; cbn [requestParse_bytes].
  - rewrite filled_nil by assumption. change (len (@nil ascii)) with 0.
    rewrite Z.add_0_r, Z.min_r by lia.
    replace (1023 <? pathLength r) with false by (symmetry; apply Z.ltb_ge; lia).
    destruct r; reflexivity.
  - pose proof (len_nonneg bs) as Hb.
    unfold requestParse_byte, requestParse_turn. rewrite Est.
    replace (Ascii.eqb c " ") with false by (symmetry; now apply Ascii.eqb_neq).
    rewrite len_cons.
    destruct (pathLength r <? 1024 - 1) eqn:E.
    + apply Z.ltb_lt in E.
      destruct (store_Some (path r) (pathLength r) c) as (a1 & Hs & Hl1 & _); [lia|].
      rewrite Hs. cbn [from_option bind Z.eqb]. rewrite wrap_small by lia.
      rewrite IH; cbn [state set_path pathLength path]; try assumption; try lia.
      rewrite (filled_step (path r) a1 (pathLength r) 1023 c bs ltac:(lia) Hs).
      replace (pathLength r + 1 + len bs) with (pathLength r + (len bs + 1)) by lia.
      destruct (1023 <? _); reflexivity.
    + apply Z.ltb_ge in E. cbn [bind Z.eqb].
      assert (E63 : pathLength r = 1023) by lia.
      rewrite IH; cbn [state warn_pathTruncated set_warnings pathLength path];
        try assumption; try lia.
      rewrite E63, !filled_full by lia.
      rewrite !Z.min_l by lia.
      replace (1023 <? 1023 + (len bs + 1)) with true by (symmetry; apply Z.ltb_lt; lia).
      destruct (1023 <? _); reflexivity.
Qed.

(** The bytes of the version, up to the carriage return that ends it. *)
Lemma version_bytes (bs : list ascii) :
  Forall (fun c => c <> CR) bs ->
  forall r, state r = RequestParseStateVersion ->
    0 <= versionLength r <= 15 -> 15 < len (version r) ->
    requestParse_bytes r bs
    = Ok (set_warnings
            (set_version r (filled (version r) (versionLength r) 15 bs)
               (Z.min 15 (versionLength r + len bs)))
            (if 15 <? versionLength r + len bs
             then warnings (warn_versionTruncated r) else warnings r)).
Proof.
  induction 1 as [|c bs Hc _ IH]; intros r Est Hn Hl; cbn [requestParse_bytes].
  - rewrite filled_nil by assumption. change (len (@nil ascii)) with 0.
    rewrite Z.add_0_r, Z.min_r by lia.
    replace (15 <? versionLength r) with false by (symmetry; apply Z.ltb_ge; lia).
    destruct r; reflexivity.
  - pose proof (len_nonneg bs) as Hb.
    unfold requestParse_byte, requestParse_turn. rewrite Est.
    replace (Ascii.eqb c CR) with false by (symmetry; now apply Ascii.eqb_neq).
    rewrite len_cons.
    destruct (versionLength r <? 16 - 1) eqn:E.
    + apply Z.ltb_lt in E.
      destruct (store_Some (version r) (versionLength r) c) as (a1 & Hs & Hl1 & _); [lia|].
      rewrite Hs. cbn [from_option bind Z.eqb]. rewrite wrap_small by lia.
      rewrite IH; cbn [state set_version versionLength version]; try assumption; try lia.
      rewrite (filled_step (version r) a1 (versionLength r) 15 c bs ltac:(lia) Hs).
      replace (versionLength r + 1 + len bs) with (versionLength r + (len bs + 1)) by lia.
      destruct (15 <? _); reflexivity.
    + apply Z.ltb_ge in E. cbn [bind Z.eqb].
      assert (E63 : versionLength r = 15) by lia.
      rewrite IH; cbn [state warn_versionTruncated set_warnings versionLength version];
        try assumption; try lia.
      rewrite E63, !filled_full by lia.
      rewrite !Z.min_l by lia.
      replace (15 <? 15 + (len bs + 1)) with true by (symmetry; apply Z.ltb_lt; lia).
      destruct (15 <? _); reflexivity.
Qed.

Lemma skipn_repeat_sub {A} (x : A) (n k : nat) :
  skipn k (repeat x n) = repeat x (n - k).
Proof.
  revert n. induction k as [|k IH]; intros [|n]; cbn [skipn repeat Nat.sub];
    try reflexivity. apply IH.
Qed.

Lemma Forall_firstn_keep {A} (P : A -> Prop) (l : list A) (n : nat) :
  Forall P l -> Forall P (firstn n l).
Proof.
  intros H. revert n. induction H as [|x l Hx _ IH]; intros [|n]; cbn [firstn];
    constructor; auto.
Qed.

(** A field of the fresh request that has been filled is a C string: the
    bytes that went into it. *)
Lemma cstring_filled (size limit : Z) (bs : list ascii) :
  0 <= limit < size -> Forall (fun c => c <> NUL) bs ->
  cstring (filled (zeros size) 0 limit bs) = firstn (Z.to_nat limit) bs.
Proof.
  intros H Hno. unfold filled. cbn [Z.to_nat firstn app]. rewrite Z.sub_0_r.
  pose proof (len_nonneg bs) as Hb.
  set (k := Z.min limit (0 + len bs)).
  assert (Hk : exists rest, skipn (Z.to_nat k) (zeros size) = NUL :: rest).
  { unfold zeros. rewrite skipn_repeat_sub.
    replace (Z.to_nat size - Z.to_nat k)%nat
      with (S (Z.to_nat size - Z.to_nat k - 1)) by (subst k; lia).
    eexists. reflexivity. }
  destruct Hk as (rest & ->).
  apply cstring_app_NUL. now apply Forall_firstn_keep.
Qed.

(* Closed comparisons of numbers. *)
Ltac closed := vm_compute; repeat split; (reflexivity || discriminate).

(** The request line, byte by byte: what it leaves in the request. *)
Lemma request_line_bytes (m p v : list ascii) :
  Forall (fun c => c <> " "%char /\ c <> NUL) m ->
  Forall (fun c => c <> " "%char /\ c <> NUL) p ->
  Forall (fun c => c <> CR /\ c <> NUL) v ->
  exists request,
    requestParse_bytes zeroRequest (m ++ " "%char :: p ++ " "%char :: v ++ [CR])
    = Ok request /\
    (state request = RequestParseStateCR /\
     cstring (method request) = firstn 63 m /\
     cstring (path request) = firstn 1023 p /\
     cstring (version request) = firstn 15 v /\
     URLDecode (path request) (zeros 1024) 1024 URLDecodeTypeWholeURL
     = Ok (pathDecoded request) /\
     methodTruncated (warnings request) = (63 <? len m) /\
     pathTruncated (warnings request) = (1023 <? len p) /\
     versionTruncated (warnings request) = (15 <? len v)) /\
    headers request = headers zeroRequest /\
    headersCount request = 0 /\
    headersStringPool request = headersStringPool zeroRequest /\
    headersStringPoolOffset request = 0 /\
    body request = body zeroRequest /\
    headersStringPoolExhausted (warnings request) = false /\
    headersTooManyDropped (warnings request) = false /\
    bodyTruncated (warnings request) = false.
Proof.
  intros Hm Hp Hv.
  assert (Hm1 : Forall (fun c => c <> " "%char) m)
    by (eapply Forall_impl; [|exact Hm]; now intros c [H _]).
  assert (Hm2 : Forall (fun c => c <> NUL) m)
    by (eapply Forall_impl; [|exact Hm]; now intros c [_ H]).
  assert (Hp1 : Forall (fun c => c <> " "%char) p)
    by (eapply Forall_impl; [|exact Hp]; now intros c [H _]).
  assert (Hp2 : Forall (fun c => c <> NUL) p)
    by (eapply Forall_impl; [|exact Hp]; now intros c [_ H]).
  assert (Hv1 : Forall (fun c => c <> CR) v)
    by (eapply Forall_impl; [|exact Hv]; now intros c [H _]).
  assert (Hv2 : Forall (fun c => c <> NUL) v)
    by (eapply Forall_impl; [|exact Hv]; now intros c [_ H]).
  rewrite requestParse_bytes_app.
  rewrite (method_bytes m Hm1 zeroRequest eq_refl) by closed.
  cbn [bind requestParse_bytes].
  set (r1 := set_warnings _ _).
  assert (E1 : requestParse_byte r1 " " = Ok (set_state r1 RequestParseStatePath))
    by reflexivity.
  rewrite E1. cbn [bind]. clear E1.
  rewrite requestParse_bytes_app.
  rewrite (path_bytes p Hp1 (set_state r1 RequestParseStatePath) eq_refl)
    by closed.
  cbn [bind requestParse_bytes].
  set (r2 := set_warnings _ _).
  destruct (URLDecode_loop_ok (path r2) (pathDecoded r2) 1024 URLDecodeTypeWholeURL 0
              URLDecodeStateNormal NUL) as (decoded & Hdec & Hdl);
    [reflexivity | lia | lia |].
  assert (E2 : requestParse_byte r2 " "
               = Ok (set_state (set_pathDecoded r2 decoded) RequestParseStateVersion)).
  { unfold requestParse_byte, requestParse_turn.
    change (state r2) with RequestParseStatePath. cbn [Ascii.eqb Bool.eqb].
    unfold URLDecode. rewrite Hdec. reflexivity. }
  rewrite E2. cbn [bind]. clear E2.
  rewrite requestParse_bytes_app.
  rewrite (version_bytes v Hv1 (set_state (set_pathDecoded r2 decoded)
                                  RequestParseStateVersion) eq_refl)
    by closed.
  cbn [bind requestParse_bytes].
  set (r3 := set_warnings _ _).
  assert (E3 : requestParse_byte r3 CR = Ok (set_state r3 RequestParseStateCR))
    by reflexivity.
  rewrite E3. cbn [bind]. clear E3.
  eexists. split; [reflexivity|]. split.
  - split; [reflexivity|].
    split; [exact (cstring_filled 64 63 m ltac:(lia) Hm2)|].
    split; [exact (cstring_filled 1024 1023 p ltac:(lia) Hp2)|].
    split; [exact (cstring_filled 16 15 v ltac:(lia) Hv2)|].
    split; [exact Hdec|].
    subst r3 r2 r1.
    cbn [warnings set_state set_warnings set_version set_pathDecoded set_path
         set_method zeroRequest methodLength pathLength versionLength
         warn_methodTruncated warn_pathTruncated warn_versionTruncated].
    change (0 + ?x) with x.
    destruct (15 <? len v), (1023 <? len p), (63 <? len m);
      repeat split; reflexivity.
  - do 5 (split; [reflexivity|]).
    subst r3 r2 r1.
    cbn [warnings set_state set_warnings set_version set_pathDecoded set_path
         set_method zeroRequest methodLength pathLength versionLength
         warn_methodTruncated warn_pathTruncated warn_versionTruncated].
    change (0 + ?x) with x.
    destruct (15 <? len v), (1023 <? len p), (63 <? len m);
      repeat split; reflexivity.
Qed.

(** The request line.  For a method and a path without space or NUL, and
    a version without carriage return or NUL, [requestParse] leaves the
    method, the path and the version as C strings in the request, each cut
    to what its array holds, with the warning raised when it was cut; the
    decoded path is what [URLDecode] makes of the path. *)
Theorem requestParse_request_line (m p v : list ascii) :
  Forall (fun c => c <> " "%char /\ c <> NUL) m ->
  Forall (fun c => c <> " "%char /\ c <> NUL) p ->
  Forall (fun c => c <> CR /\ c <> NUL) v ->
  len m + len p + len v + 3 < 2 ^ 64 ->
  exists request,
    requestParse zeroRequest (m ++ " "%char :: p ++ " "%char :: v ++ [CR])
    = Some (Ok request) /\
    state request = RequestParseStateCR /\
    cstring (method request) = firstn 63 m /\
    cstring (path request) = firstn 1023 p /\
    cstring (version request) = firstn 15 v /\
    URLDecode (path request) (zeros 1024) 1024 URLDecodeTypeWholeURL
    = Ok (pathDecoded request) /\
    methodTruncated (warnings request) = (63 <? len m) /\
    pathTruncated (warnings request) = (1023 <? len p) /\
    versionTruncated (warnings request) = (15 <? len v).
Proof.
  intros Hm Hp Hv Hlen.
  destruct (request_line_bytes m p v Hm Hp Hv) as (request & Hr & Hfields & _).
  exists request. split; [|exact Hfields].
  rewrite requestParse_returns
    by (rewrite len_app, len_cons, len_app, len_cons, len_app, len_cons;
        change (len (@nil ascii)) with 0; lia).
  now rewrite Hr.
Qed.

Lemma requestParse_request_line_witness :
  exists request,
    requestParse zeroRequest
      (bytes "GET" ++ " "%char :: bytes "/a%20b" ++ " "%char :: bytes "HTTP/1.1" ++ [CR])
    = Some (Ok request) /\
    state request = RequestParseStateCR /\
    cstring (method request) = firstn 63 (bytes "GET") /\
    cstring (path request) = firstn 1023 (bytes "/a%20b") /\
    cstring (version request) = firstn 15 (bytes "HTTP/1.1") /\
    URLDecode (path request) (zeros 1024) 1024 URLDecodeTypeWholeURL
    = Ok (pathDecoded request) /\
    methodTruncated (warnings request) = (63 <? len (bytes "GET")) /\
    pathTruncated (warnings request) = (1023 <? len (bytes "/a%20b")) /\
    versionTruncated (warnings request) = (15 <? len (bytes "HTTP/1.1")).
Proof.
  apply (requestParse_request_line (bytes "GET") (bytes "/a%20b") (bytes "HTTP/1.1"));
    [repeat constructor; discriminate .. | vm_compute; reflexivity].
Defined.

End RequestLine.

(** ** requestParse: the header lines *)

Section HeaderLines.
Import Parser.









































End HeaderLines.

(** ** requestParse: the line feed that ends the header block *)

Section EndOfHeaders.
Import Parser.

(** What [headerInRequest] returns is decided by the first header that has
    the name looked for or has no name. *)
Lemma headerInRequest_decided (headerName : list ascii) (request : Request) :
  0 <= headersCount request ->
  (forall i, 0 <= i < headersCount request ->
     name_matches request headerName i = Some true ->
     (forall j, 0 <= j < i -> name_matches request headerName j = Some false) ->
     headerInRequest headerName request = Ok (Some (header_at request i))) /\
  ((forall j, 0 <= j < headersCount request ->
      name_matches request headerName j = Some false) ->
   headerInRequest headerName request = Ok None) /\
  (forall i, 0 <= i < headersCount request ->
     name_matches request headerName i = None ->
     (forall j, 0 <= j < i -> name_matches request headerName j = Some false) ->
     headerInRequest headerName request = Crash HeaderNameNull).
Proof.
  intros Hc. unfold headerInRequest.
  pose proof (headerInRequest_loop_first headerName request
                (Z.to_nat (headersCount request)) 0) as H.
  rewrite Z2Nat.id in H by assumption.
  assert (Hclash : forall i i' (a b : option bool),
             0 <= i -> 0 <= i' ->
             name_matches request headerName i = a ->
             (forall j, 0 <= j < i -> name_matches request headerName j = Some false) ->
             name_matches request headerName i' = b ->
             (forall j, 0 <= j < i' -> name_matches request headerName j = Some false) ->
             a <> Some false -> b <> Some false -> i = i').
  { intros i i' a b Hi Hi' Ha Hbefore Hb Hbefore' Hna Hnb.
    destruct (Z.lt_trichotomy i i') as [Hlt|[Heq|Hgt]]; [|assumption|].
    - exfalso. apply Hna. rewrite <- Ha. apply Hbefore'. lia.
    - exfalso. apply Hnb. rewrite <- Hb. apply Hbefore. lia. }
  repeat split.
  - intros i Hi Hm Hbefore.
    destruct (headerInRequest_loop _ _ _ _) as [[h|]|f].
    + destruct H as (i' & Hi' & -> & Hm' & Hbefore').
      rewrite (Hclash i i' _ _ ltac:(lia) ltac:(lia) Hm Hbefore Hm' Hbefore');
        [reflexivity | discriminate | discriminate].
    + rewrite H in Hm by lia. discriminate.
    + destruct H as (_ & i' & Hi' & Hm' & Hbefore').
      pose proof (Hclash i i' _ _ ltac:(lia) ltac:(lia) Hm Hbefore Hm' Hbefore'
                    ltac:(discriminate) ltac:(discriminate)) as E.
      subst i'. rewrite Hm in Hm'. discriminate.
  - intros Hnone.
    destruct (headerInRequest_loop _ _ _ _) as [[h|]|f].
    + destruct H as (i' & Hi' & _ & Hm' & _). rewrite Hnone in Hm' by lia. discriminate.
    + reflexivity.
    + destruct H as (_ & i' & Hi' & Hm' & _). rewrite Hnone in Hm' by lia. discriminate.
  - intros i Hi Hm Hbefore.
    destruct (headerInRequest_loop _ _ _ _) as [[h|]|f].
    + destruct H as (i' & Hi' & _ & Hm' & Hbefore').
      pose proof (Hclash i i' _ _ ltac:(lia) ltac:(lia) Hm Hbefore Hm' Hbefore'
                    ltac:(discriminate) ltac:(discriminate)) as E.
      subst i'. rewrite Hm in Hm'. discriminate.
    + rewrite H in Hm by lia. discriminate.
    + destruct H as (-> & _). reflexivity.
Qed.

(** The request that a fragment leaves, and the byte that follows. *)
Lemma requestParse_one_more (fragment : list ascii) (request : Request) (c : ascii) :
  len fragment + 1 < 2 ^ 64 ->
  requestParse zeroRequest fragment = Some (Ok request) ->
  invariant request /\ bounded request /\
  requestParse zeroRequest (fragment ++ [c]) = Some (requestParse_byte request c).
Proof.
  intros Hsize Hparse. pose proof (len_nonneg fragment) as Hpos.
  rewrite requestParse_returns in Hparse by lia.
  inversion Hparse as [Hbytes]; clear Hparse.
  pose proof (requestParse_bytes_bounded fragment zeroRequest invariant_zeroRequest
                bounded_zeroRequest) as Hb.
  rewrite Hbytes in Hb. destruct Hb as [Hinv Hbd].
  split; [assumption|]. split; [assumption|].
  rewrite requestParse_returns by (rewrite len_app; change (len [c]) with 1; lia).
  rewrite requestParse_bytes_app, Hbytes. cbn [bind requestParse_bytes].
  now destruct (requestParse_byte request c).
Qed.

Lemma requestParse_byte_end_of_headers (request : Request) :
  state request = RequestParseStateCRLFCR ->
  requestParse_byte request LF = end_of_headers request.
Proof.
  intros Hs. unfold requestParse_byte, requestParse_turn. rewrite Hs.
  change (Ascii.eqb LF LF) with true. cbv iota.
  now destruct (end_of_headers request).
Qed.

(** The end of the header block of a request that has been parsed from
    the start. *)
Lemma end_of_headers_reached (request : Request) :
  invariant request -> bounded request ->
  state request = RequestParseStateCRLFCR ->
  body request = zeroBody /\
  (forall i, 0 <= i < headersCount request ->
     name_matches request (bytes "Content-Length") i = Some true ->
     (forall j, 0 <= j < i ->
                name_matches request (bytes "Content-Length") j = Some false) ->
     exists q,
       PoolStr.contents (value (header_at request i)) = Some q /\
       (forall n, sscanf_ld (pool_string request q) = Some n ->
          end_of_headers request
          = Ok (set_state
                  (set_body request
                     {| HeapStr.contents :=
                          if 0 <? Z.max 0 (Z.min n REQUEST_MAX_BODY_LENGTH)
                          then Some (zeros (Z.max 0 (Z.min n REQUEST_MAX_BODY_LENGTH) + 1))
                          else None;
                        HeapStr.length := 0;
                        HeapStr.capacity := Z.max 0 (Z.min n REQUEST_MAX_BODY_LENGTH) |})
                  RequestParseStateBody)) /\
       (sscanf_ld (pool_string request q) = None ->
        end_of_headers request = Ok (set_state request RequestParseStateDone))) /\
  ((forall j, 0 <= j < headersCount request ->
      name_matches request (bytes "Content-Length") j = Some false) ->
   end_of_headers request = Ok (set_state request RequestParseStateDone)) /\
  (forall i, 0 <= i < headersCount request ->
     name_matches request (bytes "Content-Length") i = None ->
     (forall j, 0 <= j < i ->
                name_matches request (bytes "Content-Length") j = Some false) ->
     end_of_headers request = Crash HeaderNameNull).
Proof.
  intros Hinv Hbd Hs.
  assert (Hbody : body request = zeroBody)
    by (apply (inv_body _ Hinv); rewrite Hs; discriminate).
  destruct (headerInRequest_decided (bytes "Content-Length") request
              (proj1 (inv_count _ Hinv))) as (Hfirst & Hnone & Hnull).
  split; [assumption|].
  unfold end_of_headers. rewrite headerInRequest_set_state.
  change (pool_string (set_state request RequestParseStateDone))
    with (pool_string request).
  split; [|split].
  - intros i Hi Hm Hbefore. rewrite (Hfirst i Hi Hm Hbefore). cbn [bind].
    pose proof (b_values _ Hbd i Hi) as Hv.
    destruct (PoolStr.contents (value (header_at request i))) as [q|]; [|congruence].
    exists q. split; [reflexivity|]. split.
    + intros n ->. rewrite <- (clamp_max_min n). cbv zeta.
      change (body (set_state request RequestParseStateDone)) with (body request).
      rewrite Hbody. reflexivity.
    + intros ->. reflexivity.
  - intros Hall. rewrite (Hnone Hall). reflexivity.
  - intros i Hi Hm Hbefore. rewrite (Hnull i Hi Hm Hbefore). reflexivity.
Qed.

(** C5, as the code has it.  Whatever bytes lead a fresh request to the
    last line feed of the header block, what the line feed does is decided
    by the first header, among those counted, that is named Content-Length
    up to the case of the letters or that has no name.  If it is named
    Content-Length, it has a value; when [sscanf] reads a number [n] from
    the value, the capacity of the body is [n] clamped to 0 ..
    [REQUEST_MAX_BODY_LENGTH], its length is 0, the state is
    [RequestParseStateBody], and a zeroed block of capacity + 1 bytes is
    allocated exactly when the capacity is not 0; when no number is read,
    the state is [RequestParseStateDone].  If every header has a name and
    none is named Content-Length, the state is [RequestParseStateDone].  If
    it has no name, the [NULL] name goes to [strcasecmp].  Before the line
    feed the body is empty, and it stays so where the state becomes
    [RequestParseStateDone]. *)
Theorem C5_end_of_headers (fragment : list ascii) (request : Request) :
  len fragment + 1 < 2 ^ 64 ->
  requestParse zeroRequest fragment = Some (Ok request) ->
  state request = RequestParseStateCRLFCR ->
  body request = zeroBody /\
  (forall i, 0 <= i < headersCount request ->
     name_matches request (bytes "Content-Length") i = Some true ->
     (forall j, 0 <= j < i ->
                name_matches request (bytes "Content-Length") j = Some false) ->
     exists q,
       PoolStr.contents (value (header_at request i)) = Some q /\
       (forall n, sscanf_ld (pool_string request q) = Some n ->
          requestParse zeroRequest (fragment ++ [LF])
          = Some (Ok (set_state
                        (set_body request
                           {| HeapStr.contents :=
                                if 0 <? Z.max 0 (Z.min n REQUEST_MAX_BODY_LENGTH)
                                then Some (zeros (Z.max 0 (Z.min n REQUEST_MAX_BODY_LENGTH)
                                                  + 1))
                                else None;
                              HeapStr.length := 0;
                              HeapStr.capacity :=
                                Z.max 0 (Z.min n REQUEST_MAX_BODY_LENGTH) |})
                        RequestParseStateBody))) /\
       (sscanf_ld (pool_string request q) = None ->
        requestParse zeroRequest (fragment ++ [LF])
        = Some (Ok (set_state request RequestParseStateDone)))) /\
  ((forall j, 0 <= j < headersCount request ->
      name_matches request (bytes "Content-Length") j = Some false) ->
   requestParse zeroRequest (fragment ++ [LF])
   = Some (Ok (set_state request RequestParseStateDone))) /\
  (forall i, 0 <= i < headersCount request ->
     name_matches request (bytes "Content-Length") i = None ->
     (forall j, 0 <= j < i ->
                name_matches request (bytes "Content-Length") j = Some false) ->
     requestParse zeroRequest (fragment ++ [LF]) = Some (Crash HeaderNameNull)).
Proof.
  intros Hsize Hparse Hs.
  destruct (requestParse_one_more fragment request LF Hsize Hparse)
    as (Hinv & Hbd & ->).
  rewrite (requestParse_byte_end_of_headers request Hs).
  destruct (end_of_headers_reached request Hinv Hbd Hs)
    as (Hbody & Hfirst & Hnone & Hnull).
  split; [assumption|]. split; [|split].
  - intros i Hi Hm Hbefore. destruct (Hfirst i Hi Hm Hbefore) as (q & Hq & Hn & Hx).
    exists q. split; [assumption|]. split.
    + intros n Hr. now rewrite (Hn n Hr).
    + intros Hr. now rewrite (Hx Hr).
  - intros Hall. now rewrite (Hnone Hall).
  - intros i Hi Hm Hbefore. now rewrite (Hnull i Hi Hm Hbefore).
Qed.

Lemma C5_witness :
  requestParse zeroRequest (sample_content_length_5 ++ [LF])
  = Some (Ok (set_state
                (set_body (parsed sample_content_length_5)
                   {| HeapStr.contents := Some (zeros 6);
                      HeapStr.length := 0;
                      HeapStr.capacity := 5 |})
                RequestParseStateBody)).
Proof.
  destruct (C5_end_of_headers sample_content_length_5 (parsed sample_content_length_5))
    as (_ & H & _); [vm_compute; reflexivity .. |].
  destruct (H 0) as (q & Hq & Hn & _);
    [vm_compute; split; congruence | vm_compute; reflexivity | intros j Hj; lia |].
  vm_compute in Hq. inversion Hq; subst q.
  apply (Hn 5). vm_compute. reflexivity.
Defined.

(** C9 as the claim words it fails when the content length of 0 is not
    the header that [headerInRequest] finds.  After a Content-Length of 5,
    the header block has a Content-Length header whose value reads as 0,
    and the line feed leaves the state [RequestParseStateBody] with a
    capacity of 5 and storage for the body; after a Content-Length that is
    no number the state becomes [RequestParseStateDone]; and after a header
    line without a name the line feed faults. *)
Lemma C9_later_content_length_0_is_not_used :
  (state (parsed sample_length_5_then_0) = RequestParseStateCRLFCR /\
   header_strings (parsed sample_length_5_then_0) 1
   = (Some (bytes "Content-Length"), Some (bytes "0")) /\
   sscanf_ld (bytes "0") = Some 0 /\
   requestParse zeroRequest (sample_length_5_then_0 ++ [LF])
   = Some (Ok (parsed (sample_length_5_then_0 ++ [LF]))) /\
   state (parsed (sample_length_5_then_0 ++ [LF])) = RequestParseStateBody /\
   HeapStr.capacity (body (parsed (sample_length_5_then_0 ++ [LF]))) = 5 /\
   HeapStr.contents (body (parsed (sample_length_5_then_0 ++ [LF])))
   = Some (zeros 6)) /\
  (header_strings (parsed sample_length_x_then_0) 1
   = (Some (bytes "Content-Length"), Some (bytes "0")) /\
   requestParse zeroRequest (sample_length_x_then_0 ++ [LF])
   = Some (Ok (parsed (sample_length_x_then_0 ++ [LF]))) /\
   state (parsed (sample_length_x_then_0 ++ [LF])) = RequestParseStateDone) /\
  (header_strings (parsed sample_no_name_then_0) 1
   = (Some (bytes "Content-Length"), Some (bytes "0")) /\
   requestParse zeroRequest (sample_no_name_then_0 ++ [LF])
   = Some (Crash HeaderNameNull)).
Proof.
  repeat match goal with |- _ /\ _ => split end; vm_compute; reflexivity.
Qed.

(** C9, as the code has it.  Whatever bytes lead a fresh request to the
    last line feed of the header block: if the first header that is named
    Content-Length, up to the case of the letters, comes after headers that
    all have another name, and its value reads as 0 or as a negative
    number, then the line feed leaves the request in the state
    [RequestParseStateBody], not [RequestParseStateDone], with a capacity
    of 0, a length of 0 and no storage for the body; and the next byte, if
    one comes, is stored through the [NULL] pointer of the body. *)
Theorem C9_zero_content_length_waits_for_a_body
    (fragment : list ascii) (request : Request) (i q n : Z) :
  len fragment + 2 < 2 ^ 64 ->
  requestParse zeroRequest fragment = Some (Ok request) ->
  state request = RequestParseStateCRLFCR ->
  0 <= i < headersCount request ->
  name_matches request (bytes "Content-Length") i = Some true ->
  (forall j, 0 <= j < i ->
             name_matches request (bytes "Content-Length") j = Some false) ->
  PoolStr.contents (value (header_at request i)) = Some q ->
  sscanf_ld (pool_string request q) = Some n ->
  n <= 0 ->
  (exists request',
     requestParse zeroRequest (fragment ++ [LF]) = Some (Ok request') /\
     state request' = RequestParseStateBody /\
     state request' <> RequestParseStateDone /\
     HeapStr.capacity (body request') = 0 /\
     HeapStr.length (body request') = 0 /\
     HeapStr.contents (body request') = None) /\
  (forall c, requestParse zeroRequest ((fragment ++ [LF]) ++ [c])
             = Some (Crash BodyNull)).
Proof.
  intros Hsize Hparse Hs Hi Hm Hbefore Hq Hn Hle.
  pose proof (len_nonneg fragment) as Hpos.
  destruct (requestParse_one_more fragment request LF ltac:(lia) Hparse)
    as (Hinv & Hbd & Hnext).
  rewrite (requestParse_byte_end_of_headers request Hs) in Hnext.
  destruct (end_of_headers_reached request Hinv Hbd Hs) as (_ & Hfirst & _).
  destruct (Hfirst i Hi Hm Hbefore) as (q' & Hq' & Hread & _).
  rewrite Hq in Hq'. inversion Hq'; subst q'. rewrite (Hread n Hn) in Hnext.
  assert (Hal : REQUEST_MAX_BODY_LENGTH = 134217728) by reflexivity.
  replace (Z.max 0 (Z.min n REQUEST_MAX_BODY_LENGTH)) with 0 in Hnext by lia.
  change (0 <? 0) with false in Hnext. cbv iota in Hnext.
  split.
  - eexists. split; [exact Hnext|]. cbn. repeat split. discriminate.
  - intros c.
    destruct (requestParse_one_more (fragment ++ [LF]) _ c
                ltac:(rewrite len_app; change (len [LF]) with 1; lia) Hnext)
      as (_ & _ & ->).
    reflexivity.
Qed.

Lemma C9_witness :
  (exists request',
     requestParse zeroRequest (sample_content_length_0 ++ [LF]) = Some (Ok request') /\
     state request' = RequestParseStateBody /\
     state request' <> RequestParseStateDone /\
     HeapStr.capacity (body request') = 0 /\
     HeapStr.length (body request') = 0 /\
     HeapStr.contents (body request') = None) /\
  (forall c, requestParse zeroRequest ((sample_content_length_0 ++ [LF]) ++ [c])
             = Some (Crash BodyNull)).
Proof.
  apply (C9_zero_content_length_waits_for_a_body
           sample_content_length_0 (parsed sample_content_length_0) 0 15 0).
  - vm_compute. reflexivity.
  - vm_compute. reflexivity.
  - vm_compute. reflexivity.
  - vm_compute. split; congruence.
  - vm_compute. reflexivity.
  - intros j Hj. lia.
  - vm_compute. reflexivity.
  - vm_compute. reflexivity.
  - lia.
Defined.

End EndOfHeaders.
